(** * StepMania .sm generator: tempo, downbeat and step-chart generation

    A shallow embedding of [stepmania-ddr/stepmania_sm_generator.py].

    Conventions of the embedding.
    - Python and numpy floats are exact rationals ([Q]); the rounding error of
      IEEE arithmetic is outside the model.  Equality of such values is [==].
    - The arrays that librosa and madmom hand back (RMS envelope, tempo
      estimates, beat times, onset envelope, mel spectrogram) are inputs.
    - A Python exception is a [Raise] result; [random.Random] is an explicit
      generator state threaded through every call that draws from it. *)

From Stdlib Require Import ZArith QArith Qround Qabs Qminmax Lqa Lia List Bool Permutation Ascii.
From stdpp Require Import base option list strings gmap sets sorting pretty.
Import ListNotations.

Open Scope Z_scope.

(** ** Exceptions and results *)

Inductive exn : Type :=
  | ZeroDivisionError
  | IndexError
  | ValueError
  | KeyError.

Inductive result (A : Type) : Type :=
  | Ok (a : A)
  | Raise (e : exn).
Arguments Ok {A} a.
Arguments Raise {A} e.

#[global] Instance result_ret : MRet result := fun _ a => Ok a.
#[global] Instance result_bind : MBind result := fun _ _ f m =>
  match m with
  | Ok a => f a
  | Raise e => Raise e
  end.

(** ** Python and numpy arithmetic on rationals *)

Definition Qltb (x y : Q) : bool := negb (Qle_bool y x).

(** [int(x)]: truncation toward zero. *)
Definition py_int (x : Q) : Z := Z.quot (Qnum x) (Z.pos (Qden x)).

(** [round(x)]: to the nearest integer, halves to the even neighbour. *)
Definition py_round (x : Q) : Z :=
  let f := Qfloor x in
  let d := (x - inject_Z f)%Q in
  if Qltb d (1 # 2) then f
  else if Qltb (1 # 2) d then f + 1
  else if Z.even f then f else f + 1.

(** [round(x, 2)]. *)
Definition py_round2 (x : Q) : Q := (inject_Z (py_round (x * 100)) / 100)%Q.

(** [max(a, b)] and [min(a, b)] keep the first argument on ties. *)
Definition py_max (a b : Q) : Q := if Qltb a b then b else a.
Definition py_min (a b : Q) : Q := if Qltb b a then b else a.

(** [x % 1.0]: the result has the sign of the divisor. *)
Definition py_mod1 (x : Q) : Q := (x - inject_Z (Qfloor x))%Q.

(** [a / b] on Python floats. *)
Definition py_div (a b : Q) : result Q :=
  if Qeq_bool b 0 then Raise ZeroDivisionError else Ok (a / b)%Q.

(** [seq[i]] with Python's negative indices. *)
Definition py_index {A} (l : list A) (i : Z) : result A :=
  let n := Z.of_nat (length l) in
  let j := if i <? 0 then i + n else i in
  if (0 <=? j) && (j <? n) then
    match l !! Z.to_nat j with
    | Some x => Ok x
    | None => Raise IndexError
    end
  else Raise IndexError.

(** [range(n)]. *)
Definition py_range (n : Z) : list Z := map Z.of_nat (seq 0 (Z.to_nat n)).

(** [np.mean]; an empty slice (NaN in numpy) does not arise below. *)
Definition Qsum (l : list Q) : Q := fold_right Qplus 0%Q l.
Definition np_mean (l : list Q) : Q := (Qsum l / inject_Z (Z.of_nat (length l)))%Q.

(** [np.max]: raises on an empty array. *)
Fixpoint np_max_from (m : Q) (l : list Q) : Q :=
  match l with
  | [] => m
  | x :: l' => np_max_from (if Qltb m x then x else m) l'
  end.

Definition np_max (l : list Q) : result Q :=
  match l with
  | [] => Raise ValueError
  | x :: l' => Ok (np_max_from x l')
  end.

(** [np.where(cond)[0]]: the indices at which [p] holds, counted from [i]. *)
Fixpoint np_where {A} (p : A -> bool) (i : Z) (l : list A) : list Z :=
  match l with
  | [] => []
  | x :: l' => if p x then i :: np_where p (i + 1) l' else np_where p (i + 1) l'
  end.

(** [np.clip(x, lo, hi)] is [minimum(maximum(x, lo), hi)]. *)
Definition np_clip (x lo hi : Z) : Z := Z.min (Z.max x lo) hi.

(** librosa's frame/time conversions. *)
Definition frames_to_time (frame hop_length sr : Z) : Q :=
  (inject_Z (frame * hop_length) / inject_Z sr)%Q.

Definition time_to_frames (t : Q) (sr hop_length : Z) : Z :=
  py_int (t * inject_Z sr) `div` hop_length.

(** ** Music-start detector *)

(** [AudioAnalyzer.detect_music_start], from the RMS envelope that
    [librosa.feature.rms] returns; the result is the new [music_start]. *)
Definition detect_music_start (sr : Z) (rms : list Q) : result Q :=
  peak_rms ← np_max rms;
  let threshold := (peak_rms * 0.05)%Q in
  let above := np_where (fun v => Qltb threshold v) 0 rms in
  let music_start :=
    match above with
    | i :: _ => frames_to_time i 512 sr
    | [] => 0%Q
    end in
  Ok (py_max 0 (music_start - 0.05)).

(** ** Tempo estimator *)

(** The multipliers of the octave variants. *)
Definition octave_mults : list Q := [0.5; 1; 2; 2 # 3; 3 # 2; 4 # 3; 3 # 4]%Q.

(** [candidates.add(v)] on a set of floats, kept in insertion order. *)
Definition set_add_Q (v : Q) (s : list Q) : list Q :=
  if existsb (Qeq_bool v) s then s else s ++ [v].

(** The two nested loops that collect the octave variants in [60, 200]. *)
Definition add_variants (s : list Q) (t : Q) : list Q :=
  fold_left (fun s mult =>
    let v := (t * mult)%Q in
    if Qle_bool 60 v && Qle_bool v 200 then set_add_Q (py_round2 v) s else s)
    octave_mults s.

Definition octave_candidates (raw : list Q) : list Q := fold_left add_variants raw [].

(** The alignment score of one candidate tempo against the strong onsets. *)
Definition onset_score (beat_period ot : Q) : Q :=
  let phase := py_mod1 (ot / beat_period) in
  let dist := py_min phase (1 - phase) in
  py_max 0 (0.5 - dist).

Definition candidate_score (onset_times_for_score : list Q) (bpm_c : Q) : result Q :=
  beat_period ← py_div 60 bpm_c;
  let total_score := fold_left (fun s ot => (s + onset_score beat_period ot)%Q)
                               onset_times_for_score 0%Q in
  let total_score :=
    (total_score / inject_Z (Z.max (Z.of_nat (length onset_times_for_score)) 1))%Q in
  Ok (if Qle_bool 80 bpm_c && Qle_bool bpm_c 130 then total_score * 1.10 else total_score)%Q.

(** The scoring loop: a candidate replaces the best one only on a strictly
    higher score. *)
Fixpoint best_candidate (onsets : list Q) (cands : list Q) (best_score best_bpm : Q)
  : result (Q * Q) :=
  match cands with
  | [] => Ok (best_score, best_bpm)
  | bpm_c :: rest =>
      total_score ← candidate_score onsets bpm_c;
      if Qltb best_score total_score
      then best_candidate onsets rest total_score bpm_c
      else best_candidate onsets rest best_score best_bpm
  end.

(** [AudioAnalyzer._estimate_bpm_multimethod].  [t1], [t2], [t4] are the
    tempi of the three [beat_track] runs, [tempo3] the tempogram peaks and
    [onset_times_for_score] the times of the onsets above the 75th
    percentile.  [iter_order] is the order in which Python iterates over the
    candidate set. *)
Definition candidate_set (t1 t2 t4 : Q) (tempo3 : list Q) : list Q :=
  let t3_candidates := filter (fun t => Qltb 40 t && Qltb t 240) tempo3 in
  let raw := [t1; t2; t4] ++ t3_candidates in
  let candidates := octave_candidates raw in
  match candidates with
  | [] => [py_round2 t1]
  | _ => candidates
  end.

Definition _estimate_bpm_multimethod (iter_order : list Q -> list Q)
    (t1 t2 t4 : Q) (tempo3 onset_times_for_score : list Q) : result Q :=
  let candidates := candidate_set t1 t2 t4 tempo3 in
  '(best_score, best_bpm) ←
     best_candidate onset_times_for_score (iter_order candidates) (-1) t1;
  Ok best_bpm.

(** ** BPM selection of the two backends *)

(** [round(self.bpm * 2) / 2]. *)
Definition snap_bpm (bpm : Q) : Q := (inject_Z (py_round (bpm * 2)) / 2)%Q.

(** [self.bpm_override and self.bpm_override > 0]. *)
Definition use_override (bpm_override : option Q) : option Q :=
  match bpm_override with
  | Some b => if negb (Qeq_bool b 0) && Qltb 0 b then Some b else None
  | None => None
  end.

(** The tempo chosen before snapping.  [estimate] is the outcome of
    [_estimate_bpm_multimethod], which is only consulted where the source
    calls it; [tempi] is the outcome of madmom's tempo processor, a list of
    (bpm, confidence) pairs or an exception. *)
Definition chosen_bpm_librosa (bpm_override : option Q) (estimate : result Q) : result Q :=
  match use_override bpm_override with
  | Some b => Ok b
  | None => estimate
  end.

Definition chosen_bpm_madmom (bpm_override : option Q) (tempi : result (list (Q * Q)))
    (estimate : result Q) : result Q :=
  match use_override bpm_override with
  | Some b => Ok b
  | None =>
      match tempi with
      | Ok ((bpm0, _) :: _) => Ok bpm0
      | Ok [] => estimate
      | Raise _ => estimate
      end
  end.

(** The BPM that [detect_bpm_and_beats] stores in [self.bpm]. *)
Definition detect_bpm (HAS_MADMOM : bool) (bpm_override : option Q)
    (tempi : result (list (Q * Q))) (estimate : result Q) : result Q :=
  bpm ← (if HAS_MADMOM then chosen_bpm_madmom bpm_override tempi estimate
         else chosen_bpm_librosa bpm_override estimate);
  Ok (snap_bpm bpm).

(** ** Analysis results *)

(** The fields of [AudioAnalyzer] that later stages read.  [mel_spec] is
    stored frame by frame: [mel_spec[:, frame]] is the entry [frame] of the
    list, a column of [n_mels] band energies. *)
Record AudioAnalyzer : Type := {
  sr : Z;
  duration : Q;
  bpm : Q;
  beat_times : list Q;
  onset_times : list Q;
  onset_strengths : list Q;
  mel_spec : list (list Q);
  n_mels : Z;
  music_start : Q;
  first_downbeat : Q;
  rms : option (list Q);
}.

(** [np.argmax]: the first position of the largest value. *)
Fixpoint argmax_from (best : Q) (best_i i : Z) (l : list Q) : Z :=
  match l with
  | [] => best_i
  | x :: l' =>
      if Qltb best x then argmax_from x i (i + 1) l'
      else argmax_from best best_i (i + 1) l'
  end.

Definition np_argmax (l : list Q) : Z :=
  match l with
  | [] => 0
  | x :: l' => argmax_from x 0 1 l'
  end.

(** [spec[a:b]] for [0 <= a]. *)
Definition py_slice {A} (l : list A) (a b : Z) : list A :=
  take (Z.to_nat (b - a)) (drop (Z.to_nat a) l).

(** [AudioAnalyzer.get_dominant_band]. *)
Definition get_dominant_band (az : AudioAnalyzer) (t : Q) : result Z :=
  let frame := time_to_frames t (sr az) 512 in
  let frame := np_clip frame 0 (Z.of_nat (length (mel_spec az)) - 1) in
  spec ← py_index (mel_spec az) frame;
  let bs := n_mels az `div` 4 in
  let energies :=
    map (fun i => np_mean (py_slice spec (i * bs)
                             (if i <? 3 then (i + 1) * bs else n_mels az)))
        (py_range 4) in
  Ok (np_argmax energies).

(** [AudioAnalyzer.get_rms_at]. *)
Definition get_rms_at (az : AudioAnalyzer) (t : Q) : result Q :=
  match rms az with
  | None => Ok 1%Q
  | Some rms =>
      let frame := time_to_frames t (sr az) 512 in
      let frame := np_clip frame 0 (Z.of_nat (length rms) - 1) in
      peak ← np_max rms;
      if Qltb 0 peak then
        v ← py_index rms frame;
        Ok (v / peak)%Q
      else Ok 0%Q
  end.

(** ** Downbeat detection by accent analysis *)

(** [np.arange(phase, n, 4)] and the complementary index list. *)
Definition db_indices (phase n : Z) : list Z :=
  filter (fun i => (phase <=? i) && ((i - phase) mod 4 =? 0)) (py_range n).
Definition other_indices (phase n : Z) : list Z :=
  filter (fun i => negb ((i - phase) mod 4 =? 0)) (py_range n).

(** Fancy indexing [a[idx]]. *)
Fixpoint np_take {A} (a : list A) (idx : list Z) : result (list A) :=
  match idx with
  | [] => Ok []
  | i :: idx' =>
      x ← py_index a i;
      xs ← np_take a idx';
      Ok (x :: xs)
  end.

Fixpoint map_result {A B} (f : A -> result B) (l : list A) : result (list B) :=
  match l with
  | [] => Ok []
  | x :: l' =>
      y ← f x;
      ys ← map_result f l';
      Ok (y :: ys)
  end.

(** The score of one phase in the loop over [range(4)]; [None] stands for
    the [continue] of an empty index list. *)
Definition phase_score (az : AudioAnalyzer) (beat_strengths bass_at_beats : list Q)
    (phase : Z) : result (option Q) :=
  let n := Z.of_nat (length beat_strengths) in
  let db_idx := db_indices phase n in
  let other_idx := other_indices phase n in
  match db_idx with
  | [] => Ok None
  | _ =>
      db_str ← np_take beat_strengths db_idx;
      other_str ← (match other_idx with
                   | [] => Ok [1%Q]
                   | _ => np_take beat_strengths other_idx
                   end);
      let strength_ratio := (np_mean db_str / (np_mean other_str + 1e-8))%Q in
      db_times ← np_take (beat_times az) db_idx;
      rms_values ← map_result (get_rms_at az) db_times;
      let rms_score := np_mean rms_values in
      bass_db ← np_take bass_at_beats db_idx;
      let bass_score := np_mean bass_db in
      let score := (strength_ratio * (1 + rms_score) * (1 + bass_score))%Q in
      Ok (Some (if phase =? 0 then score * 1.05 else score)%Q)
  end.

Fixpoint best_phase_loop (az : AudioAnalyzer) (beat_strengths bass_at_beats : list Q)
    (phases : list Z) (best_phase : Z) (best_score : Q) : result (Z * Q) :=
  match phases with
  | [] => Ok (best_phase, best_score)
  | phase :: rest =>
      s ← phase_score az beat_strengths bass_at_beats phase;
      match s with
      | None => best_phase_loop az beat_strengths bass_at_beats rest best_phase best_score
      | Some score =>
          if Qltb best_score score
          then best_phase_loop az beat_strengths bass_at_beats rest phase score
          else best_phase_loop az beat_strengths bass_at_beats rest best_phase best_score
      end
  end.

(** The backward walk [while first_downbeat - measure_duration >= lo:
    first_downbeat -= measure_duration], with a bound on the iterations;
    [None] means the bound was reached. *)
Fixpoint walk_back (fuel : nat) (measure_duration lo first_downbeat : Q) : option Q :=
  if Qle_bool lo (first_downbeat - measure_duration) then
    match fuel with
    | O => None
    | S fuel' => walk_back fuel' measure_duration lo (first_downbeat - measure_duration)
    end
  else Some first_downbeat.

(** Enough iterations for a positive measure duration. *)
Definition walk_fuel (measure_duration lo first_downbeat : Q) : nat :=
  Z.to_nat (Qfloor ((first_downbeat - lo) / measure_duration)).

(** The outcome of the downbeat search: a time, an exception, or a loop that
    never ends. *)
Inductive outcome (A : Type) : Type :=
  | Returns (a : A)
  | Raises (e : exn)
  | Diverges.
Arguments Returns {A} a.
Arguments Raises {A} e.
Arguments Diverges {A}.

(** [AudioAnalyzer._detect_downbeat_from_beat_strengths]; [onset_env] is
    librosa's onset-strength envelope and [bass_energy] the mean of the eight
    lowest STFT bins per frame.  The result is the new [first_downbeat]. *)
Definition chosen_phase (az : AudioAnalyzer) (onset_env bass_energy : list Q) : result Z :=
  let beat_frames := map (fun t => time_to_frames t (sr az) 512) (beat_times az) in
  let beat_frames :=
    map (fun f => np_clip f 0 (Z.of_nat (length onset_env) - 1)) beat_frames in
  beat_strengths ← np_take onset_env beat_frames;
  let bass_frames := map (fun t => time_to_frames t (sr az) 512) (beat_times az) in
  let bass_frames :=
    map (fun f => np_clip f 0 (Z.of_nat (length bass_energy) - 1)) bass_frames in
  bass_at_beats ← np_take bass_energy bass_frames;
  m ← np_max bass_at_beats;
  let bass_max := if Qltb 0 m then m else 1%Q in
  let bass_at_beats := map (fun b => (b / bass_max)%Q) bass_at_beats in
  '(best_phase, _) ← best_phase_loop az beat_strengths bass_at_beats (py_range 4) 0 (-1);
  Ok best_phase.

Definition _detect_downbeat_from_beat_strengths (az : AudioAnalyzer)
    (onset_env bass_energy : list Q) : outcome Q :=
  if (length (beat_times az) <? 8)%nat then
    match beat_times az with
    | t :: _ => Returns t
    | [] => Returns 0%Q
    end
  else
    match chosen_phase az onset_env bass_energy with
    | Raise e => Raises e
    | Ok best_phase =>
        match py_index (beat_times az) best_phase with
        | Raise e => Raises e
        | Ok first_downbeat =>
            match py_div 60 (bpm az) with
            | Raise e => Raises e
            | Ok beat_period =>
                let measure_duration := (4 * beat_period)%Q in
                let lo := (music_start az - beat_period * 0.25)%Q in
                match walk_back (walk_fuel measure_duration lo first_downbeat)
                                measure_duration lo first_downbeat with
                | Some t => Returns t
                | None => Diverges
                end
            end
        end
    end.

(** ** The pseudorandom generator *)

(** [random.Random]: a state, the draw [random()] in [0, 1) and CPython's
    [_randbelow(n)], the draw in [0, n) on which [randint] and [choice] are
    built.  [Random seed] is the state after seeding with an integer. *)
Class PRNG : Type := {
  rng_state : Type;
  Random : Z -> rng_state;
  rng_random : rng_state -> Q * rng_state;
  rng_randbelow : Z -> rng_state -> Z * rng_state;
  rng_random_range : forall g, (0 <= (rng_random g).1 /\ (rng_random g).1 < 1)%Q;
  rng_randbelow_range : forall n g, 0 < n -> 0 <= (rng_randbelow n g).1 < n;
}.

(** ** Difficulty presets *)

Record Config : Type := {
  level : Z;
  subdiv : Z;
  use_beats_only : bool;
  beat_skip : Z;
  onset_thresh : Q;
  jump_prob : Q;
  max_nps : Q;
  jack_ok : bool;
  alt_pref : bool;
}.

Definition Beginner : Config := {|
  level := 1; subdiv := 4; use_beats_only := true; beat_skip := 2;
  onset_thresh := 0.95; jump_prob := 0.00; max_nps := 1.5;
  jack_ok := false; alt_pref := true |}.

Definition Easy : Config := {|
  level := 3; subdiv := 4; use_beats_only := true; beat_skip := 1;
  onset_thresh := 0.75; jump_prob := 0.03; max_nps := 3.0;
  jack_ok := false; alt_pref := true |}.

Definition Medium : Config := {|
  level := 6; subdiv := 8; use_beats_only := false; beat_skip := 1;
  onset_thresh := 0.40; jump_prob := 0.08; max_nps := 5.0;
  jack_ok := false; alt_pref := false |}.

Definition Hard : Config := {|
  level := 8; subdiv := 16; use_beats_only := false; beat_skip := 1;
  onset_thresh := 0.25; jump_prob := 0.12; max_nps := 9.0;
  jack_ok := true; alt_pref := false |}.

Definition Challenge : Config := {|
  level := 10; subdiv := 16; use_beats_only := false; beat_skip := 1;
  onset_thresh := 0.10; jump_prob := 0.18; max_nps := 14.0;
  jack_ok := true; alt_pref := false |}.

(** [StepChartGenerator.CONFIGS], in the order of the dict literal. *)
Definition CONFIGS : list (string * Config) :=
  [("Beginner", Beginner); ("Easy", Easy); ("Medium", Medium);
   ("Hard", Hard); ("Challenge", Challenge)]%string.

Fixpoint assoc_lookup {A} (name : string) (l : list (string * A)) : option A :=
  match l with
  | [] => None
  | (k, v) :: l' => if String.eqb name k then Some v else assoc_lookup name l'
  end.

(** [CONFIGS[name]]. *)
Definition config_of (name : string) : result Config :=
  match assoc_lookup name CONFIGS with
  | Some cfg => Ok cfg
  | None => Raise KeyError
  end.

Definition LEFT_FOOT : list Z := [0; 1].
Definition RIGHT_FOOT : list Z := [2; 3].

(** ** Rows *)

(** A row is the four-element list [[left, down, up, right]].  Every row of
    the generator starts as the literal [[0, 0, 0, 0]] and is only changed by
    assigning one element or all four, so its length is fixed. *)
Record Row : Type := mkRow { lane0 : Z; lane1 : Z; lane2 : Z; lane3 : Z }.

#[global] Instance Row_eq_dec : EqDecision Row.
Proof. solve_decision. Defined.

Definition zero_row : Row := mkRow 0 0 0 0.

(** [row[i]] for [i] in [range(4)]. *)
Definition row_get (row : Row) (i : Z) : Z :=
  if i =? 0 then lane0 row
  else if i =? 1 then lane1 row
  else if i =? 2 then lane2 row
  else lane3 row.

(** [row[i] = v], with Python's index rules for a list of length four. *)
Definition row_set (row : Row) (i v : Z) : result Row :=
  let j := if i <? 0 then i + 4 else i in
  if j =? 0 then Ok (mkRow v (lane1 row) (lane2 row) (lane3 row))
  else if j =? 1 then Ok (mkRow (lane0 row) v (lane2 row) (lane3 row))
  else if j =? 2 then Ok (mkRow (lane0 row) (lane1 row) v (lane3 row))
  else if j =? 3 then Ok (mkRow (lane0 row) (lane1 row) (lane2 row) v)
  else Raise IndexError.

Definition row_list (row : Row) : list Z := [lane0 row; lane1 row; lane2 row; lane3 row].

(** [sum(row)]. *)
Definition row_sum (row : Row) : Z := lane0 row + lane1 row + lane2 row + lane3 row.

(** [any(v > 0 for v in row)]. *)
Definition row_any_pos (row : Row) : bool := existsb (fun v => 0 <? v) (row_list row).

(** [all(v == 0 for v in row)]. *)
Definition row_all_zero (row : Row) : bool := forallb (fun v => v =? 0) (row_list row).

(** [[i for i in range(4) if row[i]]]. *)
Definition arrows_of (row : Row) : list Z :=
  filter (fun i => negb (row_get row i =? 0)) (py_range 4).

(** [row.index(1)]. *)
Definition row_index1 (row : Row) : result Z :=
  match filter (fun i => row_get row i =? 1) (py_range 4) with
  | i :: _ => Ok i
  | [] => Raise ValueError
  end.

Definition Measures : Type := list (list Row).

(** The dict that [generate_chart] returns. *)
Record Chart : Type := {
  chart_difficulty : string;
  chart_level : Z;
  chart_subdiv : Z;
  chart_measures : Measures;
  chart_note_count : Z;
}.

(** ** Step-chart generation *)

Section Generator.
Context {G : PRNG}.

(** Computations that draw from [self.rng] and may raise. *)
Definition M (A : Type) : Type := rng_state -> result (A * rng_state).

#[global] Instance M_ret : MRet M := fun _ a g => Ok (a, g).
#[global] Instance M_bind : MBind M := fun _ _ f m g =>
  match m g with
  | Ok (a, g') => f a g'
  | Raise e => Raise e
  end.

Definition liftR {A} (r : result A) : M A := fun g =>
  match r with
  | Ok a => Ok (a, g)
  | Raise e => Raise e
  end.

(** [self.rng.random()], [self.rng.randint(a, b)], [self.rng.choice(seq)]. *)
Definition random : M Q := fun g => Ok (rng_random g).

Definition randint (a b : Z) : M Z := fun g =>
  if b - a + 1 <=? 0 then Raise ValueError
  else let '(k, g') := rng_randbelow (b - a + 1) g in Ok (a + k, g').

Definition choice {A} (seq : list A) : M A := fun g =>
  match seq with
  | [] => Raise IndexError
  | _ =>
      let '(k, g') := rng_randbelow (Z.of_nat (length seq)) g in
      match py_index seq k with
      | Ok x => Ok (x, g')
      | Raise e => Raise e
      end
  end.

(** *** Arrow assignment *)

(** The retry loop [for _ in range(12)] that avoids a jack. *)
Fixpoint jack_loop (n : nat) (arrow prev_last : Z) : M Z :=
  match n with
  | O => mret arrow
  | S n' =>
      if negb (arrow =? prev_last) then mret arrow
      else arrow' ← randint 0 3; jack_loop n' arrow' prev_last
  end.

(** [StepChartGenerator._pick_arrow].  [last prev] is [prev[-1]], present
    exactly when [prev] is truthy. *)
Definition _pick_arrow (az : AudioAnalyzer) (t : Q) (prev : list Z) (cfg : Config)
  : M (Row * Z) :=
  band ← liftR (get_dominant_band az t);
  x ← random;
  arrow ← (if Qltb x 0.30 then randint 0 3 else mret band);
  arrow ← (match (if alt_pref cfg then last prev else None) with
           | Some prev_last =>
               choice (if bool_decide (prev_last ∈ LEFT_FOOT)
                       then RIGHT_FOOT else LEFT_FOOT)
           | None => mret arrow
           end);
  arrow ← (match (if negb (jack_ok cfg) then last prev else None) with
           | Some prev_last => jack_loop 12 arrow prev_last
           | None => mret arrow
           end);
  row ← liftR (row_set zero_row arrow 1);
  row ← (if negb (Qeq_bool (jump_prob cfg) 0) then
           y ← random;
           if Qltb y (jump_prob cfg) then
             let alt := filter (fun i => negb (i =? arrow)) (py_range 4) in
             k ← choice alt;
             liftR (row_set row k 1)
           else mret row
         else mret row);
  mret (row, arrow).

(** *** Post-processing *)

(** The loop [for m_idx, meas in enumerate(measures): for r_idx, row in
    enumerate(meas)] with a loop-carried state [s]; [body] returns the new
    content of the row. *)
Fixpoint for_rows {S} (body : Z -> Z -> S -> Row -> M (Row * S))
    (m_idx r_idx : Z) (s : S) (meas : list Row) : M (list Row * S) :=
  match meas with
  | [] => mret ([], s)
  | row :: rest =>
      '(row', s') ← body m_idx r_idx s row;
      '(rest', s'') ← for_rows body m_idx (r_idx + 1) s' rest;
      mret (row' :: rest', s'')
  end.

Fixpoint for_measures {S} (body : Z -> Z -> S -> Row -> M (Row * S))
    (m_idx : Z) (s : S) (measures : Measures) : M (Measures * S) :=
  match measures with
  | [] => mret ([], s)
  | meas :: rest =>
      '(meas', s') ← for_rows body m_idx 0 s meas;
      '(rest', s'') ← for_measures body (m_idx + 1) s' rest;
      mret (meas' :: rest', s'')
  end.

(** Rule 1: mute arrows during quiet sections. *)
Definition rule1_body (az : AudioAnalyzer) (subdiv : Z) (spr offset : Q)
    (m_idx r_idx : Z) (_ : unit) (row : Row) : M (Row * unit) :=
  if negb (row_any_pos row) then mret (row, tt)
  else
    let t := (offset + inject_Z (m_idx * subdiv + r_idx) * spr)%Q in
    energy ← liftR (get_rms_at az t);
    mret (if Qltb energy 0.08 then zero_row else row, tt).

(** Rule 2: avoid crossovers; the state is [prev_arrow]. *)
Definition rule2_body (m_idx r_idx : Z) (prev_arrow : Z) (row : Row) : M (Row * Z) :=
  match arrows_of row with
  | [a] =>
      let row :=
        if (prev_arrow =? 0) && (a =? 3) then mkRow 0 0 1 0
        else if (prev_arrow =? 3) && (a =? 0) then mkRow 0 1 0 0
        else row in
      mret (row, match arrows_of row with
                 | a' :: _ => a'
                 | [] => prev_arrow
                 end)
  | _ => mret (row, prev_arrow)
  end.

(** Rule 3: emphasis jumps on the first row of a measure. *)
Definition rule3_measure (az : AudioAnalyzer) (subdiv : Z) (spr offset : Q)
    (m_idx : Z) (meas : list Row) : M (list Row) :=
  match meas with
  | [] => liftR (Raise IndexError)
  | row :: rest =>
      if row_any_pos row && (row_sum row =? 1) then
        let t := (offset + inject_Z (m_idx * subdiv) * spr)%Q in
        energy ← liftR (get_rms_at az t);
        if Qltb 0.70 energy then
          x ← random;
          if Qltb x 0.20 then
            active ← liftR (row_index1 row);
            partner ← choice (if bool_decide (active ∈ LEFT_FOOT)
                              then RIGHT_FOOT else LEFT_FOOT);
            row' ← liftR (row_set row partner 1);
            mret (row' :: rest)
          else mret meas
        else mret meas
      else mret meas
  end.

Fixpoint rule3 (az : AudioAnalyzer) (subdiv : Z) (spr offset : Q)
    (m_idx : Z) (measures : Measures) : M Measures :=
  match measures with
  | [] => mret []
  | meas :: rest =>
      meas' ← rule3_measure az subdiv spr offset m_idx meas;
      rest' ← rule3 az subdiv spr offset (m_idx + 1) rest;
      mret (meas' :: rest')
  end.

(** Rule 4: smooth runs.  [flat] lists references to the row objects of
    [measures]; it is modelled as the store of those rows, and writing
    through it changes the measures. *)
Definition patterns : list (list Z) :=
  [[0; 1; 2; 3]; [3; 2; 1; 0]; [0; 2; 1; 3]; [3; 1; 2; 0]].

Definition flat_get (flat : list Row) (i : nat) : result Row :=
  match flat !! i with
  | Some row => Ok row
  | None => Raise IndexError
  end.

(** The loop of [_smooth_run] from iteration [i], for [n] more iterations. *)
Fixpoint smooth_from (pat : list Z) (start i n : nat) (flat : list Row)
  : result (list Row) :=
  match n with
  | O => Ok flat
  | S n' =>
      _ ← flat_get flat (start + i);
      arrow ← py_index pat (Z.of_nat i mod 4);
      row ← row_set zero_row arrow 1;
      smooth_from pat start (S i) n' (<[(start + i)%nat := row]> flat)
  end.

(** [StepChartGenerator._smooth_run]. *)
Definition _smooth_run (flat : list Row) (start length : nat) : M (list Row) :=
  pat ← choice patterns;
  liftR (smooth_from pat start 0 length flat).

(** The scan of rule 4 over [enumerate(flat)], [n] rows from index [i].
    [run_start] is [None] exactly when [run_len] is 0. *)
Fixpoint rule4_scan (n i : nat) (run_start : option nat) (run_len : nat)
    (flat : list Row) : M (list Row) :=
  match n with
  | O =>
      if (4 <=? run_len)%nat then _smooth_run flat (default i run_start) run_len
      else mret flat
  | S n' =>
      row ← liftR (flat_get flat i);
      if row_any_pos row && (row_sum row =? 1) then
        rule4_scan n' (S i) (Some (default i run_start)) (S run_len) flat
      else
        flat' ← (if (4 <=? run_len)%nat
                 then _smooth_run flat (default i run_start) run_len
                 else mret flat);
        rule4_scan n' (S i) None 0%nat flat'
  end.

(** The measures seen through the store after the scan. *)
Fixpoint regroup (shape : list nat) (flat : list Row) : Measures :=
  match shape with
  | [] => []
  | n :: shape' => take n flat :: regroup shape' (drop n flat)
  end.

Definition rule4 (measures : Measures) : M Measures :=
  let flat := concat measures in
  flat' ← rule4_scan (length flat) 0 None 0 flat;
  mret (regroup (map length measures) flat').

(** Rule 5: gap between jumps; the state is [last_jump_gi]. *)
Definition rule5_body (lvl subdiv : Z) (m_idx r_idx : Z) (last_jump_gi : Z)
    (row : Row) : M (Row * Z) :=
  let gi := m_idx * subdiv + r_idx in
  if 2 <=? row_sum row then
    if (gi - last_jump_gi <? 3) && (lvl <? 9) then
      keep ← choice (arrows_of row);
      row' ← liftR (row_set zero_row keep 1);
      mret (row', last_jump_gi)
    else mret (row, gi)
  else mret (row, last_jump_gi).

Definition rule5 (lvl subdiv : Z) (measures : Measures) : M Measures :=
  '(measures, _) ← for_measures (rule5_body lvl subdiv) 0 (-999) measures;
  mret measures.

(** [StepChartGenerator._postprocess]. *)
Definition _postprocess (az : AudioAnalyzer) (measures : Measures) (subdiv : Z)
    (cfg : Config) : M Measures :=
  spm ← liftR (py_div (4 * 60.0) (bpm az));
  spr ← liftR (py_div spm (inject_Z subdiv));
  let offset := first_downbeat az in
  '(measures, _) ← for_measures (rule1_body az subdiv spr offset) 0 tt measures;
  measures ← (if level cfg <=? 6 then
                '(measures, _) ← for_measures rule2_body 0 (-1) measures;
                mret measures
              else mret measures);
  measures ← (if 5 <=? level cfg then rule3 az subdiv spr offset 0 measures
              else mret measures);
  measures ← (if 8 <=? level cfg then rule4 measures else mret measures);
  rule5 (level cfg) subdiv measures.

(** *** One chart *)

(** [a[::k]] on a numpy array. *)
Fixpoint every_nth {A} (k i : nat) (l : list A) : list A :=
  match l with
  | [] => []
  | x :: l' =>
      match i with
      | O => x :: every_nth k (k - 1) l'
      | S i' => every_nth k i' l'
      end
  end.

Definition py_stride {A} (l : list A) (k : Z) : result (list A) :=
  if k =? 0 then Raise ValueError
  else if 0 <? k then Ok (every_nth (Z.to_nat k) 0 l)
  else Ok (every_nth (Z.to_nat (- k)) 0 (rev l)).

(** The common part of the two collection loops: round the time to a row
    index and add it when it is close enough to the grid. *)
Definition mark_row (offset spr t : Q) (note_grid : gset Z) : gset Z :=
  let x := ((t - offset) / spr)%Q in
  let ri := py_round x in
  if (0 <=? ri) && Qltb (Qabs (x - inject_Z ri)) 0.45
  then {[ ri ]} ∪ note_grid else note_grid.

Definition mark_beats (az : AudioAnalyzer) (offset spr : Q) (beats : list Q)
    (note_grid : gset Z) : gset Z :=
  fold_left (fun note_grid bt =>
    if Qle_bool (music_start az) bt && Qle_bool bt (duration az)
    then mark_row offset spr bt note_grid else note_grid) beats note_grid.

Definition mark_onsets (az : AudioAnalyzer) (cfg : Config) (offset spr : Q)
    (note_grid : gset Z) : gset Z :=
  fold_left (fun note_grid '(ot, os_) =>
    if Qle_bool (onset_thresh cfg) os_ && Qle_bool (music_start az) ot
       && Qle_bool ot (duration az)
    then mark_row offset spr ot note_grid else note_grid)
    (zip (onset_times az) (onset_strengths az)) note_grid.

(** The eligible rows before the density cap. *)
Definition eligible_rows (az : AudioAnalyzer) (cfg : Config) (offset spr : Q)
    (beats : list Q) : gset Z :=
  mark_onsets az cfg offset spr (mark_beats az offset spr beats ∅).

(** The density cap. *)
Definition max_notes_of (az : AudioAnalyzer) (cfg : Config) : Z :=
  py_int (duration az * max_nps cfg).

Definition density_cap (max_notes : Z) (note_grid : gset Z) : result (gset Z) :=
  if max_notes <? Z.of_nat (size note_grid) then
    let lst := merge_sort Z.le (elements note_grid) in
    step ← py_div (inject_Z (Z.of_nat (length lst))) (inject_Z max_notes);
    picked ← map_result (fun i => py_index lst (py_int (inject_Z i * step)))
                        (py_range max_notes);
    Ok (list_to_set picked)
  else Ok note_grid.

(** [prev = prev[-8:]]. *)
Definition last8 (prev : list Z) : list Z := drop (length prev - 8) prev.

(** The loops [for m in range(n_meas): for r in range(subdiv)] that build
    the measures; [prev] is the history of assigned arrows. *)
Fixpoint build_rows (az : AudioAnalyzer) (cfg : Config) (offset spr : Q)
    (note_grid : gset Z) (m : Z) (rs : list Z) (prev : list Z)
  : M (list Row * list Z) :=
  match rs with
  | [] => mret ([], prev)
  | r :: rs' =>
      let gi := m * subdiv cfg + r in
      let trow := (offset + inject_Z gi * spr)%Q in
      if bool_decide (gi ∈ note_grid) && Qle_bool 0 trow && Qle_bool trow (duration az)
      then
        '(row, arrow) ← _pick_arrow az trow prev cfg;
        let prev := last8 (prev ++ [arrow]) in
        '(mrows, prev) ← build_rows az cfg offset spr note_grid m rs' prev;
        mret (row :: mrows, prev)
      else
        '(mrows, prev) ← build_rows az cfg offset spr note_grid m rs' prev;
        mret (zero_row :: mrows, prev)
  end.

Fixpoint build_measures (az : AudioAnalyzer) (cfg : Config) (offset spr : Q)
    (note_grid : gset Z) (ms : list Z) (prev : list Z) : M Measures :=
  match ms with
  | [] => mret []
  | m :: ms' =>
      '(mrows, prev) ← build_rows az cfg offset spr note_grid m
                                  (py_range (subdiv cfg)) prev;
      measures ← build_measures az cfg offset spr note_grid ms' prev;
      mret (mrows :: measures)
  end.

(** [while len(measures) > 1 and all(...measures[-1]...): measures.pop()],
    on the reversed list. *)
Definition measure_empty (meas : list Row) : bool := forallb row_all_zero meas.

Fixpoint pop_empty (rev_measures : Measures) : Measures :=
  match rev_measures with
  | meas :: (_ :: _) as rest => if measure_empty meas then pop_empty rest else rev_measures
  | _ => rev_measures
  end.

Definition trim_trailing (measures : Measures) : Measures :=
  rev (pop_empty (rev measures)).

(** [sum(1 for ms in measures for r in ms if any(v > 0 for v in r))]. *)
Definition count_notes (measures : Measures) : Z :=
  Z.of_nat (length (filter (fun r => row_any_pos r = true) (concat measures))).

(** [StepChartGenerator.generate_chart] after the lookup [cfg = CONFIGS[name]]. *)
Definition generate_chart_with (az : AudioAnalyzer) (name : string) (cfg : Config)
  : M Chart :=
  let offset := first_downbeat az in
  spm ← liftR (py_div (4 * 60.0) (bpm az));
  spr ← liftR (py_div spm (inject_Z (subdiv cfg)));
  x ← liftR (py_div (duration az - offset) spm);
  let n_meas := Qceiling x + 1 in
  beats ← liftR (py_stride (beat_times az) (beat_skip cfg));
  let note_grid := eligible_rows az cfg offset spr beats in
  note_grid ← liftR (density_cap (max_notes_of az cfg) note_grid);
  measures ← build_measures az cfg offset spr note_grid (py_range n_meas) [];
  measures ← _postprocess az measures (subdiv cfg) cfg;
  let measures := trim_trailing measures in
  mret {| chart_difficulty := name; chart_level := level cfg;
          chart_subdiv := subdiv cfg; chart_measures := measures;
          chart_note_count := count_notes measures |}.

Definition generate_chart (az : AudioAnalyzer) (name : string) : M Chart :=
  cfg ← liftR (config_of name);
  generate_chart_with az name cfg.

(** *** All selected difficulties *)

(** What the progress callback is told. *)
Inductive LogMsg : Type :=
  | LogGenerating (name : string)
  | LogNoteCount (name : string) (note_count : Z)
  | LogAllGenerated.

(** A [StepChartGenerator] object: the analyzer, the generator state, the
    [charts] dict and what its callback has recorded so far. *)
Record StepChartGenerator : Type := {
  self_az : AudioAnalyzer;
  self_rng : rng_state;
  self_charts : gmap string Chart;
  self_log : list (LogMsg * Z);
}.

(** [StepChartGenerator.__init__] with an integer seed; [cb] is the state of
    the caller's callback. *)
Definition new_generator (analyzer : AudioAnalyzer) (seed : Z) (cb : list (LogMsg * Z))
  : StepChartGenerator :=
  {| self_az := analyzer; self_rng := Random seed; self_charts := ∅; self_log := cb |}.

Definition _log (self : StepChartGenerator) (msg : LogMsg) (pct : Z) : StepChartGenerator :=
  {| self_az := self_az self; self_rng := self_rng self;
     self_charts := self_charts self; self_log := self_log self ++ [(msg, pct)] |}.

(** The loop of [generate_all] from index [i]. *)
Fixpoint generate_loop (base i : Z) (selected : list string) (self : StepChartGenerator)
  : result StepChartGenerator :=
  match selected with
  | [] => Ok self
  | name :: rest =>
      let self := _log self (LogGenerating name) (base + i * 5) in
      '(chart, g) ← generate_chart (self_az self) name (self_rng self);
      let self := {| self_az := self_az self; self_rng := g;
                     self_charts := <[name := chart]> (self_charts self);
                     self_log := self_log self |} in
      let self := _log self (LogNoteCount name (chart_note_count chart))
                       (base + (i + 1) * 5) in
      generate_loop base (i + 1) rest self
  end.

(** [StepChartGenerator.generate_all]: the returned dict and the object
    afterwards. *)
Definition generate_all (self : StepChartGenerator) (selected : option (list string))
  : result (gmap string Chart * StepChartGenerator) :=
  let selected :=
    match selected with
    | Some ((_ :: _) as l) => l
    | _ => map fst CONFIGS
    end in
  self ← generate_loop 72 0 selected self;
  let self := _log self LogAllGenerated 95 in
  Ok (self_charts self, self).

End Generator.

(** ** Onset detection *)

(** [AudioAnalyzer.detect_onsets], from the onset-strength envelope [env]
    and the frames that [librosa.onset.onset_detect] returns; the result is
    the new [(onset_times, onset_strengths)]. *)
Definition detect_onsets (sr : Z) (env : list Q) (frames : list Z)
  : result (list Q * list Q) :=
  let onset_times := map (fun f => frames_to_time f 512 sr) frames in
  raw ← (match frames with
         | [] => Ok []
         | _ => np_take env frames
         end);
  mx ← (match raw with
        | [] => Ok 1%Q
        | _ => np_max raw
        end);
  let onset_strengths := if Qltb 0 mx then map (fun v => (v / mx)%Q) raw else raw in
  Ok (onset_times, onset_strengths).

(** ** Beat tracking and the librosa backend *)

(** [all_beat_times[all_beat_times >= self.music_start]]. *)
Definition keep_beats (music_start : Q) (all_beat_times : list Q) : list Q :=
  filter (fun t => Qle_bool music_start t) all_beat_times.

(** The tempo window handed to madmom's beat tracker:
    [min_bpm=max(40, self.bpm - 30)], [max_bpm=min(240, self.bpm + 30)]. *)
Definition tracker_window (bpm : Q) : Q * Q :=
  (py_max 40 (bpm - 30), py_min 240 (bpm + 30)).

(** [AudioAnalyzer._detect_with_librosa]: the analyzer after the BPM, the
    beats and the first downbeat have been stored.  [beat_track] stands for
    [librosa.beat.beat_track] followed by [frames_to_time], as a function of
    the BPM hint. *)
Definition _detect_with_librosa (az : AudioAnalyzer) (bpm_override : option Q)
    (estimate : result Q) (beat_track : Q -> list Q) (onset_env bass_energy : list Q)
  : outcome AudioAnalyzer :=
  match chosen_bpm_librosa bpm_override estimate with
  | Raise e => Raises e
  | Ok b =>
      let bpm' := snap_bpm b in
      let all_beat_times := beat_track bpm' in
      let az :=
        {| sr := sr az; duration := duration az; bpm := bpm';
           beat_times := keep_beats (music_start az) all_beat_times;
           onset_times := onset_times az; onset_strengths := onset_strengths az;
           mel_spec := mel_spec az; n_mels := n_mels az;
           music_start := music_start az; first_downbeat := first_downbeat az;
           rms := rms az |} in
      match _detect_downbeat_from_beat_strengths az onset_env bass_energy with
      | Returns t =>
          Returns {| sr := sr az; duration := duration az; bpm := bpm az;
                     beat_times := beat_times az;
                     onset_times := onset_times az; onset_strengths := onset_strengths az;
                     mel_spec := mel_spec az; n_mels := n_mels az;
                     music_start := music_start az; first_downbeat := t;
                     rms := rms az |}
      | Raises e => Raises e
      | Diverges => Diverges
      end
  end.

(** The downbeat stage of [AudioAnalyzer._detect_with_madmom].
    [downbeat_info] is what madmom's downbeat tracker returns, rows of
    (time, beat number), or the exception it raised. *)
Definition madmom_downbeat (az : AudioAnalyzer) (downbeat_info : result (list (Q * Z)))
    (onset_env bass_energy : list Q) : outcome Q :=
  match downbeat_info with
  | Ok info =>
      let downbeats := filter (fun r : Q * Z => r.2 =? 1) info in
      let valid_db :=
        filter (fun r : Q * Z => Qle_bool (music_start az - 0.1) r.1) downbeats in
      match valid_db with
      | (t, _) :: _ => Returns t
      | [] => _detect_downbeat_from_beat_strengths az onset_env bass_energy
      end
  | Raise _ => _detect_downbeat_from_beat_strengths az onset_env bass_energy
  end.

(** ** The front end's check of a manual BPM *)

(** [App._on_gen] refuses an override with
    [bpm_override <= 0 or bpm_override > 300]. *)
Definition bpm_override_accepted (bpm_override : Q) : bool :=
  negb (Qle_bool bpm_override 0 || Qltb 300 bpm_override).

(** ** The .sm file writer *)

Definition nl : string := String "010"%char "".

(** [sep.join(l)]. *)
Fixpoint py_join (sep : string) (l : list string) : string :=
  match l with
  | [] => ""
  | x :: l' =>
      match l' with
      | [] => x
      | _ => x +:+ sep +:+ py_join sep l'
      end
  end.

(** [''.join(str(v) for v in r)]. *)
Definition row_str (r : Row) : string := py_join "" (map pretty (row_list r)).

(** [rows = '\n'.join(... for r in meas)]. *)
Definition measure_str (meas : list Row) : string := py_join nl (map row_str meas).

(** [notes_body = '\n,\n'.join(measure_strs) + '\n;\n']. *)
Definition notes_body (measures : Measures) : string :=
  py_join (nl +:+ "," +:+ nl) (map measure_str measures) +:+ nl +:+ ";" +:+ nl.

Definition notes_hdr (name : string) (ch : Chart) : string :=
  nl +:+ "//---------------dance-single - " +:+ name +:+ "---------------" +:+ nl +:+
  "#NOTES:" +:+ nl +:+
  "     dance-single:" +:+ nl +:+
  "     :" +:+ nl +:+
  "     " +:+ name +:+ ":" +:+ nl +:+
  "     " +:+ pretty (chart_level ch) +:+ ":" +:+ nl +:+
  "     0.000000,0.000000,0.000000,0.000000,0.000000:" +:+ nl.

(** The names that [write] looks up, in its order. *)
Definition DIFFICULTY_NAMES : list string :=
  ["Beginner"; "Easy"; "Medium"; "Hard"; "Challenge"]%string.

(** The loop [for name in (...): if name not in self.charts: continue]:
    one section per chart that is present. *)
Definition notes_sections (charts : gmap string Chart) : list string :=
  omap (fun name =>
          (fun ch => notes_hdr name ch +:+ notes_body (chart_measures ch))
            <$> charts !! name)
       DIFFICULTY_NAMES.

Section Writer.

(** [f"{x:.6f}"]: the decimal rendering of a float, which the rational model
    leaves open. *)
Variable format_6f : Q -> string.

Definition sm_header (az : AudioAnalyzer) (title music : string) (video : option string)
  : string :=
  let offset := (- first_downbeat az)%Q in
  let preview := (duration az * 0.30)%Q in
  let bgchanges :=
    match video with
    | Some v =>
        if String.eqb v "" then "#BGCHANGES:;" +:+ nl
        else "#BGCHANGES:0.000000=" +:+ v +:+ "=1.000000=0=0=0=0;" +:+ nl
    | None => "#BGCHANGES:;" +:+ nl
    end in
  "#TITLE:" +:+ title +:+ ";" +:+ nl +:+
  "#SUBTITLE:;" +:+ nl +:+
  "#ARTIST:Unknown Artist;" +:+ nl +:+
  "#TITLETRANSLIT:;" +:+ nl +:+
  "#SUBTITLETRANSLIT:;" +:+ nl +:+
  "#ARTISTTRANSLIT:;" +:+ nl +:+
  "#GENRE:;" +:+ nl +:+
  "#CREDIT:Auto-generated by SM Generator;" +:+ nl +:+
  "#BANNER:;" +:+ nl +:+
  "#BACKGROUND:;" +:+ nl +:+
  "#LYRICSPATH:;" +:+ nl +:+
  "#CDTITLE:;" +:+ nl +:+
  "#MUSIC:" +:+ music +:+ ";" +:+ nl +:+
  "#OFFSET:" +:+ format_6f offset +:+ ";" +:+ nl +:+
  "#SAMPLESTART:" +:+ format_6f preview +:+ ";" +:+ nl +:+
  "#SAMPLELENGTH:15.000000;" +:+ nl +:+
  "#SELECTABLE:YES;" +:+ nl +:+
  "#BPMS:0.000000=" +:+ format_6f (bpm az) +:+ ";" +:+ nl +:+
  "#STOPS:;" +:+ nl +:+
  bgchanges.

(** [SMFileWriter.write]: the strings handed to [writelines].  [title] is
    the stem of the audio path, [music] and [video] the base names of the
    music and video files. *)
Definition write (az : AudioAnalyzer) (charts : gmap string Chart)
    (title music : string) (video : option string) : list string :=
  sm_header az title music video :: notes_sections charts.

End Writer.

(** * Properties *)

(** ** Results *)

Lemma result_bind_Ok {A B} (m : result A) (f : A -> result B) (b : B) :
  m ≫= f = Ok b -> exists a, m = Ok a /\ f a = Ok b.
Proof. destruct m as [a|e]; [intros H; exists a; split; [reflexivity | exact H] | discriminate]. Qed.

(** ** Arithmetic helpers *)

Lemma Qltb_lt (x y : Q) : Qltb x y = true <-> (x < y)%Q.
Proof.
  unfold Qltb. rewrite negb_true_iff. split.
  - intros H. apply Qnot_le_lt. intros Hle. apply Qle_bool_iff in Hle. congruence.
  - intros H. destruct (Qle_bool y x) eqn:E; [|reflexivity].
    apply Qle_bool_iff in E. exfalso. apply (Qlt_not_le _ _ H E).
Qed.

Lemma Qltb_ge (x y : Q) : Qltb x y = false <-> (y <= x)%Q.
Proof.
  unfold Qltb. rewrite negb_false_iff. apply Qle_bool_iff.
Qed.

Lemma Qle_bool_false (x y : Q) : Qle_bool x y = false <-> (y < x)%Q.
Proof.
  rewrite <- Qltb_lt. unfold Qltb. destruct (Qle_bool x y); simpl; intuition congruence.
Qed.

Ltac qbool :=
  repeat match goal with
  | H : Qltb _ _ = true |- _ => apply Qltb_lt in H
  | H : Qltb _ _ = false |- _ => apply Qltb_ge in H
  | H : Qle_bool _ _ = true |- _ => apply Qle_bool_iff in H
  | H : Qle_bool _ _ = false |- _ => apply Qle_bool_false in H
  | H : Qeq_bool _ _ = true |- _ => apply Qeq_bool_iff in H
  | H : Qeq_bool _ _ = false |- _ => apply Qeq_bool_neq in H
  end.

Lemma py_max_spec (a b : Q) : py_max a b == Qmax a b.
Proof.
  unfold py_max. destruct (Qltb a b) eqn:E; qbool.
  - symmetry. apply Q.max_r. lra.
  - symmetry. apply Q.max_l. exact E.
Qed.

Lemma py_max_lower (a b : Q) : (a <= py_max a b)%Q.
Proof. unfold py_max. destruct (Qltb a b) eqn:E; qbool; lra. Qed.

(** [round] stays between the integers that bound its argument. *)
Lemma py_round_floor (x : Q) : py_round x = Qfloor x \/
  (py_round x = Qfloor x + 1 /\ (inject_Z (Qfloor x) + (1 # 2) <= x)%Q).
Proof.
  unfold py_round.
  destruct (Qltb (x - inject_Z (Qfloor x)) (1 # 2)) eqn:E1; [left; reflexivity|].
  qbool.
  destruct (Qltb (1 # 2) (x - inject_Z (Qfloor x))) eqn:E2.
  - right. split; [reflexivity|lra].
  - destruct (Z.even (Qfloor x)); [left; reflexivity|right; split; [reflexivity|lra]].
Qed.

Lemma py_round_ge (x : Q) (lo : Z) : (inject_Z lo <= x)%Q -> lo <= py_round x.
Proof.
  intros H. assert (lo <= Qfloor x).
  { rewrite <- (Qfloor_Z lo). apply Qfloor_resp_le. exact H. }
  destruct (py_round_floor x) as [-> | [-> _]]; lia.
Qed.

Lemma py_round_le (x : Q) (hi : Z) : (x <= inject_Z hi)%Q -> py_round x <= hi.
Proof.
  intros H.
  assert (Hf : Qfloor x <= hi).
  { rewrite <- (Qfloor_Z hi). apply Qfloor_resp_le. exact H. }
  destruct (py_round_floor x) as [-> | [-> Hhalf]]; [exact Hf|].
  assert (Hlt : (inject_Z (Qfloor x) < inject_Z hi)%Q) by lra.
  rewrite <- Zlt_Qlt in Hlt. lia.
Qed.

Lemma py_round_near (x : Q) : (Qabs (x - inject_Z (py_round x)) <= 1 # 2)%Q.
Proof.
  pose proof (Qfloor_le x) as Hlo. pose proof (Qlt_floor x) as Hhi.
  rewrite inject_Z_plus in Hhi. change (inject_Z 1) with 1%Q in Hhi.
  apply Qabs_Qle_condition.
  unfold py_round.
  destruct (Qltb (x - inject_Z (Qfloor x)) (1 # 2)) eqn:E1; qbool.
  { split; lra. }
  assert (Hup : (x - inject_Z (Qfloor x + 1) <= 1 # 2)%Q /\
                (- (1 # 2) <= x - inject_Z (Qfloor x + 1))%Q).
  { rewrite inject_Z_plus. change (inject_Z 1) with 1%Q. split; lra. }
  destruct (Qltb (1 # 2) (x - inject_Z (Qfloor x))) eqn:E2; qbool.
  { split; lra. }
  destruct (Z.even (Qfloor x)); split; lra.
Qed.


(** ** Music start (C8) *)

Lemma np_max_from_spec (l : list Q) : forall m,
  (np_max_from m l = m \/ np_max_from m l ∈ l) /\
  (m <= np_max_from m l)%Q /\
  (forall x, x ∈ l -> (x <= np_max_from m l)%Q).
Proof.
  induction l as [|y l IH]; intros m; simpl.
  - split; [left; reflexivity|]. split; [apply Qle_refl|].
    intros x Hx. inversion Hx.
  - destruct (IH (if Qltb m y then y else m)) as (Hin & Hge & Hall).
    destruct (Qltb m y) eqn:E; qbool.
    + split; [right; destruct Hin as [-> | Hin]; [left | right; exact Hin]|].
      split; [lra|].
      intros x Hx. apply elem_of_cons in Hx as [-> | Hx]; [exact Hge | apply Hall, Hx].
    + split; [destruct Hin as [-> | Hin]; [left; reflexivity | right; right; exact Hin]|].
      split; [exact Hge|].
      intros x Hx. apply elem_of_cons in Hx as [-> | Hx]; [lra | apply Hall, Hx].
Qed.

Lemma np_max_spec (l : list Q) (peak : Q) :
  np_max l = Ok peak -> peak ∈ l /\ (forall x, x ∈ l -> (x <= peak)%Q).
Proof.
  destruct l as [|y l]; simpl; [discriminate|].
  intros [= <-]. destruct (np_max_from_spec l y) as (Hin & Hge & Hall).
  split.
  - destruct Hin as [-> | Hin]; [left | right; exact Hin].
  - intros x Hx. apply elem_of_cons in Hx as [-> | Hx]; [exact Hge | apply Hall, Hx].
Qed.

Lemma np_where_nil {A} (p : A -> bool) (l : list A) : forall k,
  np_where p k l = [] -> forall x, x ∈ l -> p x = false.
Proof.
  induction l as [|y l IH]; intros k H x Hx; [inversion Hx|].
  simpl in H. destruct (p y) eqn:E; [discriminate|].
  apply elem_of_cons in Hx as [-> | Hx]; [exact E | eapply IH; eauto].
Qed.

Lemma np_where_first {A} (p : A -> bool) (l : list A) : forall k i rest,
  np_where p k l = i :: rest ->
  exists (n : nat) x, i = k + Z.of_nat n /\ l !! n = Some x /\ p x = true /\
    forall (j : nat) y, (j < n)%nat -> l !! j = Some y -> p y = false.
Proof.
  induction l as [|y l IH]; intros k i rest H; simpl in H; [discriminate|].
  destruct (p y) eqn:E.
  - injection H as <- _. exists 0%nat, y. repeat split; [lia | exact E | intros; lia].
  - destruct (IH _ _ _ H) as (n & x & -> & Hx & Hp & Hbefore).
    exists (S n), x. repeat split; [lia | exact Hx | exact Hp |].
    intros [|j] z Hj Hz; simpl in Hz; [congruence|].
    apply (Hbefore j z); [lia | exact Hz].
Qed.

(** C8.  On the RMS envelope of a track (librosa returns at least one
    frame), [detect_music_start] returns a value and does not raise.  With
    [peak_rms] the largest RMS value, the result is [max(0, t - 0.05)] for
    the time [t] of the earliest frame whose RMS is strictly above 5% of
    [peak_rms], and 0 when no frame is above that threshold. *)
Theorem detect_music_start_spec (sr : Z) (rms : list Q) :
  rms <> [] ->
  exists peak_rms v,
    detect_music_start sr rms = Ok v /\
    peak_rms ∈ rms /\ (forall x, x ∈ rms -> (x <= peak_rms)%Q) /\
    ((exists (i : nat) x,
         rms !! i = Some x /\ (peak_rms * 0.05 < x)%Q /\
         (forall (j : nat) y, (j < i)%nat -> rms !! j = Some y ->
                              (y <= peak_rms * 0.05)%Q) /\
         v == Qmax 0 (frames_to_time (Z.of_nat i) 512 sr - 0.05))
     \/ ((forall x, x ∈ rms -> (x <= peak_rms * 0.05)%Q) /\ v == 0)).
Proof.
  intros Hne. unfold detect_music_start.
  destruct (np_max rms) as [peak|e] eqn:Hmax.
  2:{ destruct rms; [congruence | discriminate]. }
  destruct (np_max_spec _ _ Hmax) as [Hin Hall].
  exists peak. simpl.
  destruct (np_where (fun v => Qltb (peak * 0.05) v) 0 rms) as [|i rest] eqn:Hw.
  - eexists. split; [reflexivity|]. split; [exact Hin|]. split; [exact Hall|].
    right. split.
    + intros x Hx. pose proof (np_where_nil _ _ _ Hw x Hx) as E. simpl in E.
      qbool. exact E.
    + rewrite py_max_spec. apply Q.max_l. discriminate.
  - destruct (np_where_first _ _ _ _ _ Hw) as (n & x & -> & Hx & Hp & Hbefore).
    eexists. split; [reflexivity|]. split; [exact Hin|]. split; [exact Hall|].
    left. exists n, x. split; [exact Hx|]. simpl in Hp. qbool. split; [exact Hp|].
    split.
    + intros j y Hj Hy. pose proof (Hbefore j y Hj Hy) as E. simpl in E. qbool. exact E.
    + rewrite py_max_spec. reflexivity.
Qed.

Lemma detect_music_start_spec_witness :
  exists peak_rms v,
    detect_music_start 22050 [0; 0.01; 0.5; 1; 0.2]%Q = Ok v /\
    peak_rms ∈ [0; 0.01; 0.5; 1; 0.2]%Q /\
    (forall x, x ∈ [0; 0.01; 0.5; 1; 0.2]%Q -> (x <= peak_rms)%Q) /\
    ((exists (i : nat) x,
         [0; 0.01; 0.5; 1; 0.2]%Q !! i = Some x /\ (peak_rms * 0.05 < x)%Q /\
         (forall (j : nat) y, (j < i)%nat -> [0; 0.01; 0.5; 1; 0.2]%Q !! j = Some y ->
                              (y <= peak_rms * 0.05)%Q) /\
         v == Qmax 0 (frames_to_time (Z.of_nat i) 512 22050 - 0.05))
     \/ ((forall x, x ∈ [0; 0.01; 0.5; 1; 0.2]%Q -> (x <= peak_rms * 0.05)%Q) /\ v == 0)).
Proof. apply (detect_music_start_spec 22050 [0; 0.01; 0.5; 1; 0.2]%Q). discriminate. Defined.


(** ** Final BPM (C2) *)

Lemma snap_bpm_half (b : Q) : exists k : Z, snap_bpm b == inject_Z k / 2.
Proof. exists (py_round (b * 2)). reflexivity. Qed.

Lemma round_div_range (x : Q) (lo hi d : Z) :
  0 < d -> (inject_Z (lo * d) <= x)%Q -> (x <= inject_Z (hi * d))%Q ->
  (inject_Z lo <= inject_Z (py_round x) / inject_Z d /\
   inject_Z (py_round x) / inject_Z d <= inject_Z hi)%Q.
Proof.
  intros Hd Hlo Hhi.
  assert (Hd' : (0 < inject_Z d)%Q).
  { change 0%Q with (inject_Z 0). rewrite <- Zlt_Qlt. exact Hd. }
  apply py_round_ge in Hlo. apply py_round_le in Hhi.
  split.
  - apply Qle_shift_div_l; [exact Hd'|].
    rewrite <- inject_Z_mult, <- Zle_Qle. exact Hlo.
  - apply Qle_shift_div_r; [exact Hd'|].
    rewrite <- inject_Z_mult, <- Zle_Qle. exact Hhi.
Qed.

Lemma snap_bpm_range (b : Q) :
  (60 <= b /\ b <= 200)%Q -> (60 <= snap_bpm b /\ snap_bpm b <= 200)%Q.
Proof.
  intros [Hlo Hhi]. unfold snap_bpm.
  apply (round_div_range (b * 2) 60 200 2); [lia | | ].
  - change (inject_Z (60 * 2)) with 120%Q. lra.
  - change (inject_Z (200 * 2)) with 400%Q. lra.
Qed.

Lemma py_round2_range (v : Q) :
  (60 <= v /\ v <= 200)%Q -> (60 <= py_round2 v /\ py_round2 v <= 200)%Q.
Proof.
  intros [Hlo Hhi]. unfold py_round2.
  apply (round_div_range (v * 100) 60 200 100); [lia | | ].
  - change (inject_Z (60 * 100)) with 6000%Q. lra.
  - change (inject_Z (200 * 100)) with 20000%Q. lra.
Qed.

(** ** Tempo estimator (C4) *)

Definition in_band (c : Q) : Prop := (60 <= c /\ c <= 200)%Q.

Lemma set_add_Q_Forall (P : Q -> Prop) (v : Q) (s : list Q) :
  P v -> Forall P s -> Forall P (set_add_Q v s).
Proof.
  intros Hv Hs. unfold set_add_Q. destruct (existsb (Qeq_bool v) s); [exact Hs|].
  apply Forall_app. split; [exact Hs | constructor; [exact Hv | constructor]].
Qed.

Lemma add_variants_band (t : Q) (s : list Q) :
  Forall in_band s -> Forall in_band (add_variants s t).
Proof.
  unfold add_variants. generalize octave_mults. intros mults. revert s.
  induction mults as [|m mults IH]; intros s Hs; simpl; [exact Hs|].
  apply IH.
  destruct (Qle_bool 60 (t * m) && Qle_bool (t * m) 200) eqn:E; [|exact Hs].
  apply andb_true_iff in E as [E1 E2]. qbool.
  apply set_add_Q_Forall; [|exact Hs]. apply py_round2_range. split; assumption.
Qed.

Lemma octave_candidates_band (raw : list Q) : Forall in_band (octave_candidates raw).
Proof.
  unfold octave_candidates. generalize (@nil Q) (Forall_nil_2 in_band).
  induction raw as [|t raw IH]; intros s Hs; simpl; [exact Hs|].
  apply IH, add_variants_band, Hs.
Qed.

Lemma onset_score_nonneg (beat_period ot : Q) : (0 <= onset_score beat_period ot)%Q.
Proof. unfold onset_score. apply py_max_lower. Qed.

Lemma fold_score_nonneg (beat_period : Q) (onsets : list Q) : forall s,
  (0 <= s)%Q ->
  (0 <= fold_left (fun s ot => s + onset_score beat_period ot) onsets s)%Q.
Proof.
  induction onsets as [|ot onsets IH]; intros s Hs; simpl; [exact Hs|].
  apply IH. pose proof (onset_score_nonneg beat_period ot). lra.
Qed.

Lemma candidate_score_ok (onsets : list Q) (c : Q) :
  ~ c == 0 -> exists s, candidate_score onsets c = Ok s /\ (0 <= s)%Q.
Proof.
  intros Hc. unfold candidate_score, py_div.
  destruct (Qeq_bool c 0) eqn:E; qbool; [contradiction|]. simpl.
  eexists. split; [reflexivity|].
  set (total := fold_left _ _ _).
  assert (Ht : (0 <= total)%Q) by (apply fold_score_nonneg; apply Qle_refl).
  set (n := inject_Z _).
  assert (Hn : (0 < n)%Q).
  { unfold n. change 0%Q with (inject_Z 0). rewrite <- Zlt_Qlt. lia. }
  assert (Hq : (0 <= total / n)%Q).
  { apply Qle_shift_div_l; [exact Hn | lra]. }
  destruct (Qle_bool 80 c && Qle_bool c 130); lra.
Qed.

Lemma in_band_nonzero (c : Q) : in_band c -> ~ c == 0.
Proof. intros [H _] E. lra. Qed.

(** The loop keeps the first candidate of maximal score, unless no candidate
    beats the initial score. *)
Lemma best_candidate_spec (onsets cands : list Q) : forall s0 b0,
  Forall (fun c => ~ c == 0) cands ->
  exists s b,
    best_candidate onsets cands s0 b0 = Ok (s, b) /\
    ((s = s0 /\ b = b0 /\
      forall c, c ∈ cands -> exists sc, candidate_score onsets c = Ok sc /\ (sc <= s0)%Q)
     \/
     (exists l1 l2,
        cands = l1 ++ b :: l2 /\ candidate_score onsets b = Ok s /\ (s0 < s)%Q /\
        (forall c, c ∈ l1 -> exists sc, candidate_score onsets c = Ok sc /\ (sc < s)%Q) /\
        (forall c, c ∈ l2 -> exists sc, candidate_score onsets c = Ok sc /\ (sc <= s)%Q))).
Proof.
  induction cands as [|c cands IH]; intros s0 b0 Hnz; simpl.
  - exists s0, b0. split; [reflexivity|]. left. repeat split. intros c Hc. inversion Hc.
  - apply Forall_cons in Hnz as [Hc Hnz].
    destruct (candidate_score_ok onsets c Hc) as (sc & Hsc & _). rewrite Hsc. simpl.
    destruct (Qltb s0 sc) eqn:E; qbool.
    + destruct (IH sc c Hnz) as (s & b & Hrun & Hcase). exists s, b.
      split; [exact Hrun|]. right.
      destruct Hcase as [(-> & -> & Hall) | (l1 & l2 & -> & Hb & Hlt & H1 & H2)].
      * exists [], cands. repeat split; [exact Hsc | exact E | |exact Hall].
        intros x Hx. inversion Hx.
      * exists (c :: l1), l2. repeat split; [exact Hb | lra | | exact H2].
        intros x Hx. apply elem_of_cons in Hx as [-> | Hx]; [eauto | apply H1, Hx].
    + destruct (IH s0 b0 Hnz) as (s & b & Hrun & Hcase). exists s, b.
      split; [exact Hrun|].
      destruct Hcase as [(-> & -> & Hall) | (l1 & l2 & -> & Hb & Hlt & H1 & H2)].
      * left. repeat split. intros x Hx.
        apply elem_of_cons in Hx as [-> | Hx]; [eauto | apply Hall, Hx].
      * right. exists (c :: l1), l2. repeat split; [exact Hb | exact Hlt | | exact H2].
        intros x Hx. apply elem_of_cons in Hx as [-> | Hx]; [|apply H1, Hx].
        exists sc. split; [exact Hsc | lra].
Qed.

Lemma candidate_set_band (t1 t2 t4 : Q) (tempo3 : list Q) :
  octave_candidates ([t1; t2; t4] ++ filter (fun t => Qltb 40 t && Qltb t 240) tempo3) <> [] ->
  candidate_set t1 t2 t4 tempo3 <> [] /\ Forall in_band (candidate_set t1 t2 t4 tempo3).
Proof.
  intros Hne. unfold candidate_set.
  pose proof (octave_candidates_band
                ([t1; t2; t4] ++ filter (fun t => Qltb 40 t && Qltb t 240) tempo3)) as Hband.
  destruct (octave_candidates _) as [|c l]; [congruence|].
  split; [discriminate | exact Hband].
Qed.

(** The scoring loop of the estimator on a candidate set with a variant in
    [60, 200]: some candidate replaces the initial [t1], and the loop ends
    on the first candidate of maximal score. *)
Lemma estimate_bpm_run (iter_order : list Q -> list Q)
    (t1 t2 t4 : Q) (tempo3 onsets : list Q) :
  (forall l, Permutation (iter_order l) l) ->
  octave_candidates ([t1; t2; t4] ++ filter (fun t => Qltb 40 t && Qltb t 240) tempo3) <> [] ->
  exists b s l1 l2,
    best_candidate onsets (iter_order (candidate_set t1 t2 t4 tempo3)) (-1) t1 = Ok (s, b) /\
    iter_order (candidate_set t1 t2 t4 tempo3) = l1 ++ b :: l2 /\
    b ∈ candidate_set t1 t2 t4 tempo3 /\
    in_band b /\
    candidate_score onsets b = Ok s /\
    (forall c, c ∈ l1 -> exists sc, candidate_score onsets c = Ok sc /\ (sc < s)%Q) /\
    (forall c, c ∈ l2 -> exists sc, candidate_score onsets c = Ok sc /\ (sc <= s)%Q).
Proof.
  intros Hperm Hne.
  destruct (candidate_set_band t1 t2 t4 tempo3 Hne) as [Hne' Hband].
  set (cands := candidate_set t1 t2 t4 tempo3) in *.
  assert (Hband' : Forall in_band (iter_order cands)).
  { rewrite (Hperm cands). exact Hband. }
  assert (Hnz : Forall (fun c => ~ c == 0) (iter_order cands)).
  { eapply Forall_impl; [exact Hband' | apply in_band_nonzero]. }
  destruct (best_candidate_spec onsets _ (-1) t1 Hnz) as (s & b & Hrun & Hcase).
  destruct Hcase as [(_ & _ & Hall) | (l1 & l2 & Hsplit & Hb & _ & H1 & H2)].
  - exfalso. destruct (iter_order cands) as [|c l] eqn:El.
    + apply Hne'. apply Permutation_nil. rewrite <- El. exact (Hperm cands).
    + destruct (Hall c) as (sc & Hsc & Hle); [left|].
      apply Forall_cons in Hnz as [Hc _].
      destruct (candidate_score_ok onsets c Hc) as (sc' & Hsc' & Hpos).
      rewrite Hsc in Hsc'. injection Hsc' as <-. lra.
  - exists b, s, l1, l2. split; [exact Hrun|]. split; [exact Hsplit|].
    assert (Hin : b ∈ iter_order cands).
    { rewrite Hsplit. apply elem_of_app. right. left. }
    split; [rewrite <- (Hperm cands); exact Hin|].
    split; [exact (proj1 (Forall_forall _ _) Hband' b Hin)|].
    repeat split; assumption.
Qed.

(** C4, as the code has it.  When some octave variant lies in [60, 200],
    the estimator returns a candidate [b] of that range whose score is
    maximal, and among the candidates of maximal score the one that comes
    first in the iteration order of the candidate set: every candidate before
    [b] scores strictly less, every candidate after it at most as much.  The
    first-method estimate has no priority. *)
Theorem estimate_bpm_first_maximal (iter_order : list Q -> list Q)
    (t1 t2 t4 : Q) (tempo3 onsets : list Q) :
  (forall l, Permutation (iter_order l) l) ->
  octave_candidates ([t1; t2; t4] ++ filter (fun t => Qltb 40 t && Qltb t 240) tempo3) <> [] ->
  exists b s l1 l2,
    _estimate_bpm_multimethod iter_order t1 t2 t4 tempo3 onsets = Ok b /\
    iter_order (candidate_set t1 t2 t4 tempo3) = l1 ++ b :: l2 /\
    b ∈ candidate_set t1 t2 t4 tempo3 /\
    (60 <= b /\ b <= 200)%Q /\
    candidate_score onsets b = Ok s /\
    (forall c, c ∈ l1 -> exists sc, candidate_score onsets c = Ok sc /\ (sc < s)%Q) /\
    (forall c, c ∈ l2 -> exists sc, candidate_score onsets c = Ok sc /\ (sc <= s)%Q).
Proof.
  intros Hperm Hne.
  destruct (estimate_bpm_run iter_order t1 t2 t4 tempo3 onsets Hperm Hne)
    as (b & s & l1 & l2 & Hrun & Hsplit & Hin & Hband & Hb & H1 & H2).
  exists b, s, l1, l2. unfold _estimate_bpm_multimethod. rewrite Hrun.
  repeat split; try assumption; apply Hband.
Qed.


Lemma estimate_bpm_first_maximal_witness :
  exists b s l1 l2,
    _estimate_bpm_multimethod (fun l => l) 160 160 160 [] [0; 3; 6]%Q = Ok b /\
    candidate_set 160 160 160 [] = l1 ++ b :: l2 /\
    b ∈ candidate_set 160 160 160 [] /\
    (60 <= b /\ b <= 200)%Q /\
    candidate_score [0; 3; 6]%Q b = Ok s /\
    (forall c, c ∈ l1 -> exists sc, candidate_score [0; 3; 6]%Q c = Ok sc /\ (sc < s)%Q) /\
    (forall c, c ∈ l2 -> exists sc, candidate_score [0; 3; 6]%Q c = Ok sc /\ (sc <= s)%Q).
Proof.
  apply (estimate_bpm_first_maximal (fun l => l) 160 160 160 [] [0; 3; 6]%Q).
  - intros l. reflexivity.
  - vm_compute. discriminate.
Defined.

(** C4 as stated fails.  With all three [beat_track] runs at 160 BPM and
    strong onsets every three seconds, the candidates 80 and 120 tie for the
    best score (0.55), 160 itself scores less (0.5), and the estimator
    returns 80, not the first-method estimate 160. *)
Lemma estimate_bpm_tie_counterexample :
  exists b s80 s120 s160 s106,
    candidate_set 160 160 160 [] = [80.00; 160.00; 106.67; 120.00]%Q /\
    candidate_score [0; 3; 6]%Q 80.00 = Ok s80 /\
    candidate_score [0; 3; 6]%Q 120.00 = Ok s120 /\
    candidate_score [0; 3; 6]%Q 160.00 = Ok s160 /\
    candidate_score [0; 3; 6]%Q 106.67 = Ok s106 /\
    s80 == s120 /\ (s160 < s80)%Q /\ (s106 < s80)%Q /\
    _estimate_bpm_multimethod (fun l => l) 160 160 160 [] [0; 3; 6]%Q = Ok b /\
    b == 80 /\ ~ b == 160.
Proof.
  do 5 eexists.
  split; [vm_compute; reflexivity|].
  split; [vm_compute; reflexivity|].
  split; [vm_compute; reflexivity|].
  split; [vm_compute; reflexivity|].
  split; [vm_compute; reflexivity|].
  split; [vm_compute; reflexivity|].
  split; [vm_compute; reflexivity|].
  split; [vm_compute; reflexivity|].
  split; [vm_compute; reflexivity|].
  split; [vm_compute; reflexivity|].
  vm_compute. discriminate.
Qed.

(** C2, as the code has it.  The stored BPM is the snapped value of the
    tempo chosen by the backend, hence always a multiple of 0.5; it lies in
    [60, 200] whenever the chosen tempo does, and that is the case when the
    multi-method estimator supplies it and some octave variant lies in
    [60, 200].  Neither a manual override nor madmom's tempo is clamped. *)
Theorem detect_bpm_snapped (HAS_MADMOM : bool) (bpm_override : option Q)
    (tempi : result (list (Q * Q))) (estimate : result Q) (b : Q) :
  detect_bpm HAS_MADMOM bpm_override tempi estimate = Ok b ->
  exists raw,
    (if HAS_MADMOM then chosen_bpm_madmom bpm_override tempi estimate
     else chosen_bpm_librosa bpm_override estimate) = Ok raw /\
    b = snap_bpm raw /\
    (exists k : Z, b == inject_Z k / 2) /\
    ((60 <= raw /\ raw <= 200)%Q -> (60 <= b /\ b <= 200)%Q) /\
    (forall iter_order t1 t2 t4 tempo3 onsets,
        (forall l, Permutation (iter_order l) l) ->
        octave_candidates
          ([t1; t2; t4] ++ filter (fun t => Qltb 40 t && Qltb t 240) tempo3) <> [] ->
        estimate = _estimate_bpm_multimethod iter_order t1 t2 t4 tempo3 onsets ->
        use_override bpm_override = None ->
        HAS_MADMOM = false \/ tempi = Ok [] \/ (exists e, tempi = Raise e) ->
        (60 <= b /\ b <= 200)%Q).
Proof.
  unfold detect_bpm. intros H.
  destruct (if HAS_MADMOM then _ else _) as [raw|e] eqn:Hraw; simpl in H; [|discriminate].
  injection H as <-. exists raw. split; [reflexivity|]. split; [reflexivity|].
  split; [apply snap_bpm_half|]. split; [apply snap_bpm_range|].
  intros iter_order t1 t2 t4 tempo3 onsets Hperm Hne -> Hov Hsrc.
  apply snap_bpm_range.
  destruct (estimate_bpm_run iter_order t1 t2 t4 tempo3 onsets Hperm Hne)
    as (b & s & l1 & l2 & Hrun & _ & _ & Hband & _).
  assert (Hest : _estimate_bpm_multimethod iter_order t1 t2 t4 tempo3 onsets = Ok b).
  { unfold _estimate_bpm_multimethod. rewrite Hrun. reflexivity. }
  assert (Hb : Ok raw = Ok b).
  { rewrite <- Hraw, <- Hest. unfold chosen_bpm_madmom, chosen_bpm_librosa.
    rewrite Hov. destruct HAS_MADMOM; [|reflexivity].
    destruct Hsrc as [Hm | [-> | [e ->]]]; [discriminate | reflexivity | reflexivity]. }
  injection Hb as ->. exact Hband.
Qed.

Lemma detect_bpm_snapped_witness :
  exists raw,
    chosen_bpm_madmom None (Ok [(127.8, 0.9)]%Q) (Raise ValueError) = Ok raw /\
    (256 # 2)%Q = snap_bpm raw /\
    (exists k : Z, (256 # 2) == inject_Z k / 2) /\
    ((60 <= raw /\ raw <= 200)%Q -> (60 <= 256 # 2 /\ 256 # 2 <= 200)%Q) /\
    (forall iter_order t1 t2 t4 tempo3 onsets,
        (forall l, Permutation (iter_order l) l) ->
        octave_candidates
          ([t1; t2; t4] ++ filter (fun t => Qltb 40 t && Qltb t 240) tempo3) <> [] ->
        Raise ValueError = _estimate_bpm_multimethod iter_order t1 t2 t4 tempo3 onsets ->
        use_override None = None ->
        true = false \/ Ok [(127.8, 0.9)]%Q = Ok [] \/
          (exists e, Ok [(127.8, 0.9)]%Q = Raise e) ->
        (60 <= 256 # 2 /\ 256 # 2 <= 200)%Q).
Proof.
  apply (detect_bpm_snapped true None (Ok [(127.8, 0.9)]%Q) (Raise ValueError) (256 # 2)).
  vm_compute. reflexivity.
Defined.

(** C2 as stated fails: a manual override of 250 BPM, which the front end
    accepts, is stored as 250. *)
Lemma detect_bpm_override_counterexample :
  exists b,
    detect_bpm false (Some 250%Q) (Ok []) (Ok 120%Q) = Ok b /\
    b == 250 /\ ~ (60 <= b /\ b <= 200)%Q.
Proof.
  eexists. split; [vm_compute; reflexivity|].
  split; [vm_compute; reflexivity|].
  intros [_ H]. vm_compute in H. apply H. reflexivity.
Qed.


(** ** Downbeat (C3) *)

Lemma walk_back_spec (m lo : Q) : forall (fuel : nat) (fd : Q),
  (0 < m)%Q -> (fd - lo < inject_Z (Z.of_nat fuel + 1) * m)%Q ->
  exists (k : nat) t,
    walk_back fuel m lo fd = Some t /\
    t == fd - inject_Z (Z.of_nat k) * m /\
    (t - m < lo)%Q /\
    ((0 < k)%nat -> (lo <= t)%Q).
Proof.
  induction fuel as [|fuel IH]; intros fd Hm Hfuel.
  - simpl walk_back. destruct (Qle_bool lo (fd - m)) eqn:E; qbool.
    + exfalso. change (inject_Z (Z.of_nat 0 + 1)) with 1%Q in Hfuel. lra.
    + exists 0%nat, fd. split; [reflexivity|].
      split; [change (inject_Z (Z.of_nat 0)) with 0%Q; lra|].
      split; [exact E | lia].
  - simpl walk_back. destruct (Qle_bool lo (fd - m)) eqn:E; qbool.
    + destruct (IH (fd - m)%Q Hm) as (k & t & Hrun & Ht & Hlt & Hge).
      { rewrite Nat2Z.inj_succ in Hfuel. unfold Z.succ in Hfuel.
        rewrite !inject_Z_plus in Hfuel. rewrite inject_Z_plus.
        change (inject_Z 1) with 1%Q in *. lra. }
      exists (S k), t. split; [exact Hrun|]. split.
      { rewrite Nat2Z.inj_succ. unfold Z.succ. rewrite inject_Z_plus.
        change (inject_Z 1) with 1%Q. lra. }
      split; [exact Hlt|]. intros _.
      destruct k as [|k]; [|apply Hge; lia].
      change (inject_Z (Z.of_nat 0)) with 0%Q in Ht. lra.
    + exists 0%nat, fd. split; [reflexivity|].
      split; [change (inject_Z (Z.of_nat 0)) with 0%Q; lra|].
      split; [exact E | lia].
Qed.

Lemma walk_fuel_enough (m lo fd : Q) :
  (0 < m)%Q -> (fd - lo < inject_Z (Z.of_nat (walk_fuel m lo fd) + 1) * m)%Q.
Proof.
  intros Hm. unfold walk_fuel.
  set (q := ((fd - lo) / m)%Q).
  assert (Hq : (q < inject_Z (Z.of_nat (Z.to_nat (Qfloor q)) + 1))%Q).
  { eapply Qlt_le_trans; [apply Qlt_floor|]. rewrite <- Zle_Qle. lia. }
  assert (Hfd : fd - lo == q * m).
  { unfold q. field. intros E. rewrite E in Hm. discriminate Hm. }
  rewrite Hfd. apply Qmult_lt_compat_r; assumption.
Qed.

Lemma best_phase_loop_in (az : AudioAnalyzer) (bs bass : list Q) (phases : list Z) :
  forall p0 s0 p s,
  best_phase_loop az bs bass phases p0 s0 = Ok (p, s) -> p = p0 \/ p ∈ phases.
Proof.
  induction phases as [|ph phases IH]; intros p0 s0 p s H; simpl in H.
  - injection H as <- _. left. reflexivity.
  - apply result_bind_Ok in H as ([score|] & _ & H).
    + destruct (Qltb s0 score); apply IH in H as [-> | H];
        try (right; right; exact H); [right; left | left; reflexivity].
    + apply IH in H as [-> | H]; [left; reflexivity | right; right; exact H].
Qed.

Lemma chosen_phase_range (az : AudioAnalyzer) (onset_env bass_energy : list Q) (p : Z) :
  chosen_phase az onset_env bass_energy = Ok p -> 0 <= p < 4.
Proof.
  unfold chosen_phase. intros H.
  apply result_bind_Ok in H as (bs & _ & H).
  apply result_bind_Ok in H as (bass & _ & H).
  apply result_bind_Ok in H as (m & _ & H).
  apply result_bind_Ok in H as ([p' s] & Hloop & H).
  injection H as <-. apply best_phase_loop_in in Hloop as [-> | Hin]; [lia|].
  change (py_range 4) with [0; 1; 2; 3] in Hin.
  repeat (apply elem_of_cons in Hin as [-> | Hin]; [lia|]). inversion Hin.
Qed.

(** C3, as the code has it.  With at least eight beats and a positive BPM
    the search returns.  The downbeat lies a whole number [k] of measures
    before the beat at the chosen phase index (one of the first four
    beats, not necessarily the first), so it is at most that beat; one more
    measure back would fall below [music_start] minus a quarter beat, and
    after at least one step back the downbeat itself is not below it. *)
Theorem downbeat_walk_back (az : AudioAnalyzer) (onset_env bass_energy : list Q)
    (best_phase : Z) :
  (0 < bpm az)%Q ->
  (8 <= length (beat_times az))%nat ->
  chosen_phase az onset_env bass_energy = Ok best_phase ->
  let beat_period := (60 / bpm az)%Q in
  let measure_duration := (4 * beat_period)%Q in
  let lo := (music_start az - beat_period * 0.25)%Q in
  exists (k : nat) (phase_beat t : Q),
    0 <= best_phase < 4 /\
    beat_times az !! Z.to_nat best_phase = Some phase_beat /\
    _detect_downbeat_from_beat_strengths az onset_env bass_energy = Returns t /\
    t == phase_beat - inject_Z (Z.of_nat k) * measure_duration /\
    (t <= phase_beat)%Q /\
    (t - measure_duration < lo)%Q /\
    ((0 < k)%nat -> (lo <= t)%Q).
Proof.
  intros Hbpm Hlen Hphase beat_period measure_duration lo.
  pose proof (chosen_phase_range _ _ _ _ Hphase) as Hrange.
  destruct (lookup_lt_is_Some_2 (beat_times az) (Z.to_nat best_phase)) as [tb Htb]; [lia|].
  assert (Hidx : py_index (beat_times az) best_phase = Ok tb).
  { unfold py_index.
    destruct (best_phase <? 0) eqn:E1; [lia|].
    destruct ((0 <=? best_phase) && (best_phase <? Z.of_nat (length (beat_times az)))) eqn:E2.
    - rewrite Htb. reflexivity.
    - apply andb_false_iff in E2 as [E2 | E2]; lia. }
  assert (Hm : (0 < measure_duration)%Q).
  { unfold measure_duration, beat_period.
    assert (0 < 60 / bpm az)%Q by (apply Qlt_shift_div_l; [exact Hbpm | lra]). lra. }
  destruct (walk_back_spec measure_duration lo
              (walk_fuel measure_duration lo tb) tb Hm
              (walk_fuel_enough measure_duration lo tb Hm))
    as (k & t & Hrun & Ht & Hlt & Hge).
  exists k, tb, t. split; [exact Hrange|]. split; [exact Htb|].
  split.
  { unfold _detect_downbeat_from_beat_strengths.
    destruct (length (beat_times az) <? 8)%nat eqn:E; [apply Nat.ltb_lt in E; lia|].
    rewrite Hphase, Hidx. unfold py_div.
    destruct (Qeq_bool (bpm az) 0) eqn:E0; qbool; [rewrite E0 in Hbpm; discriminate Hbpm|].
    fold beat_period. fold measure_duration. fold lo. rewrite Hrun. reflexivity. }
  split; [exact Ht|]. split; [|split; assumption].
  assert (0 <= inject_Z (Z.of_nat k) * measure_duration)%Q.
  { apply Qmult_le_0_compat; [|lra]. change 0%Q with (inject_Z 0). rewrite <- Zle_Qle. lia. }
  lra.
Qed.


(** An eight-beat excerpt at 120 BPM whose second and sixth beats carry the
    accents; [start] is the time of the first beat. *)
Definition accent_env : list Q :=
  map (fun i => if (i =? 21) || (i =? 107) then 10%Q else 1%Q) (py_range 152).

Definition eight_beats (start : Q) : AudioAnalyzer := {|
  sr := 22050; duration := 10; bpm := 120;
  beat_times := map (fun i => (start + inject_Z i * 0.5)%Q) (py_range 8);
  onset_times := []; onset_strengths := []; mel_spec := []; n_mels := 128;
  music_start := 0; first_downbeat := 0; rms := Some (repeat 1%Q 152) |}.

Lemma downbeat_walk_back_witness :
  let az := eight_beats 4.25 in
  let beat_period := (60 / bpm az)%Q in
  let measure_duration := (4 * beat_period)%Q in
  let lo := (music_start az - beat_period * 0.25)%Q in
  exists (k : nat) (phase_beat t : Q),
    0 <= 0 < 4 /\
    beat_times az !! Z.to_nat 0 = Some phase_beat /\
    _detect_downbeat_from_beat_strengths az (repeat 1%Q 400) (repeat 1%Q 400) = Returns t /\
    t == phase_beat - inject_Z (Z.of_nat k) * measure_duration /\
    (t <= phase_beat)%Q /\
    (t - measure_duration < lo)%Q /\
    ((0 < k)%nat -> (lo <= t)%Q).
Proof.
  apply (downbeat_walk_back (eight_beats 4.25) (repeat 1%Q 400) (repeat 1%Q 400) 0).
  - reflexivity.
  - simpl. lia.
  - vm_compute. reflexivity.
Defined.

(** C3 as stated fails.  On the excerpt starting at 0 s the accents put
    beat 1 of the bar on the second detected beat: the downbeat is 0.5 s,
    after the first beat at 0 s, and the distance between the two is a full
    beat away from every multiple of the 2 s measure. *)
Lemma downbeat_after_first_beat_counterexample :
  let az := eight_beats 0 in
  exists first_beat t,
    beat_times az !! 0%nat = Some first_beat /\
    _detect_downbeat_from_beat_strengths az accent_env (repeat 1%Q 152) = Returns t /\
    first_beat == 0 /\ t == 0.5 /\ ~ (t <= first_beat)%Q /\
    forall k : Z,
      (first_beat - t - inject_Z k * (4 * (60 / bpm az)) <= - 0.5)%Q \/
      (1.5 <= first_beat - t - inject_Z k * (4 * (60 / bpm az)))%Q.
Proof.
  do 2 eexists.
  split; [vm_compute; reflexivity|].
  split; [vm_compute; reflexivity|].
  split; [vm_compute; reflexivity|].
  split; [vm_compute; reflexivity|].
  split; [intros H; vm_compute in H; apply H; reflexivity|].
  intros k.
  assert (E : 4 * (60 / bpm (eight_beats 0)) == 2) by (vm_compute; reflexivity).
  rewrite E.
  assert (E0 : 0 + inject_Z 0 * 0.5 == 0) by (vm_compute; reflexivity).
  rewrite E0.
  destruct (Z_le_gt_dec 0 k) as [Hk | Hk].
  - left. rewrite Zle_Qle in Hk. change (inject_Z 0) with 0%Q in Hk. lra.
  - right. assert (Hk' : k <= -1) by lia. rewrite Zle_Qle in Hk'.
    change (inject_Z (-1)) with (-1)%Q in Hk'. lra.
Qed.


(** ** Reasoning about generator computations *)

Section GeneratorProofs.
Context {G : PRNG}.

Lemma M_bind_Ok {A B} (m : M A) (f : A -> M B) (g g' : rng_state) (b : B) :
  (m ≫= f) g = Ok (b, g') -> exists a g1, m g = Ok (a, g1) /\ f a g1 = Ok (b, g').
Proof.
  unfold mbind, M_bind. destruct (m g) as [[a g1]|e]; [|discriminate].
  intros H. exists a, g1. split; [reflexivity | exact H].
Qed.

Lemma mret_Ok {A} (a b : A) (g g' : rng_state) :
  (mret a : M A) g = Ok (b, g') -> b = a /\ g' = g.
Proof. unfold mret, M_ret. intros [= <- <-]. split; reflexivity. Qed.

Lemma liftR_Ok {A} (r : result A) (a : A) (g g' : rng_state) :
  liftR r g = Ok (a, g') -> r = Ok a /\ g' = g.
Proof. unfold liftR. destruct r; [intros [= <- <-]; split; reflexivity | discriminate]. Qed.

Lemma py_index_elem {A} (l : list A) (i : Z) (x : A) : py_index l i = Ok x -> x ∈ l.
Proof.
  unfold py_index. destruct (_ && _); [|discriminate].
  destruct (l !! _) eqn:E; [|discriminate].
  intros [= <-]. eapply list_elem_of_lookup_2, E.
Qed.

Lemma choice_Ok {A} (seq : list A) (x : A) (g g' : rng_state) :
  choice seq g = Ok (x, g') -> x ∈ seq.
Proof.
  unfold choice. destruct seq as [|y seq]; [discriminate|].
  destruct (rng_randbelow _ g) as [k g1].
  destruct (py_index (y :: seq) k) eqn:E; [|discriminate].
  intros [= <- <-]. eapply py_index_elem, E.
Qed.

(** ** Rows *)

Definition lane_ok (v : Z) : Prop := v = 0 \/ v = 1.

(** Every lane is 0 or 1. *)
Definition row_wf (row : Row) : Prop :=
  lane_ok (lane0 row) /\ lane_ok (lane1 row) /\ lane_ok (lane2 row) /\ lane_ok (lane3 row).

Ltac row_cases :=
  repeat match goal with
  | r : Row |- _ => destruct r as [? ? ? ?]
  | H : row_wf _ |- _ => destruct H as ([?|?] & [?|?] & [?|?] & [?|?]); simpl in *; subst
  end.

Lemma zero_row_wf : row_wf zero_row.
Proof. repeat split; left; reflexivity. Qed.

Lemma row_set_one (row row' : Row) (i : Z) :
  row_wf row -> row_set row i 1 = Ok row' ->
  row_wf row' /\ row_sum row <= row_sum row' <= row_sum row + 1 /\ 1 <= row_sum row'.
Proof.
  intros Hwf. unfold row_set.
  repeat (destruct (_ =? _); [intros [= <-]; row_cases; unfold row_wf, lane_ok, row_sum; simpl; lia|]).
  discriminate.
Qed.

Lemma single_row_sum (row : Row) (i : Z) :
  row_set zero_row i 1 = Ok row -> row_wf row /\ row_sum row = 1.
Proof.
  intros H. destruct (row_set_one _ _ _ zero_row_wf H) as (Hwf & Hle & _).
  split; [exact Hwf|]. change (row_sum zero_row) with 0 in Hle. 
  destruct (row_set_one _ _ _ zero_row_wf H) as (_ & _ & H1). lia.
Qed.

Lemma row_any_pos_sum (row : Row) : row_wf row -> (row_any_pos row = true <-> row_sum row <> 0).
Proof. intros Hwf. row_cases; unfold row_any_pos, row_sum; simpl; split; (lia || congruence || reflexivity || discriminate). Qed.

Lemma arrows_of_single (row : Row) (a : Z) :
  row_wf row -> arrows_of row = [a] -> row_sum row = 1.
Proof. intros Hwf. row_cases; unfold arrows_of, row_sum; vm_compute; congruence. Qed.

(** What post-processing may do to one row: it stays well formed, an empty
    row stays empty, no row gets more than two lanes, and below level 5 a
    row with at most one lane keeps at most one. *)
Definition row_step (lvl : Z) (row row' : Row) : Prop :=
  row_wf row ->
  row_wf row' /\
  (row_sum row = 0 -> row_sum row' = 0) /\
  (row_sum row <= 2 -> row_sum row' <= 2) /\
  (lvl < 5 -> row_sum row <= 1 -> row_sum row' <= 1).

Lemma row_step_refl (lvl : Z) (row : Row) : row_step lvl row row.
Proof. intros Hwf. split; [exact Hwf|]. split; [|split]; auto. Qed.

Lemma row_step_trans (lvl : Z) (r1 r2 r3 : Row) :
  row_step lvl r1 r2 -> row_step lvl r2 r3 -> row_step lvl r1 r3.
Proof.
  intros H12 H23 Hwf. destruct (H12 Hwf) as (Hwf2 & A & B & C).
  destruct (H23 Hwf2) as (Hwf3 & A' & B' & C'). split; [exact Hwf3|]. split; [|split]; auto.
Qed.

Lemma row_step_clear (lvl : Z) (row : Row) : row_step lvl row zero_row.
Proof. intros Hwf. split; [apply zero_row_wf|]. unfold row_sum; simpl. split; [|split]; lia. Qed.

(** A row with a note may be rewritten to any single-lane row. *)
Lemma row_step_single (lvl : Z) (row row' : Row) :
  (row_wf row -> row_sum row <> 0) -> row_wf row' -> row_sum row' = 1 ->
  row_step lvl row row'.
Proof. intros Hne Hwf' Hsum Hwf. specialize (Hne Hwf). split; [exact Hwf'|]. split; [|split]; lia. Qed.


(** ** Post-processing, row by row *)

Definition measures_step (lvl : Z) : Measures -> Measures -> Prop :=
  Forall2 (Forall2 (row_step lvl)).

Lemma rows_step_refl (lvl : Z) (meas : list Row) : Forall2 (row_step lvl) meas meas.
Proof. apply Forall_Forall2_diag, Forall_forall. intros; apply row_step_refl. Qed.

Lemma measures_step_refl (lvl : Z) (measures : Measures) : measures_step lvl measures measures.
Proof. apply Forall_Forall2_diag, Forall_forall. intros; apply rows_step_refl. Qed.

Lemma rows_step_trans (lvl : Z) (l1 l2 l3 : list Row) :
  Forall2 (row_step lvl) l1 l2 -> Forall2 (row_step lvl) l2 l3 -> Forall2 (row_step lvl) l1 l3.
Proof.
  intros H12. revert l3. induction H12; intros l3 H23; inversion H23; subst; constructor.
  - eapply row_step_trans; eauto.
  - auto.
Qed.

Lemma measures_step_trans (lvl : Z) (m1 m2 m3 : Measures) :
  measures_step lvl m1 m2 -> measures_step lvl m2 m3 -> measures_step lvl m1 m3.
Proof.
  unfold measures_step. intros H12. revert m3.
  induction H12; intros m3 H23; inversion H23; subst; constructor.
  - eapply rows_step_trans; eauto.
  - auto.
Qed.

(** A loop over all rows relates the measures row by row when its body
    does. *)
Lemma for_rows_Forall2 {S} (R : Row -> Row -> Prop)
    (body : Z -> Z -> S -> Row -> M (Row * S)) :
  (forall m r s row g row' s' g',
      body m r s row g = Ok ((row', s'), g') -> R row row') ->
  forall meas m r s g meas' s' g',
    for_rows body m r s meas g = Ok ((meas', s'), g') -> Forall2 R meas meas'.
Proof.
  intros Hbody. induction meas as [|row rest IH]; intros m r s g meas' s' g' H; simpl in H.
  - apply mret_Ok in H as [[= -> ->] _]. constructor.
  - apply M_bind_Ok in H as ([row1 s1] & g1 & Hrow & H).
    apply M_bind_Ok in H as ([rest1 s2] & g2 & Hrest & H).
    apply mret_Ok in H as [[= -> ->] _].
    constructor; [eapply Hbody, Hrow | eapply IH, Hrest].
Qed.

Lemma for_measures_Forall2 {S} (R : Row -> Row -> Prop)
    (body : Z -> Z -> S -> Row -> M (Row * S)) :
  (forall m r s row g row' s' g',
      body m r s row g = Ok ((row', s'), g') -> R row row') ->
  forall measures m s g measures' s' g',
    for_measures body m s measures g = Ok ((measures', s'), g') ->
    Forall2 (Forall2 R) measures measures'.
Proof.
  intros Hbody. induction measures as [|meas rest IH]; intros m s g measures' s' g' H;
    simpl in H.
  - apply mret_Ok in H as [[= -> ->] _]. constructor.
  - apply M_bind_Ok in H as ([meas1 s1] & g1 & Hmeas & H).
    apply M_bind_Ok in H as ([rest1 s2] & g2 & Hrest & H).
    apply mret_Ok in H as [[= -> ->] _].
    constructor; [eapply for_rows_Forall2; eauto | eapply IH, Hrest].
Qed.

Lemma rule1_body_step (lvl : Z) az sd spr offset m r s row g row' s' g' :
  rule1_body az sd spr offset m r s row g = Ok ((row', s'), g') -> row_step lvl row row'.
Proof.
  unfold rule1_body. destruct (negb (row_any_pos row)).
  - intros H. apply mret_Ok in H as [[= -> _] _]. apply row_step_refl.
  - intros H. apply M_bind_Ok in H as (energy & g1 & _ & H).
    apply mret_Ok in H as [[= -> _] _].
    destruct (Qltb energy 0.08); [apply row_step_clear | apply row_step_refl].
Qed.

Lemma rule2_body_step (lvl : Z) m r s row g row' s' g' :
  rule2_body m r s row g = Ok ((row', s'), g') -> row_step lvl row row'.
Proof.
  unfold rule2_body. destruct (arrows_of row) as [|a [|b l]] eqn:E; intros H;
    apply mret_Ok in H as [[= -> _] _]; try apply row_step_refl.
  assert (Hne : row_wf row -> row_sum row <> 0).
  { intros Hwf. rewrite (arrows_of_single row a Hwf E). lia. }
  assert (Hone : forall x y z w : Z, mkRow x y z w = mkRow 0 0 1 0 \/ mkRow x y z w = mkRow 0 1 0 0 ->
                 row_step lvl row (mkRow x y z w)).
  { intros x y z w [-> | ->]; (apply row_step_single;
      [exact Hne | repeat split; (left; reflexivity) || (right; reflexivity) | reflexivity]). }
  destruct ((s =? 0) && (a =? 3)); [apply Hone; left; reflexivity|].
  destruct ((s =? 3) && (a =? 0)); [apply Hone; right; reflexivity|].
  apply row_step_refl.
Qed.

Lemma rule3_measure_step (lvl : Z) az sd spr offset m meas g meas' g' :
  5 <= lvl ->
  rule3_measure az sd spr offset m meas g = Ok (meas', g') ->
  Forall2 (row_step lvl) meas meas'.
Proof.
  intros Hlvl. unfold rule3_measure. destruct meas as [|row rest].
  { intros H. apply liftR_Ok in H as [H _]. discriminate. }
  destruct (row_any_pos row && (row_sum row =? 1)) eqn:Enote.
  2:{ intros H. apply mret_Ok in H as [-> _]. apply rows_step_refl. }
  intros H. apply M_bind_Ok in H as (energy & g1 & _ & H).
  destruct (Qltb 0.70 energy).
  2:{ apply mret_Ok in H as [-> _]. apply rows_step_refl. }
  apply M_bind_Ok in H as (x & g2 & _ & H).
  destruct (Qltb x 0.20).
  2:{ apply mret_Ok in H as [-> _]. apply rows_step_refl. }
  apply M_bind_Ok in H as (active & g3 & _ & H).
  apply M_bind_Ok in H as (partner & g4 & _ & H).
  apply M_bind_Ok in H as (row' & g5 & Hset & H).
  apply liftR_Ok in Hset as [Hset _].
  apply mret_Ok in H as [-> _].
  constructor; [|apply rows_step_refl].
  apply andb_true_iff in Enote as [_ Esum]. apply Z.eqb_eq in Esum.
  intros Hwf. destruct (row_set_one _ _ _ Hwf Hset) as (Hwf' & Hle & _).
  split; [exact Hwf'|]. split; [|split]; lia.
Qed.

Lemma rule3_step (lvl : Z) az sd spr offset measures : forall m g measures' g',
  5 <= lvl ->
  rule3 az sd spr offset m measures g = Ok (measures', g') ->
  measures_step lvl measures measures'.
Proof.
  induction measures as [|meas rest IH]; intros m g measures' g' Hlvl H; simpl in H.
  - apply mret_Ok in H as [-> _]. constructor.
  - apply M_bind_Ok in H as (meas1 & g1 & Hmeas & H).
    apply M_bind_Ok in H as (rest1 & g2 & Hrest & H).
    apply mret_Ok in H as [-> _].
    constructor; [eapply rule3_measure_step; eauto | eapply IH; eauto].
Qed.

Lemma rule5_body_step (lvl lv sd : Z) m r s row g row' s' g' :
  rule5_body lv sd m r s row g = Ok ((row', s'), g') -> row_step lvl row row'.
Proof.
  unfold rule5_body. destruct (2 <=? row_sum row) eqn:Ejump.
  2:{ intros H. apply mret_Ok in H as [[= -> _] _]. apply row_step_refl. }
  destruct ((m * sd + r - s <? 3) && (lv <? 9)).
  2:{ intros H. apply mret_Ok in H as [[= -> _] _]. apply row_step_refl. }
  intros H. apply M_bind_Ok in H as (keep & g1 & _ & H).
  apply M_bind_Ok in H as (row1 & g2 & Hset & H).
  apply liftR_Ok in Hset as [Hset _].
  apply mret_Ok in H as [[= -> _] _].
  destruct (single_row_sum _ _ Hset) as [Hwf Hsum].
  apply row_step_single; [intros _; lia | exact Hwf | exact Hsum].
Qed.


Lemma insert_step (lvl : Z) (flat : list Row) (j : nat) (r r' : Row) :
  flat !! j = Some r -> row_step lvl r r' ->
  Forall2 (row_step lvl) flat (<[j:=r']> flat).
Proof.
  intros Hj Hstep. rewrite <- (list_insert_id flat j r Hj) at 1.
  apply Forall2_insert; [apply rows_step_refl | exact Hstep].
Qed.

Lemma flat_get_Ok (flat : list Row) (i : nat) (row : Row) :
  flat_get flat i = Ok row -> flat !! i = Some row.
Proof. unfold flat_get. destruct (flat !! i); [intros [= ->]; reflexivity | discriminate]. Qed.

(** [_smooth_run] only rewrites rows that hold exactly one note. *)
Lemma smooth_from_step (lvl : Z) (pat : list Z) (start : nat) :
  forall (n i : nat) (flat flat1 : list Row),
    smooth_from pat start i n flat = Ok flat1 ->
    (forall (k : nat) row, (start + i <= k < start + i + n)%nat ->
                           flat !! k = Some row -> row_sum row = 1) ->
    Forall2 (row_step lvl) flat flat1.
Proof.
  induction n as [|n IH]; intros i flat flat1 H Hrun; simpl in H.
  - injection H as <-. apply rows_step_refl.
  - apply result_bind_Ok in H as (r0 & Hget & H). apply flat_get_Ok in Hget.
    apply result_bind_Ok in H as (arrow & _ & H).
    apply result_bind_Ok in H as (row & Hset & H).
    destruct (single_row_sum _ _ Hset) as [Hwf Hsum].
    eapply rows_step_trans.
    + apply (insert_step lvl flat (start + i) r0 row Hget).
      apply row_step_single; [|exact Hwf | exact Hsum].
      intros _. rewrite (Hrun (start + i)%nat r0); [lia | lia | exact Hget].
    + apply (IH (S i) _ _ H). intros k row' Hk Hrow'.
      rewrite list_lookup_insert_ne in Hrow' by lia.
      apply (Hrun k row'); [lia | exact Hrow'].
Qed.

Lemma smooth_run_step (lvl : Z) (flat flat1 : list Row) (start len : nat) g g' :
  _smooth_run flat start len g = Ok (flat1, g') ->
  (forall (k : nat) row, (start <= k < start + len)%nat ->
                         flat !! k = Some row -> row_sum row = 1) ->
  Forall2 (row_step lvl) flat flat1.
Proof.
  unfold _smooth_run. intros H Hrun.
  apply M_bind_Ok in H as (pat & g1 & _ & H). apply liftR_Ok in H as [H _].
  apply (smooth_from_step lvl pat start len 0 flat flat1 H).
  intros k row Hk. apply Hrun. lia.
Qed.

Lemma rule4_scan_step (lvl : Z) :
  forall (n i : nat) (run_start : option nat) (run_len : nat) (flat flat' : list Row) g g',
    rule4_scan n i run_start run_len flat g = Ok (flat', g') ->
    (run_len <= i)%nat ->
    run_start = (if (run_len =? 0)%nat then None else Some (i - run_len)%nat) ->
    (forall (k : nat) row, (i - run_len <= k < i)%nat ->
                           flat !! k = Some row -> row_sum row = 1) ->
    Forall2 (row_step lvl) flat flat'.
Proof.
  induction n as [|n IH]; intros i run_start run_len flat flat' g g' H Hle Hstart Hrun;
    cbn [rule4_scan] in H.
  - destruct (4 <=? run_len)%nat eqn:E4.
    + apply Nat.leb_le in E4.
      destruct (run_len =? 0)%nat eqn:E0; [apply Nat.eqb_eq in E0; lia|].
      subst run_start. change (default i (Some (i - run_len)%nat)) with (i - run_len)%nat in H.
      apply (smooth_run_step lvl _ _ _ _ _ _ H).
      intros k row Hk. apply Hrun. lia.
    + apply mret_Ok in H as [-> _]. apply rows_step_refl.
  - apply M_bind_Ok in H as (row & g1 & Hget & H).
    apply liftR_Ok in Hget as [Hget ->]. apply flat_get_Ok in Hget.
    destruct (row_any_pos row && (row_sum row =? 1)) eqn:Enote.
    + apply andb_true_iff in Enote as [_ Esum]. apply Z.eqb_eq in Esum.
      apply (IH _ _ _ _ _ _ _ H); [lia | |].
      * subst run_start. destruct run_len as [|rl]; cbn [Nat.eqb default]; f_equal; lia.
      * intros k row' Hk Hrow'.
        destruct (decide (k = i)) as [-> | Hki]; [congruence|].
        apply (Hrun k row'); [lia | exact Hrow'].
    + apply M_bind_Ok in H as (flat1 & g2 & Hsmooth & H).
      eapply rows_step_trans.
      * destruct (4 <=? run_len)%nat eqn:E4.
        -- apply Nat.leb_le in E4.
           destruct (run_len =? 0)%nat eqn:E0; [apply Nat.eqb_eq in E0; lia|].
           subst run_start. change (default i (Some (i - run_len)%nat)) with (i - run_len)%nat in Hsmooth.
           apply (smooth_run_step lvl _ _ _ _ _ _ Hsmooth).
           intros k row' Hk. apply Hrun. lia.
        -- apply mret_Ok in Hsmooth as [-> _]. apply rows_step_refl.
      * apply (IH _ _ _ _ _ _ _ H); [lia | reflexivity | intros; lia].
Qed.

Lemma regroup_Forall2 (R : Row -> Row -> Prop) (measures : Measures) :
  forall flat', Forall2 R (concat measures) flat' ->
                Forall2 (Forall2 R) measures (regroup (map length measures) flat').
Proof.
  induction measures as [|meas rest IH]; intros flat' H; simpl in *; [constructor|].
  apply Forall2_app_inv_l in H as (l1 & l2 & H1 & H2 & ->).
  pose proof (Forall2_length _ _ _ H1) as Hlen.
  rewrite Hlen, take_app_length, drop_app_length.
  constructor; [exact H1 | apply IH, H2].
Qed.

Lemma rule4_step (lvl : Z) (measures measures' : Measures) g g' :
  rule4 measures g = Ok (measures', g') -> measures_step lvl measures measures'.
Proof.
  unfold rule4. intros H. apply M_bind_Ok in H as (flat' & g1 & Hscan & H).
  apply mret_Ok in H as [-> _]. apply regroup_Forall2.
  apply (rule4_scan_step lvl _ _ _ _ _ _ _ _ Hscan); [lia | reflexivity | intros; lia].
Qed.

(** The whole of [_postprocess] acts row by row within [row_step]. *)
Lemma postprocess_step (az : AudioAnalyzer) (measures measures' : Measures) (sd : Z)
    (cfg : Config) g g' :
  _postprocess az measures sd cfg g = Ok (measures', g') ->
  measures_step (level cfg) measures measures'.
Proof.
  unfold _postprocess. intros H.
  apply M_bind_Ok in H as (spm & g1 & _ & H).
  apply M_bind_Ok in H as (spr & g2 & _ & H).
  apply M_bind_Ok in H as ([m1 u] & g3 & H1 & H).
  apply M_bind_Ok in H as (m2 & g4 & H2 & H).
  apply M_bind_Ok in H as (m3 & g5 & H3 & H).
  apply M_bind_Ok in H as (m4 & g6 & H4 & H).
  unfold rule5 in H. apply M_bind_Ok in H as ([m5 last] & g7 & H5 & H).
  apply mret_Ok in H as [-> _].
  eapply measures_step_trans.
  { eapply for_measures_Forall2; [|exact H1]. intros; eapply rule1_body_step; eauto. }
  eapply measures_step_trans.
  { destruct (level cfg <=? 6).
    - apply M_bind_Ok in H2 as ([m2' pa] & g8 & H2 & Hret).
      apply mret_Ok in Hret as [-> _].
      eapply for_measures_Forall2; [|exact H2]. intros; eapply rule2_body_step; eauto.
    - apply mret_Ok in H2 as [-> _]. apply measures_step_refl. }
  eapply measures_step_trans.
  { destruct (5 <=? level cfg) eqn:E5.
    - apply Z.leb_le in E5. eapply rule3_step; eauto.
    - apply mret_Ok in H3 as [-> _]. apply measures_step_refl. }
  eapply measures_step_trans.
  { destruct (8 <=? level cfg).
    - eapply rule4_step; eauto.
    - apply mret_Ok in H4 as [-> _]. apply measures_step_refl. }
  eapply for_measures_Forall2; [|exact H5]. intros; eapply rule5_body_step; eauto.
Qed.


(** ** Building the measures *)

(** What arrow assignment produces: one lane, or two when the jump branch
    is taken, which needs a non-zero [jump_prob]. *)
Definition built_ok (cfg : Config) (row : Row) : Prop :=
  row_wf row /\ row_sum row <= 2 /\ (jump_prob cfg == 0 -> row_sum row <= 1).

Lemma pick_arrow_spec (az : AudioAnalyzer) (t : Q) (prev : list Z) (cfg : Config)
    (row : Row) (arrow : Z) g g' :
  _pick_arrow az t prev cfg g = Ok ((row, arrow), g') ->
  built_ok cfg row /\ 1 <= row_sum row.
Proof.
  unfold _pick_arrow. intros H.
  apply M_bind_Ok in H as (band & g1 & _ & H).
  apply M_bind_Ok in H as (x & g2 & _ & H).
  apply M_bind_Ok in H as (a1 & g3 & _ & H).
  apply M_bind_Ok in H as (a2 & g4 & _ & H).
  apply M_bind_Ok in H as (a3 & g5 & _ & H).
  apply M_bind_Ok in H as (row1 & g6 & Hset & H).
  apply liftR_Ok in Hset as [Hset _].
  destruct (single_row_sum _ _ Hset) as [Hwf1 Hsum1].
  apply M_bind_Ok in H as (row2 & g7 & Hjump & H).
  apply mret_Ok in H as [[= -> ->] _].
  destruct (Qeq_bool (jump_prob cfg) 0) eqn:Ejp; simpl in Hjump.
  - apply mret_Ok in Hjump as [-> _]. unfold built_ok. repeat split; try apply Hwf1; lia.
  - qbool. apply M_bind_Ok in Hjump as (y & g8 & _ & Hjump).
    destruct (Qltb y (jump_prob cfg)).
    + apply M_bind_Ok in Hjump as (k & g9 & _ & Hjump).
      apply liftR_Ok in Hjump as [Hset2 _].
      destruct (row_set_one _ _ _ Hwf1 Hset2) as (Hwf2 & Hle & Hge).
      unfold built_ok. repeat split; try apply Hwf2; try lia. intros E; contradiction.
    + apply mret_Ok in Hjump as [-> _].
      unfold built_ok. repeat split; try apply Hwf1; lia.
Qed.

Lemma zero_row_built (cfg : Config) : built_ok cfg zero_row.
Proof. split; [apply zero_row_wf|]. unfold row_sum; simpl. split; intros; lia. Qed.

(** The row built at grid index [gi]. *)
Definition built_at (cfg : Config) (note_grid : gset Z) (gi : Z) (row : Row) : Prop :=
  built_ok cfg row /\ (row_sum row <> 0 -> gi ∈ note_grid).

Lemma build_rows_spec az cfg offset spr note_grid m : forall rs prev mrows prev' g g',
  build_rows az cfg offset spr note_grid m rs prev g = Ok ((mrows, prev'), g') ->
  Forall2 (fun r row => built_at cfg note_grid (m * subdiv cfg + r) row) rs mrows.
Proof.
  induction rs as [|r rs IH]; intros prev mrows prev' g g' H; simpl in H.
  - apply mret_Ok in H as [[= -> _] _]. constructor.
  - destruct (bool_decide (m * subdiv cfg + r ∈ note_grid) && _ && _) eqn:E.
    + apply M_bind_Ok in H as ([row arrow] & g1 & Hpick & H).
      apply M_bind_Ok in H as ([rows1 prev1] & g2 & Hrest & H).
      apply mret_Ok in H as [[= -> _] _].
      apply andb_true_iff in E as [E _]. apply andb_true_iff in E as [E _].
      apply bool_decide_eq_true in E.
      constructor; [|eapply IH, Hrest].
      split; [eapply pick_arrow_spec, Hpick | intros _; exact E].
    + apply M_bind_Ok in H as ([rows1 prev1] & g2 & Hrest & H).
      apply mret_Ok in H as [[= -> _] _].
      constructor; [|eapply IH, Hrest].
      split; [apply zero_row_built|]. unfold row_sum; simpl. lia.
Qed.

(** The grid indices in the order in which the two loops visit them. *)
Definition grid_indices (sd : Z) (ms : list Z) : list Z :=
  concat (map (fun m => map (fun r => m * sd + r) (py_range sd)) ms).

Lemma build_measures_spec az cfg offset spr note_grid : forall ms prev measures g g',
  build_measures az cfg offset spr note_grid ms prev g = Ok (measures, g') ->
  Forall2 (built_at cfg note_grid) (grid_indices (subdiv cfg) ms) (concat measures) /\
  Forall (fun meas => length meas = length (py_range (subdiv cfg))) measures.
Proof.
  induction ms as [|m ms IH]; intros prev measures g g' H; simpl in H.
  - apply mret_Ok in H as [-> _]. split; constructor.
  - apply M_bind_Ok in H as ([mrows prev1] & g1 & Hrows & H).
    apply M_bind_Ok in H as (rest & g2 & Hrest & H).
    apply mret_Ok in H as [-> _].
    apply build_rows_spec in Hrows. destruct (IH _ _ _ _ Hrest) as [IH1 IH2].
    split.
    + unfold grid_indices. simpl. apply Forall2_app; [|exact IH1].
      apply Forall2_fmap_l. exact Hrows.
    + constructor; [|exact IH2]. symmetry. eapply Forall2_length, Hrows.
Qed.

Lemma map_seq_from {A} (f : nat -> A) (k : nat) : forall b : nat,
  map f (seq b k) = map (fun j => f (b + j)%nat) (seq 0 k).
Proof.
  induction k as [|k IH]; intros b; [reflexivity|].
  simpl. rewrite Nat.add_0_r. f_equal.
  rewrite (IH (S b)), <- seq_shift, map_map. apply map_ext. intros j. f_equal. lia.
Qed.

Lemma py_range_shift (sd : Z) (a : nat) :
  0 < sd ->
  map (fun r => Z.of_nat a * sd + r) (py_range sd) =
  map Z.of_nat (seq (a * Z.to_nat sd) (Z.to_nat sd)).
Proof.
  intros Hsd. unfold py_range. rewrite (map_seq_from Z.of_nat _ (a * Z.to_nat sd)).
  rewrite map_map. apply map_ext. intros j. lia.
Qed.

Lemma grid_indices_seq (sd : Z) (n : nat) : forall a : nat,
  0 < sd ->
  grid_indices sd (map Z.of_nat (seq a n)) =
  map Z.of_nat (seq (a * Z.to_nat sd) (n * Z.to_nat sd)).
Proof.
  induction n as [|n IH]; intros a Hsd; [reflexivity|].
  unfold grid_indices in *. simpl. rewrite (IH (S a) Hsd), (py_range_shift sd a Hsd).
  rewrite <- map_app. f_equal. rewrite seq_app. f_equal. f_equal. lia.
Qed.

Lemma grid_indices_NoDup (sd n_meas : Z) : NoDup (grid_indices sd (py_range n_meas)).
Proof.
  destruct (Z_lt_le_dec 0 sd) as [Hsd | Hsd].
  - unfold py_range at 1. rewrite (grid_indices_seq sd _ 0 Hsd).
    apply (NoDup_fmap_2 Z.of_nat), NoDup_seq.
  - unfold grid_indices. replace (py_range sd) with (@nil Z).
    + induction (py_range n_meas); simpl; [constructor | assumption].
    + unfold py_range. replace (Z.to_nat sd) with 0%nat by lia. reflexivity.
Qed.


(** ** Counting notes *)

Lemma length_members (X : gset Z) (l : list Z) :
  NoDup l -> (forall x, x ∈ l -> x ∈ X) -> (length l <= size X)%nat.
Proof.
  intros Hnd Hin. unfold size, set_size. simpl.
  apply submseteq_length, NoDup_submseteq; [exact Hnd|].
  intros x Hx. apply elem_of_elements, Hin, Hx.
Qed.

Lemma size_list_to_set_le (l : list Z) : (size (list_to_set l : gset Z) <= length l)%nat.
Proof.
  unfold size, set_size. simpl.
  apply submseteq_length, NoDup_submseteq; [apply NoDup_elements|].
  intros x Hx. apply elem_of_elements, elem_of_list_to_set in Hx. exact Hx.
Qed.

Definition active_rows (rows : list Row) : list Row :=
  filter (fun r => row_any_pos r = true) rows.

Lemma count_notes_active (measures : Measures) :
  count_notes measures = Z.of_nat (length (active_rows (concat measures))).
Proof. reflexivity. Qed.

Lemma active_rows_app (l1 l2 : list Row) :
  active_rows (l1 ++ l2) = active_rows l1 ++ active_rows l2.
Proof. apply filter_app. Qed.

Lemma active_built (cfg : Config) (X : gset Z) (gis : list Z) (rows : list Row) :
  Forall2 (built_at cfg X) gis rows ->
  (length (active_rows rows) <= length (filter (fun gi => gi ∈ X) gis))%nat.
Proof.
  unfold active_rows. induction 1 as [|gi row gis rows [[Hwf _] Hin] _ IH]; [reflexivity|].
  rewrite !filter_cons.
  destruct (decide (row_any_pos row = true)) as [Hact | Hact].
  - apply (row_any_pos_sum row Hwf) in Hact.
    destruct (decide (gi ∈ X)) as [_ | Hout]; [simpl; lia | exfalso; auto].
  - destruct (decide (gi ∈ X)); simpl; lia.
Qed.

Lemma count_built (cfg : Config) (X : gset Z) (gis : list Z) (rows : list Row) :
  NoDup gis -> Forall2 (built_at cfg X) gis rows ->
  (length (active_rows rows) <= size X)%nat.
Proof.
  intros Hnd Hbuilt. etransitivity; [eapply active_built, Hbuilt|].
  apply length_members; [apply NoDup_filter, Hnd|].
  intros x Hx. apply list_elem_of_filter in Hx as [Hx _]. exact Hx.
Qed.

(** Post-processing does not put a note on an empty row. *)
Lemma active_rows_step (lvl : Z) (rows rows' : list Row) :
  Forall2 (row_step lvl) rows rows' -> Forall row_wf rows ->
  (length (active_rows rows') <= length (active_rows rows))%nat.
Proof.
  unfold active_rows. induction 1 as [|r r' rows rows' Hstep _ IH]; intros Hwf; [reflexivity|].
  apply Forall_cons in Hwf as [Hr Hrows]. specialize (IH Hrows).
  destruct (Hstep Hr) as (Hr' & Hzero & _).
  rewrite !filter_cons.
  destruct (decide (row_any_pos r' = true)) as [Hact | Hact].
  - apply (row_any_pos_sum r' Hr') in Hact.
    destruct (decide (row_any_pos r = true)) as [_ | Hin]; [simpl; lia|].
    exfalso. apply Hact, Hzero.
    destruct (Z.eq_dec (row_sum r) 0) as [E | E]; [exact E|].
    apply (row_any_pos_sum r Hr) in E. contradiction.
  - destruct (decide (row_any_pos r = true)); simpl; lia.
Qed.

Lemma concat_step (lvl : Z) (measures measures' : Measures) :
  measures_step lvl measures measures' ->
  Forall2 (row_step lvl) (concat measures) (concat measures').
Proof.
  unfold measures_step. induction 1; simpl; [constructor|]. apply Forall2_app; assumption.
Qed.

Lemma rows_step_Forall (lvl : Z) (P : Row -> Prop) (rows rows' : list Row) :
  (forall r r', row_step lvl r r' -> row_wf r /\ P r -> row_wf r' /\ P r') ->
  Forall2 (row_step lvl) rows rows' ->
  Forall (fun r => row_wf r /\ P r) rows -> Forall (fun r => row_wf r /\ P r) rows'.
Proof.
  intros HP. induction 1 as [|r r' rows rows' Hstep _ IH]; intros Hall; [constructor|].
  apply Forall_cons in Hall as [Hr Hrows]. constructor; [eapply HP; eauto | auto].
Qed.

(** Trimming keeps a prefix of the measures. *)
Lemma pop_empty_suffix (rev_measures : Measures) :
  exists popped, rev_measures = popped ++ pop_empty rev_measures.
Proof.
  induction rev_measures as [|meas rest IH]; [exists []; reflexivity|].
  simpl. destruct rest as [|meas2 rest2]; [exists []; reflexivity|].
  destruct (measure_empty meas); [|exists []; reflexivity].
  destruct IH as [popped IH]. exists (meas :: popped). simpl. f_equal. exact IH.
Qed.

Lemma trim_trailing_prefix (measures : Measures) :
  exists tail, measures = trim_trailing measures ++ tail.
Proof.
  unfold trim_trailing. destruct (pop_empty_suffix (rev measures)) as [popped H].
  exists (rev popped). rewrite <- rev_app_distr, <- H, rev_involutive. reflexivity.
Qed.

Lemma count_notes_trim (measures : Measures) :
  count_notes (trim_trailing measures) <= count_notes measures.
Proof.
  destruct (trim_trailing_prefix measures) as [tail H].
  rewrite H at 2. rewrite !count_notes_active, concat_app, active_rows_app, length_app. lia.
Qed.

(** ** The density cap *)

Lemma map_result_length {A B} (f : A -> result B) (l : list A) : forall l',
  map_result f l = Ok l' -> length l' = length l.
Proof.
  induction l as [|x l IH]; intros l' H; simpl in H.
  - injection H as <-. reflexivity.
  - apply result_bind_Ok in H as (y & _ & H). apply result_bind_Ok in H as (ys & Hys & H).
    injection H as <-. simpl. f_equal. apply IH, Hys.
Qed.

Lemma py_range_length (n : Z) : Z.of_nat (length (py_range n)) = Z.max 0 n.
Proof. unfold py_range. rewrite length_map, length_seq. lia. Qed.

Lemma density_cap_size (max_notes : Z) (X X' : gset Z) :
  0 <= max_notes -> density_cap max_notes X = Ok X' -> Z.of_nat (size X') <= max_notes.
Proof.
  intros Hmx. unfold density_cap.
  destruct (max_notes <? Z.of_nat (size X)) eqn:E.
  - intros H. apply result_bind_Ok in H as (step & _ & H).
    apply result_bind_Ok in H as (picked & Hpicked & H). injection H as <-.
    apply map_result_length in Hpicked.
    pose proof (size_list_to_set_le picked). pose proof (py_range_length max_notes). lia.
  - intros [= <-]. lia.
Qed.


Lemma py_int_floor (x : Q) : (0 <= x)%Q -> py_int x = Qfloor x.
Proof.
  destruct x as [n d]. unfold py_int, Qfloor, Qle. simpl. intros H.
  apply Z.quot_div_nonneg; lia.
Qed.

Lemma Qfloor_lt_step (x y : Q) : (x + 1 <= y)%Q -> Qfloor x < Qfloor y.
Proof.
  intros H. pose proof (Qfloor_le x) as Hx. pose proof (Qlt_floor y) as Hy.
  assert (Hlt : (inject_Z (Qfloor x + 1) < inject_Z (Qfloor y + 1))%Q).
  { rewrite inject_Z_plus. change (inject_Z 1) with 1%Q. lra. }
  rewrite <- Zlt_Qlt in Hlt. lia.
Qed.

Lemma map_result_Ok {A B} (f : A -> result B) (g : A -> B) (l : list A) :
  (forall x, x ∈ l -> f x = Ok (g x)) -> map_result f l = Ok (map g l).
Proof.
  induction l as [|x l IH]; intros H; [reflexivity|].
  simpl. rewrite (H x) by left. simpl. rewrite IH; [reflexivity|].
  intros y Hy. apply H. right. exact Hy.
Qed.

Lemma py_index_nth (l : list Z) (j : Z) :
  0 <= j < Z.of_nat (length l) -> py_index l j = Ok (nth (Z.to_nat j) l 0).
Proof.
  intros Hj. unfold py_index.
  destruct (j <? 0) eqn:E; [lia|].
  destruct ((0 <=? j) && (j <? Z.of_nat (length l))) eqn:E2.
  - destruct (nth_lookup_or_length l (Z.to_nat j) 0) as [-> | Hlen]; [reflexivity | lia].
  - apply andb_false_iff in E2 as [E2 | E2]; lia.
Qed.

(** The index [int(i * step)] of the even stride. *)
Definition stride_index (n m i : Z) : Z :=
  py_int (inject_Z i * (inject_Z n / inject_Z m)).

Lemma stride_index_floor (n m i : Z) :
  0 < m -> 0 <= n -> 0 <= i ->
  stride_index n m i = Qfloor (inject_Z i * (inject_Z n / inject_Z m)).
Proof.
  intros Hm Hn Hi. apply py_int_floor.
  apply Qmult_le_0_compat.
  - change 0%Q with (inject_Z 0). rewrite <- Zle_Qle. exact Hi.
  - apply Qle_shift_div_l.
    + change 0%Q with (inject_Z 0). rewrite <- Zlt_Qlt. exact Hm.
    + rewrite Qmult_0_l. change 0%Q with (inject_Z 0). rewrite <- Zle_Qle. exact Hn.
Qed.

Lemma stride_index_range (n m i : Z) :
  0 < m < n -> 0 <= i < m -> 0 <= stride_index n m i < n.
Proof.
  intros [Hm Hn] [Hi Him]. rewrite stride_index_floor by lia.
  assert (Hm' : (0 < inject_Z m)%Q).
  { change 0%Q with (inject_Z 0). rewrite <- Zlt_Qlt. exact Hm. }
  set (x := (inject_Z i * (inject_Z n / inject_Z m))%Q).
  assert (Hx0 : (inject_Z 0 <= x)%Q).
  { unfold x. apply Qmult_le_0_compat.
    - change 0%Q with (inject_Z 0). rewrite <- Zle_Qle. exact Hi.
    - apply Qle_shift_div_l; [exact Hm'|]. rewrite Qmult_0_l.
      change 0%Q with (inject_Z 0). rewrite <- Zle_Qle. lia. }
  assert (Hxn : (x <= inject_Z (n - 1))%Q).
  { unfold x. unfold Qdiv. rewrite Qmult_assoc. apply Qle_shift_div_r; [exact Hm'|].
    rewrite <- !inject_Z_mult, <- Zle_Qle. nia. }
  apply Qfloor_resp_le in Hx0, Hxn. rewrite Qfloor_Z in Hx0, Hxn. lia.
Qed.

Lemma stride_index_mono (n m i i' : Z) :
  0 < m < n -> 0 <= i < i' -> stride_index n m i < stride_index n m i'.
Proof.
  intros [Hm Hn] [Hi Hii']. rewrite !stride_index_floor by lia.
  apply Qfloor_lt_step.
  assert (Hm' : (0 < inject_Z m)%Q).
  { change 0%Q with (inject_Z 0). rewrite <- Zlt_Qlt. exact Hm. }
  assert (Hstep : (1 <= inject_Z n / inject_Z m)%Q).
  { apply Qle_shift_div_l; [exact Hm'|]. rewrite Qmult_1_l, <- Zle_Qle. lia. }
  assert (Hi1 : (inject_Z i + 1 <= inject_Z i')%Q).
  { change 1%Q with (inject_Z 1). rewrite <- inject_Z_plus, <- Zle_Qle. lia. }
  assert (H0 : (0 <= inject_Z i)%Q).
  { change 0%Q with (inject_Z 0). rewrite <- Zle_Qle. exact Hi. }
  set (s := (inject_Z n / inject_Z m)%Q) in *.
  assert ((inject_Z i + 1) * s <= inject_Z i' * s)%Q.
  { apply Qmult_le_compat_r; [exact Hi1 | lra]. }
  lra.
Qed.


Lemma elem_of_py_range (n x : Z) : x ∈ py_range n <-> 0 <= x < n.
Proof.
  unfold py_range. rewrite list_elem_of_In, in_map_iff. split.
  - intros (k & <- & Hk). apply in_seq in Hk. lia.
  - intros Hx. exists (Z.to_nat x). split; [lia|]. apply in_seq. lia.
Qed.

Lemma py_range_NoDup (n : Z) : NoDup (py_range n).
Proof. unfold py_range. apply (NoDup_fmap_2 Z.of_nat), NoDup_seq. Qed.

(** When the eligible rows exceed a positive cap, the cap leaves exactly
    [max_notes] of them. *)
Lemma density_cap_exact (max_notes : Z) (X : gset Z) :
  0 < max_notes < Z.of_nat (size X) ->
  exists X', density_cap max_notes X = Ok X' /\
             Z.of_nat (size X') = max_notes /\ X' ⊆ X.
Proof.
  intros [Hpos Hlt]. unfold density_cap.
  destruct (max_notes <? Z.of_nat (size X)) eqn:E; [|lia].
  set (lst := merge_sort Z.le (elements X)).
  assert (Hperm : lst ≡ₚ elements X) by apply merge_sort_Permutation.
  assert (Hlen : length lst = size X) by (rewrite Hperm; reflexivity).
  assert (Hnd : NoDup lst) by (rewrite Hperm; apply NoDup_elements).
  unfold py_div.
  destruct (Qeq_bool (inject_Z max_notes) 0) eqn:E0.
  { qbool. unfold Qeq in E0. simpl in E0. lia. }
  cbn [mbind result_bind].
  set (n := Z.of_nat (length lst)).
  assert (Hn : n = Z.of_nat (length lst)) by reflexivity.
  rewrite (map_result_Ok _ (fun i => nth (Z.to_nat (stride_index n max_notes i)) lst 0)).
  2:{ intros i Hi. apply elem_of_py_range in Hi.
      apply py_index_nth. apply stride_index_range; lia. }
  cbn [mbind result_bind].
  set (picked := map _ (py_range max_notes)).
  assert (Hpicked : NoDup picked).
  { apply NoDup_fmap_2_strong; [|apply py_range_NoDup].
    intros i i' Hi Hi' Heq.
    apply elem_of_py_range in Hi, Hi'.
    pose proof (stride_index_range n max_notes i ltac:(lia) Hi) as Hj.
    pose proof (stride_index_range n max_notes i' ltac:(lia) Hi') as Hj'.
    assert (Hsame : Z.to_nat (stride_index n max_notes i) =
                    Z.to_nat (stride_index n max_notes i')).
    { destruct (nth_lookup_or_length lst (Z.to_nat (stride_index n max_notes i)) 0)
        as [H1 | H1]; [|lia].
      destruct (nth_lookup_or_length lst (Z.to_nat (stride_index n max_notes i')) 0)
        as [H2 | H2]; [|lia].
      rewrite <- Heq in H2. eapply NoDup_lookup; eauto. }
    destruct (Z.lt_trichotomy i i') as [Hlt' | [Heq' | Hgt']]; [|exact Heq'|].
    - pose proof (stride_index_mono n max_notes i i' ltac:(lia) ltac:(lia)). lia.
    - pose proof (stride_index_mono n max_notes i' i ltac:(lia) ltac:(lia)). lia. }
  eexists. split; [reflexivity|]. split.
  - rewrite (size_list_to_set picked Hpicked). unfold picked.
    rewrite length_map. pose proof (py_range_length max_notes). lia.
  - intros x Hx. apply elem_of_list_to_set in Hx.
    unfold picked in Hx. apply list_elem_of_In, in_map_iff in Hx as (i & <- & Hi).
    apply list_elem_of_In, elem_of_py_range in Hi.
    pose proof (stride_index_range n max_notes i ltac:(lia) Hi) as Hj.
    destruct (nth_lookup_or_length lst (Z.to_nat (stride_index n max_notes i)) 0)
      as [H1 | H1]; [|lia].
    apply list_elem_of_lookup_2 in H1.
    apply elem_of_elements. revert H1. generalize (nth (Z.to_nat (stride_index n max_notes i)) lst 0).
    intros y Hy. rewrite <- Hperm. exact Hy.
Qed.


(** ** Generated charts (C1, C6, C10) *)

Lemma generate_chart_with_inv (az : AudioAnalyzer) (name : string) (cfg : Config)
    (chart : Chart) g g' :
  generate_chart_with az name cfg g = Ok (chart, g') ->
  exists spr beats note_grid n_meas built processed,
    density_cap (max_notes_of az cfg)
                (eligible_rows az cfg (first_downbeat az) spr beats) = Ok note_grid /\
    Forall2 (built_at cfg note_grid)
            (grid_indices (subdiv cfg) (py_range n_meas)) (concat built) /\
    measures_step (level cfg) built processed /\
    chart = {| chart_difficulty := name; chart_level := level cfg;
               chart_subdiv := subdiv cfg;
               chart_measures := trim_trailing processed;
               chart_note_count := count_notes (trim_trailing processed) |}.
Proof.
  unfold generate_chart_with. intros H.
  apply M_bind_Ok in H as (spm & g1 & _ & H).
  apply M_bind_Ok in H as (spr & g2 & _ & H).
  apply M_bind_Ok in H as (x & g3 & _ & H).
  apply M_bind_Ok in H as (beats & g4 & _ & H).
  apply M_bind_Ok in H as (note_grid & g5 & Hcap & H).
  apply liftR_Ok in Hcap as [Hcap _].
  apply M_bind_Ok in H as (built & g6 & Hbuilt & H).
  apply M_bind_Ok in H as (processed & g7 & Hpost & H).
  apply mret_Ok in H as [-> _].
  exists spr, beats, note_grid, (Qceiling x + 1), built, processed.
  split; [exact Hcap|].
  split; [eapply build_measures_spec, Hbuilt|].
  split; [eapply postprocess_step, Hpost | reflexivity].
Qed.

Lemma built_rows_wf (cfg : Config) (X : gset Z) (gis : list Z) (rows : list Row) :
  Forall2 (built_at cfg X) gis rows -> Forall (built_ok cfg) rows.
Proof. induction 1 as [|gi row gis rows [Hok _] _ IH]; constructor; assumption. Qed.

(** The rows of a chart, as built and as they end up. *)
Lemma chart_rows (az : AudioAnalyzer) (name : string) (cfg : Config) (chart : Chart) g g' :
  generate_chart_with az name cfg g = Ok (chart, g') ->
  Forall (fun r => row_wf r /\ row_sum r <= 2) (concat (chart_measures chart)) /\
  (level cfg < 5 -> jump_prob cfg == 0 ->
   Forall (fun r => row_wf r /\ row_sum r <= 1) (concat (chart_measures chart))).
Proof.
  intros H.
  apply generate_chart_with_inv in H
    as (spr & beats & note_grid & n_meas & built & processed & _ & Hbuilt & Hstep & ->).
  cbn [chart_measures].
  apply built_rows_wf in Hbuilt. apply concat_step in Hstep.
  destruct (trim_trailing_prefix processed) as [tail Htail].
  rewrite Htail, concat_app in Hstep.
  split.
  - assert (Hall : Forall (fun r => row_wf r /\ row_sum r <= 2)
                          (concat (trim_trailing processed) ++ concat tail)).
    { eapply (rows_step_Forall (level cfg) (fun r => row_sum r <= 2)); [|exact Hstep|].
      - intros r r' Hrr' [Hwf Hsum]. destruct (Hrr' Hwf) as (Hwf' & _ & H2 & _). auto.
      - eapply Forall_impl; [exact Hbuilt|]. intros r (Hwf & Hsum & _). auto. }
    apply Forall_app in Hall as [Hall _]. exact Hall.
  - intros Hlvl Hjp.
    assert (Hall : Forall (fun r => row_wf r /\ row_sum r <= 1)
                          (concat (trim_trailing processed) ++ concat tail)).
    { eapply (rows_step_Forall (level cfg) (fun r => row_sum r <= 1)); [|exact Hstep|].
      - intros r r' Hrr' [Hwf Hsum]. destruct (Hrr' Hwf) as (Hwf' & _ & _ & H1). auto.
      - eapply Forall_impl; [exact Hbuilt|]. intros r (Hwf & _ & Hsum). auto. }
    apply Forall_app in Hall as [Hall _]. exact Hall.
Qed.

Lemma arrows_count (row : Row) :
  row_wf row -> Z.of_nat (length (arrows_of row)) = row_sum row.
Proof. intros Hwf. row_cases; reflexivity. Qed.

Lemma config_of_max_nps (name : string) (cfg : Config) :
  config_of name = Ok cfg -> (0 <= max_nps cfg)%Q.
Proof.
  unfold config_of, CONFIGS. simpl.
  repeat (destruct (String.eqb name _); [intros [= <-]; simpl; discriminate|]).
  discriminate.
Qed.

Lemma generate_chart_inv (az : AudioAnalyzer) (name : string) (chart : Chart) g g' :
  generate_chart az name g = Ok (chart, g') ->
  exists cfg, config_of name = Ok cfg /\ generate_chart_with az name cfg g = Ok (chart, g').
Proof.
  unfold generate_chart. intros H. apply M_bind_Ok in H as (cfg & g1 & Hcfg & H).
  apply liftR_Ok in Hcfg as [Hcfg ->]. exists cfg. split; assumption.
Qed.

(** C1.  The note count of a generated chart is the number of its rows
    with an active lane, and it is at most [int(duration * max_nps)].  When
    more rows than that are eligible (and the cap is positive), the density
    cap keeps exactly [int(duration * max_nps)] of them. *)
Theorem note_count_within_cap (az : AudioAnalyzer) (name : string) (cfg : Config)
    (chart : Chart) g g' :
  (0 <= duration az)%Q ->
  config_of name = Ok cfg ->
  generate_chart az name g = Ok (chart, g') ->
  chart_note_count chart =
    Z.of_nat (length (active_rows (concat (chart_measures chart)))) /\
  chart_note_count chart <= py_int (duration az * max_nps cfg) /\
  (forall eligible : gset Z,
      0 < py_int (duration az * max_nps cfg) < Z.of_nat (size eligible) ->
      exists note_grid,
        density_cap (py_int (duration az * max_nps cfg)) eligible = Ok note_grid /\
        Z.of_nat (size note_grid) = py_int (duration az * max_nps cfg) /\
        note_grid ⊆ eligible).
Proof.
  intros Hdur Hcfg H.
  apply generate_chart_inv in H as (cfg' & Hcfg' & H).
  rewrite Hcfg in Hcfg'. injection Hcfg' as <-.
  pose proof (config_of_max_nps _ _ Hcfg) as Hnps.
  assert (Hmax : 0 <= py_int (duration az * max_nps cfg)).
  { rewrite py_int_floor by (apply Qmult_le_0_compat; assumption).
    rewrite <- (Qfloor_Z 0). apply Qfloor_resp_le, Qmult_le_0_compat; assumption. }
  apply generate_chart_with_inv in H
    as (spr & beats & note_grid & n_meas & built & processed & Hcap & Hbuilt & Hstep & ->).
  cbn [chart_note_count chart_measures].
  split; [apply count_notes_active|].
  split; [|intros eligible; apply density_cap_exact].
  apply density_cap_size in Hcap; [|exact Hmax]. unfold max_notes_of in Hcap.
  pose proof (count_notes_trim processed) as Htrim.
  pose proof (count_built cfg note_grid _ _ (grid_indices_NoDup _ _) Hbuilt) as Hcount.
  assert (Hpost : (length (active_rows (concat processed))
                   <= length (active_rows (concat built)))%nat).
  { eapply active_rows_step; [apply concat_step, Hstep|].
    eapply Forall_impl; [eapply built_rows_wf, Hbuilt|]. intros r [Hwf _]. exact Hwf. }
  rewrite count_notes_active in Htrim |- *. rewrite count_notes_active in Htrim. lia.
Qed.

(** C10.  In every generated chart every row has at most two active
    lanes, and every lane holds 0 or 1. *)
Theorem chart_rows_at_most_two (az : AudioAnalyzer) (name : string) (chart : Chart) g g' :
  generate_chart az name g = Ok (chart, g') ->
  forall meas row, meas ∈ chart_measures chart -> row ∈ meas ->
    row_wf row /\ (length (arrows_of row) <= 2)%nat.
Proof.
  intros H meas row Hmeas Hrow.
  apply generate_chart_inv in H as (cfg & _ & H).
  apply chart_rows in H as [Hall _].
  assert (Hin : row ∈ concat (chart_measures chart)).
  { apply list_elem_of_In, in_concat. exists meas. split; apply list_elem_of_In; assumption. }
  destruct (proj1 (Forall_forall _ _) Hall row Hin) as [Hwf Hsum].
  split; [exact Hwf|]. pose proof (arrows_count row Hwf). lia.
Qed.

(** C6.  A Beginner chart has level 1 and no row with two or more active
    lanes. *)
Theorem beginner_chart_no_jumps (az : AudioAnalyzer) (chart : Chart) g g' :
  generate_chart az "Beginner" g = Ok (chart, g') ->
  chart_level chart = 1 /\
  forall meas row, meas ∈ chart_measures chart -> row ∈ meas ->
    (length (arrows_of row) <= 1)%nat.
Proof.
  intros H. apply generate_chart_inv in H as (cfg & Hcfg & H).
  injection Hcfg as <-.
  pose proof (generate_chart_with_inv _ _ _ _ _ _ H)
    as (spr & beats & note_grid & n_meas & built & processed & _ & _ & _ & Hchart).
  split; [rewrite Hchart; reflexivity|].
  apply chart_rows in H as [_ Hall].
  specialize (Hall ltac:(simpl; lia) ltac:(reflexivity)).
  intros meas row Hmeas Hrow.
  assert (Hin : row ∈ concat (chart_measures chart)).
  { apply list_elem_of_In, in_concat. exists meas. split; apply list_elem_of_In; assumption. }
  destruct (proj1 (Forall_forall _ _) Hall row Hin) as [Hwf Hsum].
  pose proof (arrows_count row Hwf). lia.
Qed.


(** ** Jump spacing (C7) *)

Lemma choice_total {A} (seq : list A) g :
  seq <> [] -> exists x g', choice seq g = Ok (x, g') /\ x ∈ seq.
Proof.
  intros Hne. unfold choice. destruct seq as [|y seq]; [congruence|].
  pose proof (rng_randbelow_range (Z.of_nat (length (y :: seq))) g) as Hk.
  destruct (rng_randbelow _ g) as [k g1]. simpl fst in Hk.
  specialize (Hk ltac:(simpl; lia)).
  destruct (lookup_lt_is_Some_2 (y :: seq) (Z.to_nat k)) as [x Hx]; [lia|].
  assert (Hidx : py_index (y :: seq) k = Ok x).
  { unfold py_index. destruct (k <? 0) eqn:E; [lia|].
    destruct ((0 <=? k) && (k <? Z.of_nat (length (y :: seq)))) eqn:E2.
    - rewrite Hx. reflexivity.
    - apply andb_false_iff in E2 as [E2 | E2]; lia. }
  rewrite Hidx. exists x, g1. split; [reflexivity|]. eapply list_elem_of_lookup_2, Hx.
Qed.

Lemma arrows_of_range (row : Row) (k : Z) : k ∈ arrows_of row -> 0 <= k < 4.
Proof.
  unfold arrows_of. intros H. apply list_elem_of_filter in H as [_ H].
  apply elem_of_py_range in H. exact H.
Qed.

Lemma arrows_of_jump (row : Row) : 2 <= row_sum row -> arrows_of row <> [].
Proof.
  intros Hsum Hnil.
  assert (Hzero : forall i, 0 <= i < 4 -> row_get row i = 0).
  { intros i Hi. destruct (Z.eqb_spec (row_get row i) 0) as [E | E]; [exact E|].
    assert (Hin : i ∈ arrows_of row).
    { apply list_elem_of_filter. split; [|apply elem_of_py_range, Hi].
      apply Z.eqb_neq in E. rewrite E. exact I. }
    rewrite Hnil in Hin. inversion Hin. }
  pose proof (Hzero 0 ltac:(lia)) as H0. pose proof (Hzero 1 ltac:(lia)) as H1.
  pose proof (Hzero 2 ltac:(lia)) as H2. pose proof (Hzero 3 ltac:(lia)) as H3.
  unfold row_get in *. simpl in *. unfold row_sum in Hsum. lia.
Qed.

Lemma row_set_total (row : Row) (k v : Z) : 0 <= k < 4 -> exists row', row_set row k v = Ok row'.
Proof.
  intros Hk. unfold row_set. destruct (k <? 0) eqn:E; [lia|].
  destruct (Z.eqb_spec k 0); [eauto|]. destruct (Z.eqb_spec k 1); [eauto|].
  destruct (Z.eqb_spec k 2); [eauto|]. destruct (Z.eqb_spec k 3); [eauto|]. lia.
Qed.

(** One iteration of rule 5 at grid index [gi], as a relation. *)
Definition step5 (lvl gi last : Z) (r r' : Row) (last' : Z) : Prop :=
  if decide (2 <= row_sum r) then
    if decide (gi - last < 3 /\ lvl < 9) then
      (exists k, k ∈ arrows_of r /\ row_set zero_row k 1 = Ok r') /\ last' = last
    else r' = r /\ last' = gi
  else r' = r /\ last' = last.

Lemma rule5_body_spec (lvl sd m r last : Z) (row : Row) g :
  exists row' last' g',
    rule5_body lvl sd m r last row g = Ok ((row', last'), g') /\
    step5 lvl (m * sd + r) last row row' last'.
Proof.
  unfold rule5_body, step5.
  destruct (decide (2 <= row_sum row)) as [Hjump | Hjump].
  2:{ rewrite (proj2 (Z.leb_gt _ _)) by lia.
      do 3 eexists. split; [reflexivity|]. split; reflexivity. }
  rewrite (proj2 (Z.leb_le _ _) Hjump).
  destruct (decide (m * sd + r - last < 3 /\ lvl < 9)) as [[Hnear Hlvl] | Hfar].
  2:{ assert (E : (m * sd + r - last <? 3) && (lvl <? 9) = false).
      { apply andb_false_iff. rewrite !Z.ltb_ge. lia. }
      rewrite E. do 3 eexists. split; [reflexivity|]. split; reflexivity. }
  rewrite (proj2 (Z.ltb_lt _ _) Hnear), (proj2 (Z.ltb_lt _ _) Hlvl). cbn [andb].
  destruct (choice_total (arrows_of row) g (arrows_of_jump row Hjump)) as (k & g1 & Hk & Hin).
  destruct (row_set_total zero_row k 1 (arrows_of_range row k Hin)) as [row' Hset].
  exists row', last, g1. split.
  - unfold mbind, M_bind. rewrite Hk. unfold liftR. rewrite Hset. reflexivity.
  - split; [exists k; split; assumption | reflexivity].
Qed.

(** The pass over a flat list of rows from grid index [gi]. *)
Inductive pass5 (lvl : Z) : Z -> Z -> list Row -> list Row -> Z -> Prop :=
  | pass5_nil gi last : pass5 lvl gi last [] [] last
  | pass5_cons gi last r r' last1 rows rows' last2 :
      step5 lvl gi last r r' last1 ->
      pass5 lvl (gi + 1) last1 rows rows' last2 ->
      pass5 lvl gi last (r :: rows) (r' :: rows') last2.

Lemma pass5_app (lvl : Z) gi last a a' last1 b b' last2 :
  pass5 lvl gi last a a' last1 ->
  pass5 lvl (gi + Z.of_nat (length a)) last1 b b' last2 ->
  pass5 lvl gi last (a ++ b) (a' ++ b') last2.
Proof.
  induction 1 as [gi last | gi last r r' l1 rows rows' l2 Hstep Hpass IH]; intros Hb.
  - simpl in Hb. rewrite Z.add_0_r in Hb. exact Hb.
  - simpl. econstructor; [exact Hstep|]. apply IH.
    replace (gi + 1 + Z.of_nat (length rows)) with (gi + Z.of_nat (length (r :: rows)));
      [exact Hb | simpl; lia].
Qed.

Lemma for_rows_pass5 (lvl sd m : Z) : forall meas r last g,
  exists meas' last' g',
    for_rows (rule5_body lvl sd) m r last meas g = Ok ((meas', last'), g') /\
    pass5 lvl (m * sd + r) last meas meas' last'.
Proof.
  induction meas as [|row rest IH]; intros r last g.
  - do 3 eexists. split; [reflexivity | constructor].
  - destruct (rule5_body_spec lvl sd m r last row g) as (row' & last1 & g1 & Hbody & Hstep).
    destruct (IH (r + 1) last1 g1) as (rest' & last2 & g2 & Hrest & Hpass).
    exists (row' :: rest'), last2, g2. split.
    + simpl. unfold mbind, M_bind. rewrite Hbody, Hrest. reflexivity.
    + econstructor; [exact Hstep|].
      replace (m * sd + r + 1) with (m * sd + (r + 1)) by lia. exact Hpass.
Qed.

Lemma for_measures_pass5 (lvl sd : Z) : forall measures m last g,
  Forall (fun meas => Z.of_nat (length meas) = sd) measures ->
  exists measures' last' g',
    for_measures (rule5_body lvl sd) m last measures g = Ok ((measures', last'), g') /\
    map length measures' = map length measures /\
    pass5 lvl (m * sd) last (concat measures) (concat measures') last'.
Proof.
  induction measures as [|meas rest IH]; intros m last g Hshape.
  - do 3 eexists. split; [reflexivity|]. split; [reflexivity | constructor].
  - apply Forall_cons in Hshape as [Hlen Hshape].
    destruct (for_rows_pass5 lvl sd m meas 0 last g) as (meas' & last1 & g1 & Hrows & Hpass1).
    destruct (IH (m + 1) last1 g1 Hshape) as (rest' & last2 & g2 & Hrest & Hlens & Hpass2).
    exists (meas' :: rest'), last2, g2. split; [|split].
    + simpl. unfold mbind, M_bind. rewrite Hrows, Hrest. reflexivity.
    + simpl. f_equal; [|exact Hlens].
      clear -Hpass1. induction Hpass1; simpl; congruence.
    + simpl. rewrite Z.add_0_r in Hpass1. eapply pass5_app; [exact Hpass1|].
      replace (m * sd + Z.of_nat (length meas)) with ((m + 1) * sd) by lia. exact Hpass2.
Qed.


(** A retained jump one or two rows before row [i]. *)
Definition jump_within_two (rows : list Row) (i : nat) : Prop :=
  exists (j : nat) x, (j < i < j + 3)%nat /\ rows !! j = Some x /\ 2 <= row_sum x.

(** [last_jump_gi] is the index of the latest jump among the rows already
    written, or the initial -999 when there is none. *)
Definition last_ok (pre : list Row) (last : Z) : Prop :=
  (last = -999 /\ forall (j : nat) x, pre !! j = Some x -> row_sum x < 2) \/
  (exists (j : nat) x,
      last = Z.of_nat j /\ pre !! j = Some x /\ 2 <= row_sum x /\
      forall (j' : nat) x', (j < j')%nat -> pre !! j' = Some x' -> row_sum x' < 2).

Lemma near_iff (pre rest : list Row) (last : Z) :
  last_ok pre last ->
  Z.of_nat (length pre) - last < 3 <-> jump_within_two (pre ++ rest) (length pre).
Proof.
  intros Hok. split.
  - intros Hnear. destruct Hok as [[-> _] | (j & x & -> & Hj & Hjump & _)]; [lia|].
    pose proof (lookup_lt_Some _ _ _ Hj) as Hlt.
    exists j, x. split; [lia|]. split; [|exact Hjump].
    rewrite lookup_app_l by exact Hlt. exact Hj.
  - intros (j & x & Hj & Hx & Hjump). rewrite lookup_app_l in Hx by lia.
    destruct Hok as [[_ Hnone] | (j0 & x0 & -> & Hj0 & _ & Hlater)].
    + specialize (Hnone j x Hx). lia.
    + destruct (Nat.lt_ge_cases j0 j) as [Hlt | Hge]; [|lia].
      specialize (Hlater j x Hlt Hx). lia.
Qed.

Lemma last_ok_snoc (lvl : Z) (pre : list Row) (last last1 : Z) (r r' : Row) :
  last_ok pre last ->
  step5 lvl (Z.of_nat (length pre)) last r r' last1 ->
  last_ok (pre ++ [r']) last1.
Proof.
  intros Hok Hstep. unfold step5 in Hstep.
  assert (Hkeep : row_sum r' < 2 -> last_ok (pre ++ [r']) last).
  { intros Hsmall. destruct Hok as [[-> Hnone] | (j & x & -> & Hj & Hjump & Hlater)].
    - left. split; [reflexivity|]. intros j x Hx.
      apply lookup_app_Some in Hx as [Hx | [_ Hx]]; [eapply Hnone, Hx|].
      apply list_lookup_singleton_Some in Hx as [_ <-]. exact Hsmall.
    - right. exists j, x. split; [reflexivity|].
      split; [apply lookup_app_l_Some, Hj|]. split; [exact Hjump|].
      intros j' x' Hlt Hx'.
      apply lookup_app_Some in Hx' as [Hx' | [_ Hx']]; [eapply Hlater; eauto|].
      apply list_lookup_singleton_Some in Hx' as [_ <-]. exact Hsmall. }
  destruct (decide (2 <= row_sum r)) as [Hjump | Hsmall].
  - destruct (decide (_ /\ _)) as [_ | _].
    + destruct Hstep as [(k & _ & Hset) ->]. apply Hkeep.
      destruct (single_row_sum _ _ Hset) as [_ ->]. lia.
    + destruct Hstep as [-> ->]. right. exists (length pre), r.
      split; [reflexivity|]. split; [apply list_lookup_middle; reflexivity|].
      split; [exact Hjump|]. intros j' x' Hlt Hx'.
      apply lookup_lt_Some in Hx'. rewrite length_app in Hx'. simpl in Hx'. lia.
  - destruct Hstep as [-> ->]. apply Hkeep. lia.
Qed.

(** What a pass does at each position, in terms of the rows it writes. *)
Lemma pass5_positions (lvl : Z) : forall gi last ins outs last',
  pass5 lvl gi last ins outs last' ->
  forall pre, gi = Z.of_nat (length pre) -> last_ok pre last ->
  forall (i : nat) r r', ins !! i = Some r -> outs !! i = Some r' ->
    let downgrade :=
      2 <= row_sum r /\ lvl < 9 /\ jump_within_two (pre ++ outs) (length pre + i) in
    (downgrade -> exists k, k ∈ arrows_of r /\ row_set zero_row k 1 = Ok r') /\
    (~ downgrade -> r' = r).
Proof.
  induction 1 as [gi last | gi last r0 r0' last1 rows rows' last2 Hstep Hpass IH];
    intros pre Hgi Hok i r r' Hr Hr'; [discriminate|].
  subst gi. destruct i as [|i]; simpl in Hr, Hr'.
  - injection Hr as <-. injection Hr' as <-. rewrite Nat.add_0_r.
    pose proof (near_iff pre (r0' :: rows') last Hok) as Hnear.
    unfold step5 in Hstep.
    destruct (decide (2 <= row_sum r0)) as [Hjump | Hsmall].
    + destruct (decide (_ /\ _)) as [[Hlt Hlvl] | Hfar].
      * destruct Hstep as [Hdown _]. split; [intros _; exact Hdown|].
        intros Hno. exfalso. apply Hno. split; [exact Hjump|]. split; [exact Hlvl|].
        apply Hnear, Hlt.
      * destruct Hstep as [-> _]. split; [|reflexivity].
        intros (_ & Hlvl & Hwithin). exfalso. apply Hfar. split; [|exact Hlvl].
        apply Hnear, Hwithin.
    + destruct Hstep as [-> _]. split; [|reflexivity]. intros [Hjump _]. lia.
  - specialize (IH (pre ++ [r0'])).
    rewrite length_app in IH. simpl in IH.
    specialize (IH ltac:(lia) (last_ok_snoc lvl pre last last1 r0 r0' Hok Hstep) i r r' Hr Hr').
    rewrite <- app_assoc in IH. simpl in IH.
    replace (length pre + 1 + i)%nat with (length pre + S i)%nat in IH by lia.
    exact IH.
Qed.

Lemma pass5_level9 (lvl : Z) : forall gi last ins outs last',
  9 <= lvl -> pass5 lvl gi last ins outs last' -> outs = ins.
Proof.
  intros gi last ins outs last' Hlvl. induction 1 as [|gi last r r' l1 rows rows' l2 Hstep _ IH];
    [reflexivity|].
  f_equal; [|exact IH]. unfold step5 in Hstep.
  destruct (decide (2 <= row_sum r)); [|apply Hstep].
  destruct (decide (_ /\ _)) as [[_ Hlt] | _]; [lia | apply Hstep].
Qed.

Lemma concat_same_shape {A} (l1 l2 : list (list A)) :
  map length l1 = map length l2 -> concat l1 = concat l2 -> l1 = l2.
Proof.
  revert l2. induction l1 as [|a l1 IH]; intros [|b l2] Hlen Hcat; try discriminate;
    [reflexivity|].
  simpl in *. injection Hlen as Hab Hlen.
  apply app_inj_1 in Hcat as [-> Hcat]; [|exact Hab]. f_equal. apply IH; assumption.
Qed.

(** C7.  On measures of [subdiv] rows each, rule 5 returns measures of the
    same shape.  Below level 9, a row whose lanes sum to 2 or more with a
    retained jump one or two rows before it becomes a single-lane row on one
    of its active lanes, and every other row is unchanged; from level 9 on
    the measures are unchanged. *)
Theorem jump_spacing_rule (lvl sd : Z) (measures : Measures) g :
  Forall (fun meas => Z.of_nat (length meas) = sd) measures ->
  exists out g',
    rule5 lvl sd measures g = Ok (out, g') /\
    map length out = map length measures /\
    (9 <= lvl -> out = measures) /\
    (lvl < 9 ->
     forall (i : nat) r r',
       concat measures !! i = Some r -> concat out !! i = Some r' ->
       (2 <= row_sum r /\ jump_within_two (concat out) i ->
        exists k, k ∈ arrows_of r /\ row_set zero_row k 1 = Ok r') /\
       (~ (2 <= row_sum r /\ jump_within_two (concat out) i) -> r' = r)).
Proof.
  intros Hshape.
  destruct (for_measures_pass5 lvl sd measures 0 (-999) g Hshape)
    as (out & last' & g' & Hrun & Hlens & Hpass).
  exists out, g'. split; [unfold rule5, mbind, M_bind; rewrite Hrun; reflexivity|].
  split; [exact Hlens|]. split.
  - intros Hlvl. apply concat_same_shape; [exact Hlens|].
    eapply pass5_level9; eauto.
  - intros Hlvl i r r' Hr Hr'.
    assert (Hok : last_ok [] (-999)).
    { left. split; [reflexivity|]. intros j x Hx. discriminate. }
    destruct (pass5_positions lvl _ _ _ _ _ Hpass [] eq_refl Hok i r r' Hr Hr') as [Hdown Hkeep].
    simpl in Hdown, Hkeep. split.
    + intros [Hjump Hnear]. apply Hdown. auto.
    + intros Hno. apply Hkeep. intros (Hjump & _ & Hnear). apply Hno. auto.
Qed.


(** ** The [use_beats_only] field (C9) *)

Lemma mark_row_mono (offset spr t : Q) (X : gset Z) (ri : Z) :
  ri ∈ X -> ri ∈ mark_row offset spr t X.
Proof. unfold mark_row. destruct (_ && _); set_solver. Qed.

Lemma mark_onsets_fold_mono (az : AudioAnalyzer) (cfg : Config) (offset spr : Q)
    (l : list (Q * Q)) : forall (X : gset Z) (ri : Z),
  ri ∈ X ->
  ri ∈ fold_left (fun note_grid '(ot, os_) =>
         if Qle_bool (onset_thresh cfg) os_ && Qle_bool (music_start az) ot
            && Qle_bool ot (duration az)
         then mark_row offset spr ot note_grid else note_grid) l X.
Proof.
  induction l as [|[ot os_] l IH]; intros X ri Hin; simpl; [exact Hin|].
  apply IH. destruct (_ && _); [apply mark_row_mono|]; exact Hin.
Qed.

Lemma mark_onsets_fold_in (az : AudioAnalyzer) (cfg : Config) (offset spr : Q)
    (l : list (Q * Q)) (ot os_ : Q) : forall X : gset Z,
  (ot, os_) ∈ l ->
  (onset_thresh cfg <= os_)%Q -> (music_start az <= ot)%Q -> (ot <= duration az)%Q ->
  0 <= py_round ((ot - offset) / spr) ->
  (Qabs ((ot - offset) / spr - inject_Z (py_round ((ot - offset) / spr))) < 0.45)%Q ->
  py_round ((ot - offset) / spr) ∈
    fold_left (fun note_grid '(ot, os_) =>
         if Qle_bool (onset_thresh cfg) os_ && Qle_bool (music_start az) ot
            && Qle_bool ot (duration az)
         then mark_row offset spr ot note_grid else note_grid) l X.
Proof.
  intros X Hin Hos Hms Hdur Hri Hnear. revert X.
  induction l as [|[ot' os'] l IH]; intros X; [inversion Hin|].
  apply elem_of_cons in Hin as [[= <- <-] | Hin]; simpl; [|apply IH, Hin].
  apply mark_onsets_fold_mono.
  apply Qle_bool_iff in Hos, Hms, Hdur. rewrite Hos, Hms, Hdur. simpl.
  unfold mark_row. apply Z.leb_le in Hri. apply Qltb_lt in Hnear.
  rewrite Hri, Hnear. simpl. set_solver.
Qed.

(** Agreement on every field but [use_beats_only]. *)
Definition agree_but_beats_only (cfg1 cfg2 : Config) : Prop :=
  level cfg1 = level cfg2 /\ subdiv cfg1 = subdiv cfg2 /\
  beat_skip cfg1 = beat_skip cfg2 /\ onset_thresh cfg1 = onset_thresh cfg2 /\
  jump_prob cfg1 = jump_prob cfg2 /\ max_nps cfg1 = max_nps cfg2 /\
  jack_ok cfg1 = jack_ok cfg2 /\ alt_pref cfg1 = alt_pref cfg2.

Lemma pick_arrow_agree (az : AudioAnalyzer) (t : Q) (prev : list Z) (cfg1 cfg2 : Config) g :
  agree_but_beats_only cfg1 cfg2 ->
  _pick_arrow az t prev cfg1 g = _pick_arrow az t prev cfg2 g.
Proof.
  intros (_ & _ & _ & _ & Hjp & _ & Hjack & Halt).
  unfold _pick_arrow. rewrite Hjp, Hjack, Halt. reflexivity.
Qed.

Lemma build_rows_agree az cfg1 cfg2 offset spr note_grid m :
  agree_but_beats_only cfg1 cfg2 ->
  forall rs prev g,
    build_rows az cfg1 offset spr note_grid m rs prev g =
    build_rows az cfg2 offset spr note_grid m rs prev g.
Proof.
  intros Hag. pose proof Hag as (_ & Hsd & _).
  induction rs as [|r rs IH]; intros prev g; [reflexivity|].
  cbn [build_rows]. rewrite Hsd.
  destruct (bool_decide _ && _ && _); unfold mbind, M_bind.
  - rewrite (pick_arrow_agree az _ prev cfg1 cfg2 g Hag).
    destruct (_pick_arrow az _ prev cfg2 g) as [[[row arrow] g1]|e]; [|reflexivity].
    rewrite IH. reflexivity.
  - rewrite IH. reflexivity.
Qed.

Lemma build_measures_agree az cfg1 cfg2 offset spr note_grid :
  agree_but_beats_only cfg1 cfg2 ->
  forall ms prev g,
    build_measures az cfg1 offset spr note_grid ms prev g =
    build_measures az cfg2 offset spr note_grid ms prev g.
Proof.
  intros Hag. pose proof Hag as (_ & Hsd & _).
  induction ms as [|m ms IH]; intros prev g; [reflexivity|].
  cbn [build_measures]. unfold mbind, M_bind.
  rewrite Hsd, (build_rows_agree az cfg1 cfg2 _ _ _ _ Hag).
  destruct (build_rows az cfg2 _ _ _ _ _ _ g) as [[[mrows prev1] g1]|e]; [|reflexivity].
  rewrite IH. reflexivity.
Qed.

Lemma generate_chart_with_agree az name cfg1 cfg2 g :
  agree_but_beats_only cfg1 cfg2 ->
  generate_chart_with az name cfg1 g = generate_chart_with az name cfg2 g.
Proof.
  intros Hag. pose proof Hag as (Hlvl & Hsd & Hskip & Hthr & _ & Hnps & _).
  unfold generate_chart_with, eligible_rows, mark_onsets, max_notes_of, _postprocess.
  rewrite Hlvl, Hsd, Hskip, Hthr, Hnps.
  unfold mbind, M_bind.
  repeat match goal with
  | |- context [match liftR ?r ?g with _ => _ end] =>
      destruct (liftR r g) as [[? ?]|?]; [|reflexivity]
  end.
  rewrite (build_measures_agree az cfg1 cfg2 _ _ _ Hag). reflexivity.
Qed.

(** C9.  Two configs that agree on every field but [use_beats_only] give
    the same outcome of [generate_chart]: the same chart and generator state,
    or the same exception.  In particular an onset that meets the strength
    threshold, lies between [music_start] and [duration] and rounds to a row
    within 0.45 marks that row as eligible, also when [use_beats_only] is
    true. *)
Theorem use_beats_only_unused (az : AudioAnalyzer) (name : string) (cfg1 cfg2 : Config) g :
  level cfg1 = level cfg2 -> subdiv cfg1 = subdiv cfg2 ->
  beat_skip cfg1 = beat_skip cfg2 -> onset_thresh cfg1 = onset_thresh cfg2 ->
  jump_prob cfg1 = jump_prob cfg2 -> max_nps cfg1 = max_nps cfg2 ->
  jack_ok cfg1 = jack_ok cfg2 -> alt_pref cfg1 = alt_pref cfg2 ->
  generate_chart_with az name cfg1 g = generate_chart_with az name cfg2 g /\
  (forall offset spr beats ot os_,
      use_beats_only cfg1 = true ->
      (ot, os_) ∈ zip (onset_times az) (onset_strengths az) ->
      (onset_thresh cfg1 <= os_)%Q -> (music_start az <= ot)%Q -> (ot <= duration az)%Q ->
      0 <= py_round ((ot - offset) / spr) ->
      (Qabs ((ot - offset) / spr - inject_Z (py_round ((ot - offset) / spr))) < 0.45)%Q ->
      py_round ((ot - offset) / spr) ∈ eligible_rows az cfg1 offset spr beats).
Proof.
  intros H1 H2 H3 H4 H5 H6 H7 H8. split.
  - apply generate_chart_with_agree. repeat split; assumption.
  - intros offset spr beats ot os_ _ Hin Hos Hms Hdur Hri Hnear.
    unfold eligible_rows, mark_onsets. eapply mark_onsets_fold_in; eauto.
Qed.

(** ** Determinism (C5) *)

Definition same_object (s1 s2 : StepChartGenerator) : Prop :=
  self_az s1 = self_az s2 /\ self_rng s1 = self_rng s2 /\ self_charts s1 = self_charts s2.

(** Two outcomes agree up to what the callbacks recorded. *)
Definition same_outcome {A} (R : A -> A -> Prop) (r1 r2 : result A) : Prop :=
  match r1, r2 with
  | Ok a1, Ok a2 => R a1 a2
  | Raise e1, Raise e2 => e1 = e2
  | _, _ => False
  end.

Lemma generate_loop_same (base : Z) (selected : list string) : forall i s1 s2,
  same_object s1 s2 ->
  same_outcome same_object (generate_loop base i selected s1)
                           (generate_loop base i selected s2).
Proof.
  induction selected as [|name rest IH]; intros i s1 s2 (Haz & Hrng & Hcharts); simpl.
  - repeat split; assumption.
  - rewrite Haz, Hrng.
    destruct (generate_chart (self_az s2) name (self_rng s2)) as [[chart g]|e]; simpl;
      [|reflexivity].
    apply IH. repeat split; simpl; congruence.
Qed.

(** C5.  Two generator objects built from the same analysis result and
    the same integer seed, run on the same selection, return the same charts
    dict (or raise the same exception), whatever their callbacks are. *)
Theorem generate_all_deterministic (az1 az2 : AudioAnalyzer) (seed1 seed2 : Z)
    (selected1 selected2 : option (list string)) (cb1 cb2 : list (LogMsg * Z)) :
  az1 = az2 -> seed1 = seed2 -> selected1 = selected2 ->
  same_outcome (fun r1 r2 => r1.1 = r2.1)
    (generate_all (new_generator az1 seed1 cb1) selected1)
    (generate_all (new_generator az2 seed2 cb2) selected2).
Proof.
  intros -> -> ->. unfold generate_all.
  set (selected := match selected2 with Some ((_ :: _) as l) => l | _ => map fst CONFIGS end).
  pose proof (generate_loop_same 72 selected 0
                (new_generator az2 seed2 cb1) (new_generator az2 seed2 cb2)) as H.
  specialize (H ltac:(repeat split)).
  destruct (generate_loop 72 0 selected (new_generator az2 seed2 cb1)) as [s1|e1],
           (generate_loop 72 0 selected (new_generator az2 seed2 cb2)) as [s2|e2];
    simpl in *; try contradiction; [|exact H].
  destruct H as (_ & _ & H). exact H.
Qed.


(** ** Charts are produced *)

(** What the generator needs from the analysis: a non-zero BPM, a
    spectrogram with at least one frame and an RMS envelope with at least one
    frame. *)
Definition analysis_ok (az : AudioAnalyzer) : Prop :=
  ~ bpm az == 0 /\ mel_spec az <> [] /\ rms az <> Some [].

Lemma py_index_ok {A} (l : list A) (i : Z) :
  0 <= i < Z.of_nat (length l) -> exists x, py_index l i = Ok x /\ l !! Z.to_nat i = Some x.
Proof.
  intros Hi. destruct (lookup_lt_is_Some_2 l (Z.to_nat i)) as [x Hx]; [lia|].
  exists x. split; [|exact Hx]. unfold py_index.
  destruct (i <? 0) eqn:E; [lia|].
  destruct ((0 <=? i) && (i <? Z.of_nat (length l))) eqn:E2.
  - rewrite Hx. reflexivity.
  - apply andb_false_iff in E2 as [E2 | E2]; lia.
Qed.

Lemma np_clip_range (x n : Z) : 0 < n -> 0 <= np_clip x 0 (n - 1) < n.
Proof. unfold np_clip. lia. Qed.

Lemma argmax_from_range (l : list Q) : forall best best_i i,
  0 <= best_i < i ->
  0 <= argmax_from best best_i i l < i + Z.of_nat (length l).
Proof.
  induction l as [|x l IH]; intros best best_i i Hi; simpl; [lia|].
  destruct (Qltb best x).
  - pose proof (IH x i (i + 1) ltac:(lia)). lia.
  - pose proof (IH best best_i (i + 1) ltac:(lia)). lia.
Qed.

Lemma get_dominant_band_ok (az : AudioAnalyzer) (t : Q) :
  mel_spec az <> [] -> exists band, get_dominant_band az t = Ok band /\ 0 <= band < 4.
Proof.
  intros Hne. unfold get_dominant_band.
  assert (Hlen : 0 < Z.of_nat (length (mel_spec az))).
  { destruct (mel_spec az); [congruence | simpl; lia]. }
  destruct (py_index_ok (mel_spec az)
              (np_clip (time_to_frames t (sr az) 512) 0 (Z.of_nat (length (mel_spec az)) - 1))
              (np_clip_range _ _ Hlen)) as (spec & Hspec & _).
  rewrite Hspec. cbn [mbind result_bind]. eexists. split; [reflexivity|].
  change (py_range 4) with [0; 1; 2; 3]. cbn [map np_argmax].
  pose proof (argmax_from_range
                [np_mean (py_slice spec (1 * (n_mels az `div` 4))
                            (if 1 <? 3 then (1 + 1) * (n_mels az `div` 4) else n_mels az));
                 np_mean (py_slice spec (2 * (n_mels az `div` 4))
                            (if 2 <? 3 then (2 + 1) * (n_mels az `div` 4) else n_mels az));
                 np_mean (py_slice spec (3 * (n_mels az `div` 4))
                            (if 3 <? 3 then (3 + 1) * (n_mels az `div` 4) else n_mels az))]
                (np_mean (py_slice spec (0 * (n_mels az `div` 4))
                            (if 0 <? 3 then (0 + 1) * (n_mels az `div` 4) else n_mels az)))
                0 1 ltac:(lia)) as H.
  simpl length in H. exact H.
Qed.

Lemma get_rms_at_ok (az : AudioAnalyzer) (t : Q) :
  rms az <> Some [] -> exists energy, get_rms_at az t = Ok energy.
Proof.
  intros Hne. unfold get_rms_at. destruct (rms az) as [l|]; [|eauto].
  destruct l as [|x l]; [congruence|].
  cbn [np_max mbind result_bind].
  destruct (Qltb 0 (np_max_from x l)); [|eauto].
  destruct (py_index_ok (x :: l)
              (np_clip (time_to_frames t (sr az) 512) 0 (Z.of_nat (length (x :: l)) - 1)))
    as (v & Hv & _).
  { apply np_clip_range. simpl. lia. }
  rewrite Hv. cbn [mbind result_bind]. eauto.
Qed.

Lemma randint_ok (a b : Z) g :
  a <= b -> exists k g', randint a b g = Ok (k, g') /\ a <= k <= b.
Proof.
  intros Hab. unfold randint. destruct (b - a + 1 <=? 0) eqn:E; [lia|].
  pose proof (rng_randbelow_range (b - a + 1) g ltac:(lia)) as Hk.
  destruct (rng_randbelow (b - a + 1) g) as [k g1]. simpl in Hk.
  exists (a + k), g1. split; [reflexivity | lia].
Qed.

Lemma jack_loop_ok (prev_last : Z) : forall n arrow g,
  0 <= arrow < 4 ->
  exists a g', jack_loop n arrow prev_last g = Ok (a, g') /\ 0 <= a < 4.
Proof.
  induction n as [|n IH]; intros arrow g Ha; simpl.
  - exists arrow, g. split; [reflexivity | exact Ha].
  - destruct (negb (arrow =? prev_last)).
    + exists arrow, g. split; [reflexivity | exact Ha].
    + destruct (randint_ok 0 3 g ltac:(lia)) as (k & g1 & Hk & Hrange).
      destruct (IH k g1 ltac:(lia)) as (a & g2 & Hloop & Ha').
      exists a, g2. split; [|exact Ha'].
      unfold mbind, M_bind. rewrite Hk. exact Hloop.
Qed.

Lemma foot_range (k : Z) (b : bool) :
  k ∈ (if b then RIGHT_FOOT else LEFT_FOOT) -> 0 <= k < 4.
Proof.
  unfold RIGHT_FOOT, LEFT_FOOT. destruct b; intros H;
    repeat (apply elem_of_cons in H as [-> | H]; [lia|]); inversion H.
Qed.

Lemma pick_arrow_total (az : AudioAnalyzer) (t : Q) (prev : list Z) (cfg : Config) g :
  mel_spec az <> [] ->
  exists row arrow g', _pick_arrow az t prev cfg g = Ok ((row, arrow), g').
Proof.
  intros Hmel. unfold _pick_arrow, mbind, M_bind.
  destruct (get_dominant_band_ok az t Hmel) as (band & Hband & Hb).
  unfold liftR at 1. rewrite Hband. unfold random at 1.
  destruct (rng_random g) as [x g1].
  assert (H1 : exists a1 g2, (if Qltb x 0.30 then randint 0 3 else mret band) g1 = Ok (a1, g2)
                             /\ 0 <= a1 < 4).
  { destruct (Qltb x 0.30).
    - destruct (randint_ok 0 3 g1 ltac:(lia)) as (k & g2 & Hk & Hrange).
      exists k, g2. split; [exact Hk | lia].
    - exists band, g1. split; [reflexivity | exact Hb]. }
  destruct H1 as (a1 & g2 & -> & Ha1).
  assert (H2 : exists a2 g3,
             (match (if alt_pref cfg then last prev else None) with
              | Some prev_last =>
                  choice (if bool_decide (prev_last ∈ LEFT_FOOT)
                          then RIGHT_FOOT else LEFT_FOOT)
              | None => mret a1
              end) g2 = Ok (a2, g3) /\ 0 <= a2 < 4).
  { destruct (if alt_pref cfg then last prev else None) as [pl|].
    - destruct (choice_total (if bool_decide (pl ∈ LEFT_FOOT) then RIGHT_FOOT else LEFT_FOOT) g2)
        as (k & g3 & Hk & Hin).
      { destruct (bool_decide _); discriminate. }
      exists k, g3. split; [exact Hk | eapply foot_range, Hin].
    - exists a1, g2. split; [reflexivity | exact Ha1]. }
  destruct H2 as (a2 & g3 & -> & Ha2).
  assert (H3 : exists a3 g4,
             (match (if negb (jack_ok cfg) then last prev else None) with
              | Some prev_last => jack_loop 12 a2 prev_last
              | None => mret a2
              end) g3 = Ok (a3, g4) /\ 0 <= a3 < 4).
  { destruct (if negb (jack_ok cfg) then last prev else None) as [pl|].
    - apply jack_loop_ok, Ha2.
    - exists a2, g3. split; [reflexivity | exact Ha2]. }
  destruct H3 as (a3 & g4 & -> & Ha3).
  destruct (row_set_total zero_row a3 1 Ha3) as [row Hrow].
  unfold liftR at 1. rewrite Hrow.
  destruct (negb (Qeq_bool (jump_prob cfg) 0)); [|eauto].
  unfold random. destruct (rng_random g4) as [y g5].
  destruct (Qltb y (jump_prob cfg)); [|eauto].
  destruct (choice_total (filter (fun i => negb (i =? a3)) (py_range 4)) g5) as (k & g6 & Hk & Hin).
  { change (py_range 4) with [0; 1; 2; 3].
    assert (Hcases : a3 = 0 \/ a3 = 1 \/ a3 = 2 \/ a3 = 3) by lia.
    destruct Hcases as [-> | [-> | [-> | ->]]]; discriminate. }
  rewrite Hk. apply list_elem_of_filter in Hin as [_ Hin]. apply elem_of_py_range in Hin.
  destruct (row_set_total row k 1 Hin) as [row2 Hrow2].
  unfold liftR. rewrite Hrow2. eauto.
Qed.

Lemma build_rows_total az cfg offset spr note_grid m :
  mel_spec az <> [] ->
  forall rs prev g, exists mrows prev' g',
    build_rows az cfg offset spr note_grid m rs prev g = Ok ((mrows, prev'), g').
Proof.
  intros Hmel. induction rs as [|r rs IH]; intros prev g; [simpl; eauto|].
  cbn [build_rows]. unfold mbind, M_bind.
  destruct (bool_decide _ && _ && _).
  - destruct (pick_arrow_total az (offset + inject_Z (m * subdiv cfg + r) * spr) prev cfg g Hmel)
      as (row & arrow & g1 & ->).
    destruct (IH (last8 (prev ++ [arrow])) g1) as (mrows & prev' & g2 & ->). eauto.
  - destruct (IH prev g) as (mrows & prev' & g2 & ->). eauto.
Qed.

Lemma build_measures_total az cfg offset spr note_grid :
  mel_spec az <> [] ->
  forall ms prev g, exists measures g',
    build_measures az cfg offset spr note_grid ms prev g = Ok (measures, g').
Proof.
  intros Hmel. induction ms as [|m ms IH]; intros prev g; [simpl; eauto|].
  cbn [build_measures]. unfold mbind, M_bind.
  destruct (build_rows_total az cfg offset spr note_grid m Hmel (py_range (subdiv cfg)) prev g)
    as (mrows & prev1 & g1 & ->).
  destruct (IH prev1 g1) as (measures & g2 & ->). eauto.
Qed.


Lemma for_rows_total {S} (body : Z -> Z -> S -> Row -> M (Row * S)) :
  (forall m r s row g, exists row' s' g', body m r s row g = Ok ((row', s'), g')) ->
  forall meas m r s g, exists meas' s' g',
    for_rows body m r s meas g = Ok ((meas', s'), g').
Proof.
  intros Hbody. induction meas as [|row rest IH]; intros m r s g; [simpl; eauto|].
  cbn [for_rows]. unfold mbind, M_bind.
  destruct (Hbody m r s row g) as (row' & s1 & g1 & ->).
  destruct (IH m (r + 1) s1 g1) as (rest' & s2 & g2 & ->). eauto.
Qed.

Lemma for_measures_total {S} (body : Z -> Z -> S -> Row -> M (Row * S)) :
  (forall m r s row g, exists row' s' g', body m r s row g = Ok ((row', s'), g')) ->
  forall measures m s g, exists measures' s' g',
    for_measures body m s measures g = Ok ((measures', s'), g').
Proof.
  intros Hbody. induction measures as [|meas rest IH]; intros m s g; [simpl; eauto|].
  cbn [for_measures]. unfold mbind, M_bind.
  destruct (for_rows_total body Hbody meas m 0 s g) as (meas' & s1 & g1 & ->).
  destruct (IH (m + 1) s1 g1) as (rest' & s2 & g2 & ->). eauto.
Qed.

Lemma rule1_body_total az sd spr offset m r s row g :
  rms az <> Some [] ->
  exists row' s' g', rule1_body az sd spr offset m r s row g = Ok ((row', s'), g').
Proof.
  intros Hrms. unfold rule1_body. destruct (negb (row_any_pos row)); [eauto|].
  unfold mbind, M_bind, liftR.
  destruct (get_rms_at_ok az (offset + inject_Z (m * sd + r) * spr) Hrms) as [energy ->].
  eauto.
Qed.

Lemma rule2_body_total m r s row g :
  exists row' s' g', rule2_body m r s row g = Ok ((row', s'), g').
Proof. unfold rule2_body. destruct (arrows_of row) as [|a [|b l]]; eauto. Qed.

Lemma row_index1_ok (row : Row) :
  row_wf row -> row_sum row = 1 -> exists a, row_index1 row = Ok a /\ 0 <= a < 4.
Proof.
  intros Hwf Hsum. row_cases; unfold row_sum in Hsum; simpl in Hsum; try lia;
    eexists; (split; [vm_compute; reflexivity | lia]).
Qed.

(** The measures that post-processing works on: none is empty and every
    lane of every row is 0 or 1. *)
Definition measures_ok (measures : Measures) : Prop :=
  Forall (fun meas => meas <> [] /\ Forall row_wf meas) measures.

Lemma measures_step_ok (lvl : Z) (measures measures' : Measures) :
  measures_step lvl measures measures' -> measures_ok measures -> measures_ok measures'.
Proof.
  unfold measures_step, measures_ok. induction 1 as [|meas meas' ms ms' Hrows _ IH];
    intros Hok; [constructor|].
  apply Forall_cons in Hok as [[Hne Hwf] Hok]. constructor; [|auto].
  split.
  - intros ->. inversion Hrows. subst. congruence.
  - clear -Hrows Hwf. induction Hrows as [|r r' rows rows' Hstep _ IH]; [constructor|].
    apply Forall_cons in Hwf as [Hr Hwf]. constructor; [apply (Hstep Hr) | auto].
Qed.

Lemma rule3_measure_total az sd spr offset m meas g :
  rms az <> Some [] -> meas <> [] -> Forall row_wf meas ->
  exists meas' g', rule3_measure az sd spr offset m meas g = Ok (meas', g').
Proof.
  intros Hrms Hne Hwf. unfold rule3_measure. destruct meas as [|row rest]; [congruence|].
  apply Forall_cons in Hwf as [Hrow _].
  destruct (row_any_pos row && (row_sum row =? 1)) eqn:Enote; [|eauto].
  apply andb_true_iff in Enote as [_ Esum]. apply Z.eqb_eq in Esum.
  unfold mbind, M_bind. unfold liftR at 1.
  destruct (get_rms_at_ok az (offset + inject_Z (m * sd) * spr) Hrms) as [energy ->].
  destruct (Qltb 0.70 energy); [|eauto].
  unfold random. destruct (rng_random g) as [x g1].
  destruct (Qltb x 0.20); [|eauto].
  destruct (row_index1_ok row Hrow Esum) as (active & Hactive & _).
  unfold liftR at 1. rewrite Hactive.
  destruct (choice_total (if bool_decide (active ∈ LEFT_FOOT) then RIGHT_FOOT else LEFT_FOOT) g1)
    as (partner & g2 & -> & Hin).
  { destruct (bool_decide _); discriminate. }
  destruct (row_set_total row partner 1 (foot_range _ _ Hin)) as [row' Hset].
  unfold liftR. rewrite Hset. eauto.
Qed.

Lemma rule3_total az sd spr offset : forall measures m g,
  rms az <> Some [] -> measures_ok measures ->
  exists measures' g', rule3 az sd spr offset m measures g = Ok (measures', g').
Proof.
  induction measures as [|meas rest IH]; intros m g Hrms Hok; [simpl; eauto|].
  apply Forall_cons in Hok as [[Hne Hwf] Hok].
  cbn [rule3]. unfold mbind, M_bind.
  destruct (rule3_measure_total az sd spr offset m meas g Hrms Hne Hwf) as (meas' & g1 & ->).
  destruct (IH (m + 1) g1 Hrms Hok) as (rest' & g2 & ->). eauto.
Qed.

Lemma pattern_entry (pat : list Z) (i : nat) :
  pat ∈ patterns ->
  exists arrow, py_index pat (Z.of_nat i mod 4) = Ok arrow /\ 0 <= arrow < 4.
Proof.
  intros Hpat.
  pose proof (Z.mod_pos_bound (Z.of_nat i) 4 eq_refl) as Hmod.
  assert (Hcases : Z.of_nat i mod 4 = 0 \/ Z.of_nat i mod 4 = 1 \/
                   Z.of_nat i mod 4 = 2 \/ Z.of_nat i mod 4 = 3) by lia.
  unfold patterns in Hpat.
  repeat (apply elem_of_cons in Hpat as [-> | Hpat];
          [destruct Hcases as [-> | [-> | [-> | ->]]];
             (eexists; split; [vm_compute; reflexivity | lia])|]).
  inversion Hpat.
Qed.

Lemma smooth_from_total (pat : list Z) (start : nat) :
  pat ∈ patterns ->
  forall (n i : nat) (flat : list Row),
    (start + i + n <= length flat)%nat ->
    exists flat1, smooth_from pat start i n flat = Ok flat1 /\ length flat1 = length flat.
Proof.
  intros Hpat. induction n as [|n IH]; intros i flat Hlen; [simpl; eauto|].
  cbn [smooth_from].
  destruct (lookup_lt_is_Some_2 flat (start + i)) as [r0 Hr0]; [lia|].
  unfold flat_get. rewrite Hr0. cbn [mbind result_bind].
  destruct (pattern_entry pat i Hpat) as (arrow & -> & Harrow). cbn [mbind result_bind].
  destruct (row_set_total zero_row arrow 1 Harrow) as [row ->]. cbn [mbind result_bind].
  destruct (IH (S i) (<[(start + i)%nat := row]> flat)) as (flat1 & Hrun & Hlen1).
  { rewrite length_insert. lia. }
  exists flat1. split; [exact Hrun|]. rewrite Hlen1. apply length_insert.
Qed.

Lemma smooth_run_total (flat : list Row) (start len : nat) g :
  (start + len <= length flat)%nat ->
  exists flat1 g', _smooth_run flat start len g = Ok (flat1, g') /\
                   length flat1 = length flat.
Proof.
  intros Hlen. unfold _smooth_run, mbind, M_bind.
  destruct (choice_total patterns g) as (pat & g1 & -> & Hpat); [discriminate|].
  destruct (smooth_from_total pat start Hpat len 0 flat ltac:(lia)) as (flat1 & Hrun & Hlen1).
  unfold liftR. rewrite Hrun. eauto.
Qed.

Lemma rule4_scan_total :
  forall (n i : nat) (run_start : option nat) (run_len : nat) (flat : list Row) g,
    (i + n = length flat)%nat -> (run_len <= i)%nat ->
    run_start = (if (run_len =? 0)%nat then None else Some (i - run_len)%nat) ->
    exists flat' g', rule4_scan n i run_start run_len flat g = Ok (flat', g').
Proof.
  induction n as [|n IH]; intros i run_start run_len flat g Hlen Hle Hstart;
    cbn [rule4_scan].
  - destruct (4 <=? run_len)%nat eqn:E4; [|eauto].
    apply Nat.leb_le in E4.
    destruct (run_len =? 0)%nat eqn:E0; [apply Nat.eqb_eq in E0; lia|].
    subst run_start. change (default i (Some (i - run_len)%nat)) with (i - run_len)%nat.
    destruct (smooth_run_total flat (i - run_len) run_len g ltac:(lia)) as (f1 & g1 & H & _).
    eauto.
  - unfold mbind, M_bind.
    destruct (lookup_lt_is_Some_2 flat i) as [row Hrow]; [lia|].
    unfold liftR at 1, flat_get. rewrite Hrow.
    destruct (row_any_pos row && (row_sum row =? 1)).
    + apply IH; [lia | lia |].
      subst run_start. destruct run_len as [|rl]; cbn [Nat.eqb default]; f_equal; lia.
    + assert (Hsmooth : exists flat1 g1,
                 (if (4 <=? run_len)%nat
                  then _smooth_run flat (default i run_start) run_len
                  else mret flat) g = Ok (flat1, g1) /\ length flat1 = length flat).
      { destruct (4 <=? run_len)%nat eqn:E4; [|exists flat, g; split; reflexivity].
        apply Nat.leb_le in E4.
        destruct (run_len =? 0)%nat eqn:E0; [apply Nat.eqb_eq in E0; lia|].
        subst run_start. change (default i (Some (i - run_len)%nat)) with (i - run_len)%nat.
        apply smooth_run_total. lia. }
      destruct Hsmooth as (flat1 & g1 & -> & Hlen1).
      apply IH; [lia | lia | reflexivity].
Qed.

Lemma rule4_total (measures : Measures) g :
  exists measures' g', rule4 measures g = Ok (measures', g').
Proof.
  unfold rule4, mbind, M_bind.
  destruct (rule4_scan_total (length (concat measures)) 0 None 0 (concat measures) g
              ltac:(lia) ltac:(lia) eq_refl) as (flat' & g1 & ->).
  eauto.
Qed.

Lemma py_div_ok (a b : Q) : ~ b == 0 -> py_div a b = Ok (a / b)%Q.
Proof. intros Hb. unfold py_div. destruct (Qeq_bool b 0) eqn:E; qbool; [contradiction | reflexivity]. Qed.

(** [_postprocess] returns on well-formed measures. *)
Lemma postprocess_total (az : AudioAnalyzer) (measures : Measures) (sd : Z) (cfg : Config) g :
  analysis_ok az -> sd <> 0 -> measures_ok measures ->
  exists measures' g', _postprocess az measures sd cfg g = Ok (measures', g').
Proof.
  intros (Hbpm & _ & Hrms) Hsd Hok. unfold _postprocess, mbind, M_bind.
  rewrite (py_div_ok _ _ Hbpm). unfold liftR at 1.
  rewrite py_div_ok.
  2:{ unfold Qeq. simpl. lia. }
  unfold liftR at 1.
  set (spr := (4 * 60.0 / bpm az / inject_Z sd)%Q).
  destruct (for_measures_total (rule1_body az sd spr (first_downbeat az))
              (fun m r s row g => rule1_body_total az sd spr _ m r s row g Hrms)
              measures 0 tt g) as (m1 & u & g1 & H1).
  rewrite H1.
  assert (Hok1 : measures_ok m1).
  { eapply (measures_step_ok (level cfg)); [|exact Hok].
    eapply for_measures_Forall2; [|exact H1]. intros; eapply rule1_body_step; eauto. }
  assert (H2 : exists m2 g2,
             (if level cfg <=? 6
              then (for_measures rule2_body 0 (-1) m1 ≫= fun '(measures, _) => mret measures)
              else mret m1) g1 = Ok (m2, g2) /\ measures_ok m2).
  { destruct (level cfg <=? 6); [|exists m1, g1; split; [reflexivity | exact Hok1]].
    destruct (for_measures_total rule2_body rule2_body_total m1 0 (-1) g1)
      as (m2 & pa & g2 & Hrun).
    exists m2, g2. split; [unfold mbind, M_bind; rewrite Hrun; reflexivity|].
    eapply (measures_step_ok (level cfg)); [|exact Hok1].
    eapply for_measures_Forall2; [|exact Hrun]. intros; eapply rule2_body_step; eauto. }
  unfold mbind, M_bind in H2. destruct H2 as (m2 & g2 & -> & Hok2).
  assert (H3 : exists m3 g3,
             (if 5 <=? level cfg then rule3 az sd spr (first_downbeat az) 0 m2
              else mret m2) g2 = Ok (m3, g3)).
  { destruct (5 <=? level cfg); [|eauto]. apply rule3_total; assumption. }
  destruct H3 as (m3 & g3 & ->).
  assert (H4 : exists m4 g4,
             (if 8 <=? level cfg then rule4 m3 else mret m3) g3 = Ok (m4, g4)).
  { destruct (8 <=? level cfg); [|eauto]. apply rule4_total. }
  destruct H4 as (m4 & g4 & ->).
  unfold rule5, mbind, M_bind.
  destruct (for_measures_total (rule5_body (level cfg) sd)
              (fun m r s row g =>
                 match rule5_body_spec (level cfg) sd m r s row g with
                 | ex_intro _ row' (ex_intro _ s' (ex_intro _ g' (conj H _))) =>
                     ex_intro _ row' (ex_intro _ s' (ex_intro _ g' H))
                 end)
              m4 0 (-999) g4) as (m5 & last & g5 & ->).
  eauto.
Qed.


Lemma config_of_cases (name : string) (cfg : Config) :
  config_of name = Ok cfg ->
  cfg = Beginner \/ cfg = Easy \/ cfg = Medium \/ cfg = Hard \/ cfg = Challenge.
Proof.
  unfold config_of, CONFIGS. simpl.
  repeat (destruct (String.eqb name _); [intros [= <-]; tauto|]).
  discriminate.
Qed.

Lemma config_of_grid (name : string) (cfg : Config) :
  config_of name = Ok cfg -> 0 < subdiv cfg /\ beat_skip cfg <> 0.
Proof.
  intros H. apply config_of_cases in H as [-> | [-> | [-> | [-> | ->]]]]; simpl; lia.
Qed.

Lemma density_cap_total (max_notes : Z) (X : gset Z) :
  max_notes <> 0 -> exists X', density_cap max_notes X = Ok X'.
Proof.
  intros Hne. destruct (Z_lt_le_dec max_notes (Z.of_nat (size X))) as [Hlt | Hge].
  - destruct (Z_lt_le_dec 0 max_notes) as [Hpos | Hneg].
    + destruct (density_cap_exact max_notes X ltac:(lia)) as (X' & H & _). eauto.
    + unfold density_cap. rewrite (proj2 (Z.ltb_lt _ _) Hlt).
      rewrite py_div_ok by (unfold Qeq; simpl; lia). cbn [mbind result_bind].
      unfold py_range. replace (Z.to_nat max_notes) with 0%nat by lia. simpl. eauto.
  - unfold density_cap. rewrite (proj2 (Z.ltb_ge _ _) Hge). eauto.
Qed.

(** With a cap of 0 and an eligible row, the stride [len(lst) / max_notes]
    divides by zero. *)
Lemma density_cap_zero_raises (X : gset Z) :
  X <> ∅ -> density_cap 0 X = Raise ZeroDivisionError.
Proof.
  intros Hne. unfold density_cap.
  assert (Hsize : (size X <> 0)%nat).
  { intros E. apply size_empty_inv in E. apply Hne. apply leibniz_equiv, E. }
  rewrite (proj2 (Z.ltb_lt 0 (Z.of_nat (size X)))) by lia. reflexivity.
Qed.

Lemma Forall_concat_inv {A} (P : A -> Prop) (ls : list (list A)) :
  Forall P (concat ls) -> Forall (Forall P) ls.
Proof.
  induction ls as [|l ls IH]; simpl; intros H; [constructor|].
  apply Forall_app in H as [H1 H2]. constructor; auto.
Qed.

Lemma built_measures_ok az cfg offset spr note_grid ms prev measures g g' :
  0 < subdiv cfg ->
  build_measures az cfg offset spr note_grid ms prev g = Ok (measures, g') ->
  measures_ok measures.
Proof.
  intros Hsd H. apply build_measures_spec in H as [Hbuilt Hshape].
  apply built_rows_wf in Hbuilt.
  assert (Hwf : Forall (Forall row_wf) measures).
  { apply Forall_concat_inv. eapply Forall_impl; [exact Hbuilt|]. intros r [Hr _]. exact Hr. }
  unfold measures_ok. apply Forall_forall. intros meas Hin.
  split.
  - pose proof (proj1 (Forall_forall _ _) Hshape meas Hin) as Hlen. simpl in Hlen.
    pose proof (py_range_length (subdiv cfg)) as Hrange.
    intros ->. simpl in Hlen. lia.
  - exact (proj1 (Forall_forall _ _) Hwf meas Hin).
Qed.

(** [generate_chart] returns a chart for each of the five difficulties
    when the analysis is well formed and the density cap is not 0. *)
Lemma generate_chart_returns (az : AudioAnalyzer) (name : string) (cfg : Config) g :
  analysis_ok az -> config_of name = Ok cfg ->
  py_int (duration az * max_nps cfg) <> 0 ->
  exists chart g', generate_chart az name g = Ok (chart, g').
Proof.
  intros Haz Hcfg Hcap. pose proof Haz as (Hbpm & Hmel & Hrms).
  destruct (config_of_grid name cfg Hcfg) as [Hsd Hskip].
  unfold generate_chart, mbind, M_bind. unfold liftR at 1. rewrite Hcfg.
  unfold generate_chart_with, mbind, M_bind.
  rewrite (py_div_ok _ _ Hbpm). unfold liftR at 1.
  rewrite py_div_ok by (unfold Qeq; simpl; lia). unfold liftR at 1.
  assert (Hspm : ~ 4 * 60.0 / bpm az == 0).
  { intros E. assert (E2 : 4 * 60.0 == 4 * 60.0 / bpm az * bpm az) by (field; exact Hbpm).
    rewrite E in E2. vm_compute in E2. discriminate E2. }
  rewrite (py_div_ok _ _ Hspm). unfold liftR at 1.
  assert (Hstride : exists beats, py_stride (beat_times az) (beat_skip cfg) = Ok beats).
  { unfold py_stride. rewrite (proj2 (Z.eqb_neq _ _) Hskip).
    destruct (0 <? beat_skip cfg); eauto. }
  destruct Hstride as [beats ->]. unfold liftR at 1.
  set (spr := (4 * 60.0 / bpm az / inject_Z (subdiv cfg))%Q).
  destruct (density_cap_total (max_notes_of az cfg)
              (eligible_rows az cfg (first_downbeat az) spr beats) Hcap) as [note_grid ->].
  unfold liftR at 1.
  set (n_meas := Qceiling ((duration az - first_downbeat az) / (4 * 60.0 / bpm az)) + 1).
  destruct (build_measures_total az cfg (first_downbeat az) spr note_grid Hmel
              (py_range n_meas) [] g) as (built & g1 & Hbuilt).
  rewrite Hbuilt.
  destruct (postprocess_total az built (subdiv cfg) cfg g1 Haz ltac:(lia)
              (built_measures_ok _ _ _ _ _ _ _ _ _ _ Hsd Hbuilt)) as (processed & g2 & ->).
  eauto.
Qed.


(** ** Further properties of the grid and the trimmed chart *)

(** Onsets that are all below the strength threshold add no eligible
    row. *)
Lemma weak_onsets_mark_nothing (az : AudioAnalyzer) (cfg : Config) (offset spr : Q)
    (note_grid : gset Z) :
  Forall (fun os_ => (os_ < onset_thresh cfg)%Q) (onset_strengths az) ->
  mark_onsets az cfg offset spr note_grid = note_grid.
Proof.
  unfold mark_onsets. generalize (onset_times az). generalize (onset_strengths az).
  intros strengths. revert note_grid.
  induction strengths as [|os_ strengths IH]; intros note_grid times Hweak.
  - destruct times; reflexivity.
  - destruct times as [|ot times]; [reflexivity|].
    apply Forall_cons in Hweak as [Hos Hweak]. simpl.
    assert (E : Qle_bool (onset_thresh cfg) os_ = false) by (apply Qle_bool_false; exact Hos).
    rewrite E. simpl. apply IH, Hweak.
Qed.

Lemma build_measures_length az cfg offset spr note_grid : forall ms prev measures g g',
  build_measures az cfg offset spr note_grid ms prev g = Ok (measures, g') ->
  length measures = length ms.
Proof.
  induction ms as [|m ms IH]; intros prev measures g g' H; simpl in H.
  - apply mret_Ok in H as [-> _]. reflexivity.
  - apply M_bind_Ok in H as ([mrows prev1] & g1 & _ & H).
    apply M_bind_Ok in H as (rest & g2 & Hrest & H).
    apply mret_Ok in H as [-> _]. simpl. f_equal. eapply IH, Hrest.
Qed.

Lemma pop_empty_nonempty (rev_measures : Measures) :
  rev_measures <> [] -> pop_empty rev_measures <> [].
Proof.
  induction rev_measures as [|meas rest IH]; [congruence|]. intros _. simpl.
  destruct rest as [|meas2 rest2]; [discriminate|].
  destruct (measure_empty meas); [apply IH; discriminate | discriminate].
Qed.

Lemma trim_trailing_nonempty (measures : Measures) :
  measures <> [] -> trim_trailing measures <> [].
Proof.
  intros Hne. unfold trim_trailing. intros E.
  apply (f_equal (@rev _)) in E. rewrite rev_involutive in E. simpl in E.
  apply (pop_empty_nonempty (rev measures)); [|exact E].
  intros E2. apply Hne. rewrite <- (rev_involutive measures), E2. reflexivity.
Qed.

Lemma liftR_py_div_Ok (a b x : Q) g g' :
  liftR (py_div a b) g = Ok (x, g') -> x = (a / b)%Q /\ ~ b == 0.
Proof.
  intros H. apply liftR_Ok in H as [H _]. unfold py_div in H.
  destruct (Qeq_bool b 0) eqn:E; [discriminate|]. qbool. injection H as <-. auto.
Qed.

(** A chart keeps at least one measure when the downbeat is not after the
    end of the track and the BPM is positive. *)
Lemma chart_keeps_a_measure (az : AudioAnalyzer) (name : string) (chart : Chart) g g' :
  (0 < bpm az)%Q -> (first_downbeat az <= duration az)%Q ->
  generate_chart az name g = Ok (chart, g') ->
  chart_measures chart <> [].
Proof.
  intros Hbpm Hoff H. apply generate_chart_inv in H as (cfg & _ & H).
  unfold generate_chart_with in H.
  apply M_bind_Ok in H as (spm & g1 & Hspm & H). apply liftR_py_div_Ok in Hspm as [-> _].
  apply M_bind_Ok in H as (spr & g2 & _ & H).
  apply M_bind_Ok in H as (x & g3 & Hx & H). apply liftR_py_div_Ok in Hx as [-> _].
  apply M_bind_Ok in H as (beats & g4 & _ & H).
  apply M_bind_Ok in H as (note_grid & g5 & _ & H).
  apply M_bind_Ok in H as (built & g6 & Hbuilt & H).
  apply M_bind_Ok in H as (processed & g7 & Hpost & H).
  apply mret_Ok in H as [-> _]. cbn [chart_measures].
  apply trim_trailing_nonempty.
  apply build_measures_length in Hbuilt. apply postprocess_step in Hpost.
  apply Forall2_length in Hpost.
  assert (Hx : (0 <= (duration az - first_downbeat az) / (4 * 60.0 / bpm az))%Q).
  { assert (Hspm : (0 < 4 * 60.0 / bpm az)%Q) by (apply Qlt_shift_div_l; [exact Hbpm | lra]).
    apply Qle_shift_div_l; [exact Hspm | lra]. }
  assert (Hceil : 0 <= Qceiling ((duration az - first_downbeat az) / (4 * 60.0 / bpm az))).
  { rewrite <- (Qceiling_Z 0). apply Qceiling_resp_le. exact Hx. }
  pose proof (py_range_length
                (Qceiling ((duration az - first_downbeat az) / (4 * 60.0 / bpm az)) + 1)).
  intros ->. simpl in Hpost. lia.
Qed.


End GeneratorProofs.

(** * Further properties of the analysis *)

(** ** Onsets *)

Lemma np_take_length {A} (a : list A) (idx : list Z) : forall xs,
  np_take a idx = Ok xs -> length xs = length idx.
Proof.
  induction idx as [|i idx IH]; intros xs H; simpl in H.
  - injection H as <-. reflexivity.
  - apply result_bind_Ok in H as (x & _ & H). apply result_bind_Ok in H as (xs' & Hxs & H).
    injection H as <-. simpl. f_equal. apply IH, Hxs.
Qed.

Lemma config_thresh_le_1 (name : string) (cfg : Config) :
  config_of name = Ok cfg -> (onset_thresh cfg <= 1)%Q.
Proof.
  intros H. apply config_of_cases in H as [-> | [-> | [-> | [-> | ->]]]]; simpl; lra.
Qed.

(** [detect_onsets] keeps one time and one strength per detected frame.
    When some onset has a positive strength, the strengths are at most 1
    and the strongest is exactly 1, so that at least one onset reaches the
    onset threshold of every difficulty. *)
Theorem detect_onsets_normalised (sr : Z) (env : list Q) (frames : list Z)
    (times strengths : list Q) :
  detect_onsets sr env frames = Ok (times, strengths) ->
  length times = length frames /\ length strengths = length frames /\
  (Exists (fun s => (0 < s)%Q) strengths ->
   Forall (fun s => (s <= 1)%Q) strengths /\
   Exists (fun s => s == 1) strengths /\
   forall name cfg, config_of name = Ok cfg ->
     Exists (fun s => (onset_thresh cfg <= s)%Q) strengths).
Proof.
  unfold detect_onsets. intros H.
  apply result_bind_Ok in H as (raw & Hraw & H).
  apply result_bind_Ok in H as (mx & Hmx & H).
  injection H as <- <-.
  assert (Hlen : length raw = length frames).
  { destruct frames; [injection Hraw as <-; reflexivity | eapply np_take_length, Hraw]. }
  split; [apply length_map|].
  split; [destruct (Qltb 0 mx); [rewrite length_map|]; exact Hlen|].
  intros Hpos.
  destruct raw as [|x raw'].
  { destruct (Qltb 0 mx); simpl in Hpos; inversion Hpos. }
  apply np_max_spec in Hmx as [Hin Hall].
  destruct (Qltb 0 mx) eqn:E; qbool.
  2:{ exfalso. apply Exists_exists in Hpos as (s & Hs & Hs0).
      specialize (Hall s Hs). lra. }
  assert (Hone : Exists (fun s => s == 1) (map (fun v => (v / mx)%Q) (x :: raw'))).
  { apply Exists_exists. exists (mx / mx)%Q. split.
    - apply list_elem_of_In, in_map_iff. exists mx. split; [reflexivity|].
      apply list_elem_of_In, Hin.
    - field. lra. }
  split; [|split; [exact Hone|]].
  - apply Forall_forall. intros s Hs.
    apply list_elem_of_In, in_map_iff in Hs as (v & <- & Hv). apply list_elem_of_In in Hv.
    apply Qle_shift_div_r; [exact E|]. specialize (Hall v Hv). lra.
  - intros name cfg Hcfg. pose proof (config_thresh_le_1 name cfg Hcfg) as Hth.
    eapply Exists_impl; [exact Hone|]. intros s Hs. simpl in Hs. rewrite Hs. exact Hth.
Qed.

(** ** RMS energy at a time *)

(** On a non-empty envelope of non-negative values [get_rms_at] returns,
    for every time (also a negative one or one past the end), a value
    between 0 and 1. *)
Theorem get_rms_at_unit (az : AudioAnalyzer) (t : Q) (l : list Q) :
  rms az = Some l -> l <> [] -> Forall (fun v => (0 <= v)%Q) l ->
  exists energy, get_rms_at az t = Ok energy /\ (0 <= energy <= 1)%Q.
Proof.
  intros Hrms Hne Hpos. unfold get_rms_at. rewrite Hrms.
  destruct (np_max l) as [peak|e] eqn:Hpeak.
  2:{ destruct l; [congruence | discriminate]. }
  cbn [mbind result_bind].
  destruct (Qltb 0 peak) eqn:E; qbool.
  2:{ exists 0%Q. split; [reflexivity | lra]. }
  assert (Hlen : 0 < Z.of_nat (length l)) by (destruct l; [congruence | simpl; lia]).
  destruct (py_index_ok l (np_clip (time_to_frames t (sr az) 512) 0 (Z.of_nat (length l) - 1))
              (np_clip_range _ _ Hlen)) as (v & Hv & Hlook).
  rewrite Hv. cbn [mbind result_bind]. exists (v / peak)%Q. split; [reflexivity|].
  apply list_elem_of_lookup_2 in Hlook.
  apply np_max_spec in Hpeak as [_ Hall]. specialize (Hall v Hlook).
  pose proof (proj1 (Forall_forall _ _) Hpos v Hlook) as Hv0. simpl in Hv0.
  split.
  - apply Qle_shift_div_l; [exact E | lra].
  - apply Qle_shift_div_r; [exact E | lra].
Qed.

(** ** The tempo window of the beat tracker *)

(** The window [max(40, bpm - 30) .. min(240, bpm + 30)] handed to madmom's
    beat tracker is a proper interval exactly for a BPM between 10 and
    270. *)
Theorem tracker_window_ordered (bpm : Q) :
  ((tracker_window bpm).1 <= (tracker_window bpm).2)%Q <-> (10 <= bpm <= 270)%Q.
Proof.
  unfold tracker_window, py_max, py_min. simpl.
  destruct (Qltb 40 (bpm - 30)) eqn:E1; destruct (Qltb (bpm + 30) 240) eqn:E2; qbool;
    split; intros H; try split; try lra.
Qed.

(** ** Manual BPM *)

Lemma Qfloor_unit (x : Q) : (0 <= x)%Q -> (x < 1)%Q -> Qfloor x = 0.
Proof.
  intros H0 H1.
  assert (Hlo : 0 <= Qfloor x) by (rewrite <- (Qfloor_Z 0); apply Qfloor_resp_le, H0).
  assert (Hhi : Qfloor x < 1).
  { rewrite Zlt_Qlt. eapply Qle_lt_trans; [apply Qfloor_le | exact H1]. }
  lia.
Qed.

Lemma py_round_zero (x : Q) : (0 <= x)%Q -> (py_round x = 0 <-> (x <= 1 # 2)%Q).
Proof.
  intros H0. split.
  - intros E. pose proof (py_round_near x) as Hn. rewrite E in Hn.
    apply Qabs_Qle_condition in Hn. change (inject_Z 0) with 0%Q in Hn. lra.
  - intros Hx. unfold py_round. rewrite (Qfloor_unit x H0) by lra.
    change (inject_Z 0) with 0%Q.
    destruct (Qltb (x - 0) (1 # 2)) eqn:E1; [reflexivity|].
    destruct (Qltb (1 # 2) (x - 0)) eqn:E2; qbool; [lra | reflexivity].
Qed.

(** An override that the front end accepts (above 0, at most 300) is the
    tempo both backends use: the stored BPM is its snapped value, which lies
    between 0 and 300 and is 0 exactly when the override is at most 0.25. *)
Theorem accepted_override_bpm (HAS_MADMOM : bool) (b : Q)
    (tempi : result (list (Q * Q))) (estimate : result Q) :
  bpm_override_accepted b = true ->
  detect_bpm HAS_MADMOM (Some b) tempi estimate = Ok (snap_bpm b) /\
  (0 <= snap_bpm b <= 300)%Q /\
  (snap_bpm b == 0 <-> (b <= 1 # 4)%Q).
Proof.
  unfold bpm_override_accepted. intros H. apply negb_true_iff, orb_false_iff in H as [H1 H2].
  qbool.
  assert (Huse : use_override (Some b) = Some b).
  { unfold use_override.
    destruct (Qeq_bool b 0) eqn:E0; qbool; [lra|].
    destruct (Qltb 0 b) eqn:E1; qbool; [reflexivity | lra]. }
  split; [|split].
  - unfold detect_bpm, chosen_bpm_madmom, chosen_bpm_librosa. rewrite Huse.
    destruct HAS_MADMOM; reflexivity.
  - unfold snap_bpm. apply (round_div_range (b * 2) 0 300 2); [lia | |].
    + change (inject_Z (0 * 2)) with 0%Q. lra.
    + change (inject_Z (300 * 2)) with 600%Q. lra.
  - unfold snap_bpm. pose proof (py_round_zero (b * 2) ltac:(lra)) as Hz. split.
    + intros E.
      assert (E2 : inject_Z (py_round (b * 2)) == 0).
      { assert (E3 : inject_Z (py_round (b * 2)) == inject_Z (py_round (b * 2)) / 2 * 2)
          by (field). rewrite E3, E. reflexivity. }
      assert (E4 : py_round (b * 2) = 0) by (unfold Qeq in E2; simpl in E2; lia).
      apply Hz in E4. lra.
    + intros Hb. rewrite (proj2 Hz) by lra. reflexivity.
Qed.

(** Snapping moves a tempo by at most a quarter BPM. *)
Theorem snap_bpm_near (b : Q) : (Qabs (snap_bpm b - b) <= 1 # 4)%Q.
Proof.
  unfold snap_bpm. pose proof (py_round_near (b * 2)) as H.
  apply Qabs_Qle_condition in H. apply Qabs_Qle_condition.
  destruct H as [H1 H2]. generalize dependent (inject_Z (py_round (b * 2))). intros r H1 H2.
  assert (E : r / 2 == r * (1 # 2)) by (field).
  rewrite E. split; lra.
Qed.

(** ** The estimator without a candidate in range *)

Lemma add_variants_out (t : Q) (s : list Q) :
  (t < 30 \/ 400 < t)%Q -> add_variants s t = s.
Proof.
  intros Ht. unfold add_variants, octave_mults. cbn [fold_left].
  repeat match goal with
  | |- context [Qle_bool 60 ?v && Qle_bool ?v 200] =>
      let E := fresh "E" in
      destruct (Qle_bool 60 v && Qle_bool v 200) eqn:E;
        [apply andb_true_iff in E as [? ?]; qbool; exfalso; lra | clear E]
  end.
  reflexivity.
Qed.

Lemma octave_candidates_out (raw : list Q) :
  Forall (fun t => (t < 30 \/ 400 < t)%Q) raw -> octave_candidates raw = [].
Proof.
  unfold octave_candidates. generalize (@nil Q) as s.
  induction raw as [|t raw IH]; intros s Hall; [reflexivity|].
  apply Forall_cons in Hall as [Ht Hall]. simpl. rewrite (add_variants_out t s Ht).
  apply IH, Hall.
Qed.

Lemma tempogram_peaks_out (tempo3 : list Q) :
  Forall (fun t => ~ (40 < t /\ t < 240)%Q) tempo3 ->
  filter (fun t => Qltb 40 t && Qltb t 240) tempo3 = [].
Proof.
  induction 1 as [|t l Ht _ IH]; [reflexivity|].
  rewrite filter_cons, IH.
  destruct (decide (Qltb 40 t && Qltb t 240)) as [E | E]; [|reflexivity].
  exfalso. apply Ht. apply Is_true_true, andb_true_iff in E as [E1 E2]. qbool. split; assumption.
Qed.

(** When the three [beat_track] tempi are below 30 or above 400 and the
    tempogram has no peak strictly between 40 and 240, no octave variant
    lies in [60, 200]: the only candidate is [round(t1, 2)].  The estimator
    returns it as it is, outside [60, 200], and it raises
    [ZeroDivisionError] when that candidate is 0. *)
Theorem estimate_bpm_fallback (iter_order : list Q -> list Q)
    (t1 t2 t4 : Q) (tempo3 onsets : list Q) :
  (forall l, Permutation (iter_order l) l) ->
  Forall (fun t => (t < 30 \/ 400 < t)%Q) [t1; t2; t4] ->
  Forall (fun t => ~ (40 < t /\ t < 240)%Q) tempo3 ->
  _estimate_bpm_multimethod iter_order t1 t2 t4 tempo3 onsets =
    if Qeq_bool (py_round2 t1) 0 then Raise ZeroDivisionError else Ok (py_round2 t1).
Proof.
  intros Hperm Hout Hpeaks. unfold _estimate_bpm_multimethod.
  assert (Hset : candidate_set t1 t2 t4 tempo3 = [py_round2 t1]).
  { unfold candidate_set. rewrite (tempogram_peaks_out tempo3 Hpeaks), app_nil_r.
    rewrite (octave_candidates_out _ Hout). reflexivity. }
  rewrite Hset.
  assert (Horder : iter_order [py_round2 t1] = [py_round2 t1]).
  { apply Permutation_length_1_inv. symmetry. apply Hperm. }
  rewrite Horder. cbn [best_candidate].
  destruct (Qeq_bool (py_round2 t1) 0) eqn:E0.
  - unfold candidate_score, py_div. rewrite E0. reflexivity.
  - qbool. destruct (candidate_score_ok onsets (py_round2 t1) E0) as (s & Hs & Hpos).
    rewrite Hs. cbn [mbind result_bind].
    assert (E : Qltb (-1) s = true) by (apply Qltb_lt; lra).
    rewrite E. reflexivity.
Qed.

(** ** The librosa backend *)

Lemma keep_beats_ge (music_start : Q) (all_beat_times : list Q) :
  Forall (fun t => (music_start <= t)%Q) (keep_beats music_start all_beat_times).
Proof.
  unfold keep_beats. apply Forall_forall. intros t Ht.
  apply list_elem_of_filter in Ht as [Ht _]. apply Is_true_true in Ht. qbool. exact Ht.
Qed.

(** What [_detect_with_librosa] leaves behind when it returns: a BPM that
    is a multiple of 0.5, the music start unchanged, and no beat before the
    music start.  Without beats the first downbeat is 0.  With beats and a
    positive BPM the first downbeat is at most one of the first four beats
    and at least the music start minus a quarter beat. *)
Theorem detect_with_librosa_invariants (az : AudioAnalyzer) (bpm_override : option Q)
    (estimate : result Q) (beat_track : Q -> list Q) (onset_env bass_energy : list Q)
    (az' : AudioAnalyzer) :
  _detect_with_librosa az bpm_override estimate beat_track onset_env bass_energy
    = Returns az' ->
  (exists k : Z, bpm az' == inject_Z k / 2) /\
  music_start az' = music_start az /\
  Forall (fun t => (music_start az <= t)%Q) (beat_times az') /\
  (beat_times az' = [] -> first_downbeat az' = 0%Q) /\
  (beat_times az' <> [] -> (0 < bpm az')%Q ->
   (music_start az - 60 / bpm az' * 0.25 <= first_downbeat az')%Q /\
   exists (i : nat) t,
     (i < 4)%nat /\ beat_times az' !! i = Some t /\ (first_downbeat az' <= t)%Q).
Proof.
  unfold _detect_with_librosa. intros H.
  destruct (chosen_bpm_librosa bpm_override estimate) as [b|e]; [|discriminate].
  set (az1 := {| sr := sr az; duration := duration az; bpm := snap_bpm b;
                 beat_times := keep_beats (music_start az) (beat_track (snap_bpm b));
                 onset_times := onset_times az; onset_strengths := onset_strengths az;
                 mel_spec := mel_spec az; n_mels := n_mels az;
                 music_start := music_start az; first_downbeat := first_downbeat az;
                 rms := rms az |}) in *.
  destruct (_detect_downbeat_from_beat_strengths az1 onset_env bass_energy) as [t| |] eqn:Hdb;
    [|discriminate|discriminate].
  injection H as <-. cbn [bpm music_start beat_times first_downbeat].
  pose proof (keep_beats_ge (music_start az) (beat_track (snap_bpm b))) as Hbeats.
  split; [apply snap_bpm_half|]. split; [reflexivity|]. split; [exact Hbeats|].
  unfold _detect_downbeat_from_beat_strengths in Hdb.
  change (beat_times az1) with (keep_beats (music_start az) (beat_track (snap_bpm b))) in Hdb.
  change (bpm az1) with (snap_bpm b) in Hdb.
  change (music_start az1) with (music_start az) in Hdb.
  set (beats := keep_beats (music_start az) (beat_track (snap_bpm b))) in *.
  destruct (length beats <? 8)%nat eqn:E8.
  - destruct beats as [|t0 beats'] eqn:Eb.
    + injection Hdb as <-. split; [reflexivity|]. intros Hne. congruence.
    + injection Hdb as <-. split; [discriminate|]. intros _ Hbpm.
      apply Forall_cons in Hbeats as [Ht0 _].
      assert (Hq : (0 < 60 / snap_bpm b)%Q) by (apply Qlt_shift_div_l; [exact Hbpm | lra]).
      split; [lra|]. exists 0%nat, t0. split; [lia|]. split; [reflexivity | apply Qle_refl].
  - apply Nat.ltb_ge in E8.
    split; [intros E; rewrite E in E8; simpl in E8; lia|]. intros _ Hbpm.
    destruct (chosen_phase az1 onset_env bass_energy) as [p|e] eqn:Hphase; [|discriminate].
    pose proof (chosen_phase_range _ _ _ _ Hphase) as Hrange.
    destruct (py_index beats p) as [fd|e] eqn:Hfd; [|discriminate].
    assert (Hlook : beats !! Z.to_nat p = Some fd).
    { destruct (py_index_ok beats p ltac:(lia)) as (x & Hx & Hl). congruence. }
    unfold py_div in Hdb.
    destruct (Qeq_bool (snap_bpm b) 0) eqn:E0; [discriminate|].
    set (beat_period := (60 / snap_bpm b)%Q) in *.
    assert (Hbp : (0 < beat_period)%Q) by (apply Qlt_shift_div_l; [exact Hbpm | lra]).
    set (m := (4 * beat_period)%Q) in *.
    set (lo := (music_start az - beat_period * 0.25)%Q) in *.
    assert (Hm : (0 < m)%Q) by (unfold m; lra).
    destruct (walk_back_spec m lo (walk_fuel m lo fd) fd Hm (walk_fuel_enough m lo fd Hm))
      as (k & t' & Hrun & Ht' & Hlt & Hge).
    rewrite Hrun in Hdb. injection Hdb as <-.
    pose proof (proj1 (Forall_forall _ _) Hbeats fd (list_elem_of_lookup_2 _ _ _ Hlook)) as Hfd0.
    simpl in Hfd0.
    assert (Hk : (0 <= inject_Z (Z.of_nat k) * m)%Q).
    { apply Qmult_le_0_compat; [|lra]. change 0%Q with (inject_Z 0). rewrite <- Zle_Qle. lia. }
    split.
    + destruct k as [|k]; [|apply Hge; lia].
      change (inject_Z (Z.of_nat 0)) with 0%Q in Ht'. unfold lo. lra.
    + exists (Z.to_nat p), fd. split; [lia|]. split; [exact Hlook | lra].
Qed.

(** ** The downbeat of the madmom backend *)

(** A row of the downbeat tracker that may give the first downbeat. *)
Definition valid_downbeat (az : AudioAnalyzer) (r : Q * Z) : Prop :=
  r.2 = 1 /\ (music_start az - 0.1 <= r.1)%Q.

(** Of the rows that madmom's downbeat tracker returns, the first one with
    beat number 1 and a time of at least [music_start - 0.1] gives the first
    downbeat; rows before it are skipped.  When there is no such row, or the
    tracker raised, accent analysis decides. *)
Theorem madmom_downbeat_first_valid (az : AudioAnalyzer) (info : list (Q * Z))
    (onset_env bass_energy : list Q) :
  (exists pre t post,
      info = pre ++ (t, 1) :: post /\ (music_start az - 0.1 <= t)%Q /\
      Forall (fun r => ~ valid_downbeat az r) pre /\
      madmom_downbeat az (Ok info) onset_env bass_energy = Returns t) \/
  (Forall (fun r => ~ valid_downbeat az r) info /\
   madmom_downbeat az (Ok info) onset_env bass_energy =
     _detect_downbeat_from_beat_strengths az onset_env bass_energy).
Proof.
  unfold madmom_downbeat, valid_downbeat.
  induction info as [|[t n] info IH].
  - right. split; [constructor | reflexivity].
  - rewrite filter_cons.
    destruct (decide (Is_true ((t, n).2 =? 1))) as [En | En]; simpl in En.
    + apply Is_true_true, Z.eqb_eq in En. subst n. rewrite filter_cons.
      destruct (decide (Is_true (Qle_bool (music_start az - 0.1) (t, 1).1))) as [Et | Et];
        simpl in Et.
      * apply Is_true_true in Et. qbool. left. exists [], t, info.
        split; [reflexivity|]. split; [exact Et|]. split; [constructor | reflexivity].
      * destruct IH as [(pre & t' & post & -> & Ht' & Hpre & Hrun) | [Hnone Hrun]].
        -- left. exists ((t, 1) :: pre), t', post. split; [reflexivity|].
           split; [exact Ht'|]. split; [|exact Hrun].
           constructor; [|exact Hpre]. intros [_ Hv]. simpl in Hv.
           apply Et, Is_true_true, Qle_bool_iff, Hv.
        -- right. split; [|exact Hrun]. constructor; [|exact Hnone].
           intros [_ Hv]. simpl in Hv. apply Et, Is_true_true, Qle_bool_iff, Hv.
    + destruct IH as [(pre & t' & post & -> & Ht' & Hpre & Hrun) | [Hnone Hrun]].
      * left. exists ((t, n) :: pre), t', post. split; [reflexivity|].
        split; [exact Ht'|]. split; [|exact Hrun].
        constructor; [|exact Hpre]. intros [Hn _]. simpl in Hn.
        apply En, Is_true_true, Z.eqb_eq, Hn.
      * right. split; [|exact Hrun]. constructor; [|exact Hnone].
        intros [Hn _]. simpl in Hn. apply En, Is_true_true, Z.eqb_eq, Hn.
Qed.

(** ** The dominant band *)

Lemma argmax_from_spec (l : list Q) : forall (pre : list Q) (best : Q) (best_i : nat),
  pre !! best_i = Some best ->
  (forall (j : nat) y, pre !! j = Some y -> (y <= best)%Q) ->
  (forall (j : nat) y, (j < best_i)%nat -> pre !! j = Some y -> (y < best)%Q) ->
  exists (k : nat) x,
    argmax_from best (Z.of_nat best_i) (Z.of_nat (length pre)) l = Z.of_nat k /\
    (pre ++ l) !! k = Some x /\
    (forall (j : nat) y, (pre ++ l) !! j = Some y -> (y <= x)%Q) /\
    (forall (j : nat) y, (j < k)%nat -> (pre ++ l) !! j = Some y -> (y < x)%Q).
Proof.
  induction l as [|x l IH]; intros pre best best_i Hbest Hall Hfirst.
  - exists best_i, best. rewrite app_nil_r. simpl. auto.
  - cbn [argmax_from].
    replace (Z.of_nat (length pre) + 1) with (Z.of_nat (length (pre ++ [x])))
      by (rewrite length_app; simpl; lia).
    replace (pre ++ x :: l) with ((pre ++ [x]) ++ l) by (rewrite <- app_assoc; reflexivity).
    destruct (Qltb best x) eqn:E; qbool.
    + apply IH.
      * apply list_lookup_middle. reflexivity.
      * intros j y Hy. apply lookup_app_Some in Hy as [Hy | [_ Hy]].
        -- specialize (Hall j y Hy). lra.
        -- apply list_lookup_singleton_Some in Hy as [_ <-]. apply Qle_refl.
      * intros j y Hj Hy. rewrite lookup_app_l in Hy by exact Hj.
        specialize (Hall j y Hy). lra.
    + apply IH.
      * apply lookup_app_l_Some, Hbest.
      * intros j y Hy. apply lookup_app_Some in Hy as [Hy | [_ Hy]].
        -- exact (Hall j y Hy).
        -- apply list_lookup_singleton_Some in Hy as [_ <-]. exact E.
      * intros j y Hj Hy. apply lookup_lt_Some in Hbest.
        rewrite lookup_app_l in Hy by lia. exact (Hfirst j y Hj Hy).
Qed.

Lemma np_argmax_spec (l : list Q) :
  l <> [] ->
  exists (k : nat) x,
    np_argmax l = Z.of_nat k /\ l !! k = Some x /\
    (forall (j : nat) y, l !! j = Some y -> (y <= x)%Q) /\
    (forall (j : nat) y, (j < k)%nat -> l !! j = Some y -> (y < x)%Q).
Proof.
  destruct l as [|x l]; [congruence|]. intros _.
  apply (argmax_from_spec l [x] x 0%nat).
  - reflexivity.
  - intros [|j] y Hy; simpl in Hy; [injection Hy as <-; apply Qle_refl | discriminate].
  - intros j y Hj. lia.
Qed.

(** The mean energy of band [i] in one spectrogram column. *)
Definition band_energy (az : AudioAnalyzer) (spec : list Q) (i : Z) : Q :=
  np_mean (py_slice spec (i * (n_mels az `div` 4))
                    (if i <? 3 then (i + 1) * (n_mels az `div` 4) else n_mels az)).

(** On a spectrogram with at least one frame and columns of [n_mels >= 4]
    values, [get_dominant_band] returns, for every time, a band from 0 to 3
    of the column at the clipped frame: one whose mean energy is largest,
    and the lowest such band. *)
Theorem get_dominant_band_loudest (az : AudioAnalyzer) (t : Q) :
  mel_spec az <> [] -> 4 <= n_mels az ->
  Forall (fun col => Z.of_nat (length col) = n_mels az) (mel_spec az) ->
  exists spec band,
    mel_spec az !! Z.to_nat (np_clip (time_to_frames t (sr az) 512) 0
                                     (Z.of_nat (length (mel_spec az)) - 1)) = Some spec /\
    get_dominant_band az t = Ok band /\ 0 <= band < 4 /\
    (forall i, 0 <= i < 4 -> (band_energy az spec i <= band_energy az spec band)%Q) /\
    (forall i, 0 <= i < band -> (band_energy az spec i < band_energy az spec band)%Q).
Proof.
  intros Hne _ _. unfold get_dominant_band.
  assert (Hlen : 0 < Z.of_nat (length (mel_spec az))).
  { destruct (mel_spec az); [congruence | simpl; lia]. }
  destruct (py_index_ok (mel_spec az)
              (np_clip (time_to_frames t (sr az) 512) 0 (Z.of_nat (length (mel_spec az)) - 1))
              (np_clip_range _ _ Hlen)) as (spec & Hspec & Hlook).
  rewrite Hspec. cbn [mbind result_bind]. exists spec.
  change (py_range 4) with [0; 1; 2; 3]. cbn [map].
  fold (band_energy az spec 0). fold (band_energy az spec 1).
  fold (band_energy az spec 2). fold (band_energy az spec 3).
  set (energies := [band_energy az spec 0; band_energy az spec 1;
                    band_energy az spec 2; band_energy az spec 3]).
  destruct (np_argmax_spec energies ltac:(discriminate)) as (k & x & Hk & Hx & Hall & Hfirst).
  exists (Z.of_nat k). split; [exact Hlook|]. split; [rewrite Hk; reflexivity|].
  assert (Hk4 : (k < 4)%nat) by (apply lookup_lt_Some in Hx; exact Hx).
  assert (Hget : forall j : nat, (j < 4)%nat ->
                   energies !! j = Some (band_energy az spec (Z.of_nat j))).
  { intros [|[|[|[|j]]]] Hj; try reflexivity. lia. }
  assert (Hxk : x = band_energy az spec (Z.of_nat k)).
  { rewrite (Hget k Hk4) in Hx. congruence. }
  subst x. split; [lia|]. split.
  - intros i Hi. replace i with (Z.of_nat (Z.to_nat i)) by lia.
    apply (Hall (Z.to_nat i)). apply Hget. lia.
  - intros i Hi. replace i with (Z.of_nat (Z.to_nat i)) by lia.
    apply (Hfirst (Z.to_nat i)); [lia|]. apply Hget. lia.
Qed.

(** ** The density cap keeps the earliest row *)

Lemma merge_sort_head_least (l : list Z) (x : Z) (rest : list Z) :
  merge_sort Z.le l = x :: rest -> forall y, y ∈ l -> x <= y.
Proof.
  intros Hsort y Hy.
  assert (Hs : StronglySorted Z.le (merge_sort Z.le l)).
  { apply Sorted_StronglySorted; [intros a b c; apply Z.le_trans|].
    apply Sorted_merge_sort. intros a b. lia. }
  rewrite Hsort in Hs. apply StronglySorted_inv in Hs as [_ Hall].
  assert (Hin : y ∈ x :: rest) by (rewrite <- Hsort, merge_sort_Permutation; exact Hy).
  apply elem_of_cons in Hin as [-> | Hin]; [lia|].
  exact (proj1 (Forall_forall _ _) Hall y Hin).
Qed.

(** When more rows are eligible than the (positive) cap allows, the rows
    that the cap keeps are eligible rows, and the earliest eligible row is
    among them. *)
Theorem density_cap_keeps_earliest (max_notes : Z) (X : gset Z) :
  0 < max_notes < Z.of_nat (size X) ->
  exists X' first,
    density_cap max_notes X = Ok X' /\ X' ⊆ X /\
    first ∈ X' /\ forall y, y ∈ X -> first <= y.
Proof.
  intros Hcap. destruct (density_cap_exact max_notes X Hcap) as (X' & Hrun & _ & Hsub).
  exists X'. pose proof Hrun as Hrun'. unfold density_cap in Hrun'.
  destruct (max_notes <? Z.of_nat (size X)) eqn:E; [|lia].
  set (lst := merge_sort Z.le (elements X)) in *.
  assert (Hlen : length lst = size X).
  { unfold lst. rewrite merge_sort_Permutation. reflexivity. }
  destruct lst as [|first rest] eqn:Elst; [simpl in Hlen; lia|].
  exists first. split; [exact Hrun|]. split; [exact Hsub|]. split.
  - apply result_bind_Ok in Hrun' as (step & Hstep & Hrun').
    apply result_bind_Ok in Hrun' as (picked & Hpicked & Hrun'). injection Hrun' as <-.
    apply elem_of_list_to_set.
    unfold py_range in Hpicked.
    destruct (Z.to_nat max_notes) as [|n] eqn:En; [lia|].
    cbn [seq map map_result] in Hpicked.
    apply result_bind_Ok in Hpicked as (y & Hy & Hpicked).
    apply result_bind_Ok in Hpicked as (ys & _ & Hpicked). injection Hpicked as <-.
    assert (E0 : py_int (inject_Z (Z.of_nat 0) * step) = 0).
    { change (inject_Z (Z.of_nat 0)) with 0%Q. unfold py_int.
      destruct step as [a b]. simpl. reflexivity. }
    rewrite E0 in Hy. cbn in Hy. injection Hy as <-. left.
  - intros y Hy. apply (merge_sort_head_least (elements X) first rest Elst).
    apply elem_of_elements, Hy.
Qed.

(** * Further properties of the step-chart generator *)

Section GeneratorProperties.
Context {G : PRNG}.

Ltac lane_cases :=
  repeat match goal with
  | r : Row |- _ => destruct r as [? ? ? ?]
  | H : row_wf _ |- _ => destruct H as ([?|?] & [?|?] & [?|?] & [?|?]); simpl in *; subst
  end.

(** ** Arrow assignment *)

Lemma row_set_get (row row' : Row) (i : Z) :
  0 <= i < 4 -> row_set row i 1 = Ok row' ->
  row_get row' i = 1 /\ forall j, 0 <= j < 4 -> j <> i -> row_get row' j = row_get row j.
Proof.
  intros Hi. unfold row_set. destruct (i <? 0) eqn:E; [lia|].
  assert (Hc : i = 0 \/ i = 1 \/ i = 2 \/ i = 3) by lia.
  destruct Hc as [-> | [-> | [-> | ->]]]; simpl; intros [= <-];
    (split; [reflexivity|]); intros j Hj Hne;
    assert (Hj' : j = 0 \/ j = 1 \/ j = 2 \/ j = 3) by lia;
    destruct Hj' as [-> | [-> | [-> | ->]]]; try lia; reflexivity.
Qed.

Lemma jack_loop_differs (n : nat) (arrow prev_last : Z) g :
  arrow <> prev_last -> jack_loop (S n) arrow prev_last g = Ok (arrow, g).
Proof.
  intros Hne. simpl. rewrite (proj2 (Z.eqb_neq _ _) Hne). reflexivity.
Qed.

(** On the difficulties that prefer alternation, an arrow picked after a
    previous one is on the other foot: right (Up or Right) after a left-foot
    arrow, left (Left or Down) otherwise.  So it never repeats the previous
    arrow, and its lane is set in the returned row. *)
Theorem pick_arrow_alternates_feet (az : AudioAnalyzer) (t : Q) (prev : list Z)
    (cfg : Config) (prev_last : Z) (row : Row) (arrow : Z) g g' :
  alt_pref cfg = true -> last prev = Some prev_last ->
  _pick_arrow az t prev cfg g = Ok ((row, arrow), g') ->
  (prev_last ∈ LEFT_FOOT -> arrow ∈ RIGHT_FOOT) /\
  (prev_last ∉ LEFT_FOOT -> arrow ∈ LEFT_FOOT) /\
  arrow <> prev_last /\ row_get row arrow = 1.
Proof.
  intros Halt Hlast. unfold _pick_arrow. rewrite Halt, Hlast. intros H.
  apply M_bind_Ok in H as (band & g1 & _ & H).
  apply M_bind_Ok in H as (x & g2 & _ & H).
  apply M_bind_Ok in H as (a1 & g3 & _ & H).
  apply M_bind_Ok in H as (a2 & g4 & Hchoice & H).
  apply choice_Ok in Hchoice.
  assert (Hfoot : (prev_last ∈ LEFT_FOOT -> a2 ∈ RIGHT_FOOT) /\
                  (prev_last ∉ LEFT_FOOT -> a2 ∈ LEFT_FOOT)).
  { destruct (bool_decide (prev_last ∈ LEFT_FOOT)) eqn:E.
    - apply bool_decide_eq_true in E. split; [intros _; exact Hchoice | intros Hn; contradiction].
    - apply bool_decide_eq_false in E. split; [intros Hy; contradiction | intros _; exact Hchoice]. }
  assert (Hne : a2 <> prev_last).
  { intros ->. destruct Hfoot as [Hl Hr].
    destruct (decide (prev_last ∈ LEFT_FOOT)) as [Hin | Hout].
    - specialize (Hl Hin). unfold LEFT_FOOT, RIGHT_FOOT in *.
      apply elem_of_cons in Hin as [-> | Hin];
        [|apply elem_of_cons in Hin as [-> | Hin]; [|inversion Hin]];
        repeat (apply elem_of_cons in Hl as [Hl | Hl]; [discriminate|]); inversion Hl.
    - apply Hout, Hr, Hout. }
  assert (Hrange : 0 <= a2 < 4).
  { apply (foot_range a2 (bool_decide (prev_last ∈ LEFT_FOOT))), Hchoice. }
  apply M_bind_Ok in H as (a3 & g5 & Hjack & H).
  assert (Ha3 : a3 = a2).
  { destruct (negb (jack_ok cfg)).
    - rewrite (jack_loop_differs 11 a2 prev_last g4 Hne) in Hjack. congruence.
    - apply mret_Ok in Hjack as [-> _]. reflexivity. }
  subst a3.
  apply M_bind_Ok in H as (row1 & g6 & Hset & H). apply liftR_Ok in Hset as [Hset _].
  destruct (row_set_get _ _ _ Hrange Hset) as [Hget1 _].
  apply M_bind_Ok in H as (row2 & g7 & Hjump & H).
  apply mret_Ok in H as [[= -> ->] _].
  split; [apply Hfoot|]. split; [apply Hfoot|]. split; [exact Hne|].
  destruct (negb (Qeq_bool (jump_prob cfg) 0)).
  2:{ apply mret_Ok in Hjump as [-> _]. exact Hget1. }
  apply M_bind_Ok in Hjump as (y & g8 & _ & Hjump).
  destruct (Qltb y (jump_prob cfg)).
  2:{ apply mret_Ok in Hjump as [-> _]. exact Hget1. }
  apply M_bind_Ok in Hjump as (k & g9 & Hk & Hjump).
  apply liftR_Ok in Hjump as [Hset2 _].
  apply choice_Ok, list_elem_of_filter in Hk as [Hkne Hk].
  apply elem_of_py_range in Hk.
  apply Is_true_true, negb_true_iff, Z.eqb_neq in Hkne.
  destruct (row_set_get _ _ _ Hk Hset2) as [_ Hother].
  rewrite (Hother a2 Hrange) by congruence. exact Hget1.
Qed.

(** ** Smoothed runs *)

Lemma smooth_from_spec (pat : list Z) (start : nat) :
  forall (n i : nat) (flat flat' : list Row),
    smooth_from pat start i n flat = Ok flat' ->
    length flat' = length flat /\
    (forall k : nat, (i <= k < i + n)%nat ->
       exists arrow r, py_index pat (Z.of_nat k mod 4) = Ok arrow /\
                       row_set zero_row arrow 1 = Ok r /\
                       flat' !! (start + k)%nat = Some r) /\
    (forall j : nat, ~ (start + i <= j < start + i + n)%nat -> flat' !! j = flat !! j).
Proof.
  induction n as [|n IH]; intros i flat flat' H; simpl in H.
  - injection H as <-. split; [reflexivity|]. split; [intros k Hk; lia | reflexivity].
  - apply result_bind_Ok in H as (r0 & Hget & H). apply flat_get_Ok in Hget.
    apply result_bind_Ok in H as (arrow & Harrow & H).
    apply result_bind_Ok in H as (row & Hset & H).
    destruct (IH (S i) _ _ H) as (Hlen & Hrun & Hout).
    rewrite length_insert in Hlen.
    split; [exact Hlen|]. split.
    + intros k Hk. destruct (decide (k = i)) as [-> | Hne].
      * exists arrow, row. split; [exact Harrow|]. split; [exact Hset|].
        rewrite Hout by lia. apply list_lookup_insert_eq.
        apply lookup_lt_Some in Hget. exact Hget.
      * apply Hrun. lia.
    + intros j Hj. rewrite Hout by lia. apply list_lookup_insert_ne. lia.
Qed.

(** [_smooth_run] rewrites the [length] rows from [start] on, and only
    those, to single arrows that follow one of the four patterns: row
    [start + k] gets the arrow at position [k mod 4] of the pattern. *)
Theorem smooth_run_pattern (flat flat' : list Row) (start len : nat) g g' :
  _smooth_run flat start len g = Ok (flat', g') ->
  exists pat,
    pat ∈ patterns /\ length flat' = length flat /\
    (forall k : nat, (k < len)%nat ->
       exists arrow r, py_index pat (Z.of_nat k mod 4) = Ok arrow /\
                       row_set zero_row arrow 1 = Ok r /\
                       flat' !! (start + k)%nat = Some r) /\
    (forall j : nat, ~ (start <= j < start + len)%nat -> flat' !! j = flat !! j).
Proof.
  unfold _smooth_run. intros H.
  apply M_bind_Ok in H as (pat & g1 & Hpat & H). apply liftR_Ok in H as [H _].
  apply choice_Ok in Hpat. exists pat. split; [exact Hpat|].
  destruct (smooth_from_spec pat start len 0 flat flat' H) as (Hlen & Hrun & Hout).
  split; [exact Hlen|]. split.
  - intros k Hk. apply Hrun. lia.
  - intros j Hj. apply Hout. lia.
Qed.

(** ** Emphasis jumps *)

Lemma row_index1_range (row : Row) (a : Z) : row_index1 row = Ok a -> 0 <= a < 4.
Proof.
  unfold row_index1.
  destruct (filter (fun i => row_get row i =? 1) (py_range 4)) as [|i l] eqn:E; [discriminate|].
  intros [= <-].
  assert (Hin : i ∈ filter (fun i => row_get row i =? 1) (py_range 4)) by (rewrite E; left).
  apply list_elem_of_filter in Hin as [_ Hin]. apply elem_of_py_range in Hin. exact Hin.
Qed.

(** What rule 3 may do to one measure: nothing, or add to its first row,
    which holds one arrow, an arrow of the other foot. *)
Definition emphasis_step (meas meas' : list Row) : Prop :=
  meas' = meas \/
  exists row rest active partner row',
    meas = row :: rest /\ meas' = row' :: rest /\
    row_sum row = 1 /\ row_index1 row = Ok active /\
    row_set row partner 1 = Ok row' /\
    ((active ∈ LEFT_FOOT /\ partner ∈ RIGHT_FOOT) \/
     (active ∈ RIGHT_FOOT /\ partner ∈ LEFT_FOOT)).

(** Rule 3 changes at most the first row of each measure, and only by
    adding to a single left-foot arrow a right-foot one, or the other way
    round. *)
Theorem rule3_emphasis_jumps (az : AudioAnalyzer) (sd : Z) (spr offset : Q)
    (measures measures' : Measures) (m : Z) g g' :
  rule3 az sd spr offset m measures g = Ok (measures', g') ->
  Forall2 emphasis_step measures measures'.
Proof.
  revert m g measures' g'.
  induction measures as [|meas rest IH]; intros m g measures' g' H; simpl in H.
  - apply mret_Ok in H as [-> _]. constructor.
  - apply M_bind_Ok in H as (meas1 & g1 & Hmeas & H).
    apply M_bind_Ok in H as (rest1 & g2 & Hrest & H).
    apply mret_Ok in H as [-> _].
    constructor; [|eapply IH, Hrest].
    clear IH Hrest. unfold rule3_measure in Hmeas.
    destruct meas as [|row rows].
    { apply liftR_Ok in Hmeas as [Hmeas _]. discriminate. }
    destruct (row_any_pos row && (row_sum row =? 1)) eqn:Enote.
    2:{ apply mret_Ok in Hmeas as [-> _]. left. reflexivity. }
    apply andb_true_iff in Enote as [_ Esum]. apply Z.eqb_eq in Esum.
    apply M_bind_Ok in Hmeas as (energy & g3 & _ & Hmeas).
    destruct (Qltb 0.70 energy).
    2:{ apply mret_Ok in Hmeas as [-> _]. left. reflexivity. }
    apply M_bind_Ok in Hmeas as (x & g4 & _ & Hmeas).
    destruct (Qltb x 0.20).
    2:{ apply mret_Ok in Hmeas as [-> _]. left. reflexivity. }
    apply M_bind_Ok in Hmeas as (active & g5 & Hactive & Hmeas).
    apply liftR_Ok in Hactive as [Hactive _].
    apply M_bind_Ok in Hmeas as (partner & g6 & Hpartner & Hmeas).
    apply choice_Ok in Hpartner.
    apply M_bind_Ok in Hmeas as (row' & g7 & Hset & Hmeas).
    apply liftR_Ok in Hset as [Hset _].
    apply mret_Ok in Hmeas as [-> _].
    right. exists row, rows, active, partner, row'.
    repeat (split; [first [reflexivity | assumption]|]).
    destruct (bool_decide (active ∈ LEFT_FOOT)) eqn:E.
    + apply bool_decide_eq_true in E. left. split; assumption.
    + apply bool_decide_eq_false in E. right. split; [|exact Hpartner].
      pose proof (row_index1_range row active Hactive) as Hr.
      unfold LEFT_FOOT, RIGHT_FOOT in *.
      assert (Hc : active = 0 \/ active = 1 \/ active = 2 \/ active = 3) by lia.
      destruct Hc as [-> | [-> | [-> | ->]]].
      * exfalso. apply E. left.
      * exfalso. apply E. right. left.
      * left.
      * right. left.
Qed.

(** ** Rows by position *)

(** A loop over the rows of measures of [sd] rows each, seen through the
    flat row index [m * sd + r]. *)
Lemma for_rows_at {St} (sd : Z) (P : Z -> Row -> Row -> Prop)
    (body : Z -> Z -> St -> Row -> M (Row * St)) :
  (forall m r s row g row' s' g',
      body m r s row g = Ok ((row', s'), g') -> P (m * sd + r) row row') ->
  forall meas m r s g meas' s' g',
    for_rows body m r s meas g = Ok ((meas', s'), g') ->
    length meas' = length meas /\
    forall (i : nat) row row', meas !! i = Some row -> meas' !! i = Some row' ->
      P (m * sd + r + Z.of_nat i) row row'.
Proof.
  intros Hbody. induction meas as [|row0 rest IH]; intros m r s g meas' s' g' H; simpl in H.
  - apply mret_Ok in H as [[= -> ->] _]. split; [reflexivity|]. intros i row row' Hi. discriminate.
  - apply M_bind_Ok in H as ([row1 s1] & g1 & Hrow & H).
    apply M_bind_Ok in H as ([rest1 s2] & g2 & Hrest & H).
    apply mret_Ok in H as [[= -> ->] _].
    destruct (IH _ _ _ _ _ _ _ Hrest) as [Hlen Hat].
    split; [simpl; f_equal; exact Hlen|].
    intros [|i] row row' Hi Hi'; simpl in Hi, Hi'.
    + injection Hi as <-. injection Hi' as <-. rewrite Z.add_0_r. eapply Hbody, Hrow.
    + specialize (Hat i row row' Hi Hi').
      replace (m * sd + r + Z.of_nat (S i)) with (m * sd + (r + 1) + Z.of_nat i) by lia.
      exact Hat.
Qed.

Lemma for_measures_at {St} (sd : Z) (P : Z -> Row -> Row -> Prop)
    (body : Z -> Z -> St -> Row -> M (Row * St)) :
  (forall m r s row g row' s' g',
      body m r s row g = Ok ((row', s'), g') -> P (m * sd + r) row row') ->
  forall measures m s g measures' s' g',
    Forall (fun meas => Z.of_nat (length meas) = sd) measures ->
    for_measures body m s measures g = Ok ((measures', s'), g') ->
    forall (i : nat) row row',
      concat measures !! i = Some row -> concat measures' !! i = Some row' ->
      P (m * sd + Z.of_nat i) row row'.
Proof.
  intros Hbody. induction measures as [|meas rest IH];
    intros m s g measures' s' g' Hshape H; simpl in H.
  - apply mret_Ok in H as [[= -> ->] _]. intros i row row' Hi. discriminate.
  - apply Forall_cons in Hshape as [Hlen Hshape].
    apply M_bind_Ok in H as ([meas1 s1] & g1 & Hmeas & H).
    apply M_bind_Ok in H as ([rest1 s2] & g2 & Hrest & H).
    apply mret_Ok in H as [[= -> ->] _].
    destruct (for_rows_at sd P body Hbody _ _ _ _ _ _ _ _ Hmeas) as [Hlen1 Hat].
    specialize (IH _ _ _ _ _ _ Hshape Hrest).
    intros i row row' Hi Hi'. simpl in Hi, Hi'.
    destruct (Nat.lt_ge_cases i (length meas)) as [Hlt | Hge].
    + rewrite lookup_app_l in Hi by exact Hlt.
      rewrite lookup_app_l in Hi' by (rewrite Hlen1; exact Hlt).
      specialize (Hat i row row' Hi Hi'). rewrite Z.add_0_r in Hat. exact Hat.
    + rewrite lookup_app_r in Hi by exact Hge.
      rewrite lookup_app_r in Hi' by (rewrite Hlen1; exact Hge). rewrite Hlen1 in Hi'.
      specialize (IH _ row row' Hi Hi').
      replace (m * sd + Z.of_nat i) with ((m + 1) * sd + Z.of_nat (i - length meas)) by lia.
      exact IH.
Qed.

(** Where a built row may hold a note: at a grid index of the note grid
    whose time lies within the track. *)
Definition placed (az : AudioAnalyzer) (offset spr : Q) (note_grid : gset Z)
    (gi : Z) (row : Row) : Prop :=
  row_any_pos row = true ->
  gi ∈ note_grid /\ (0 <= offset + inject_Z gi * spr <= duration az)%Q.

Lemma build_rows_placed az cfg offset spr note_grid m : forall rs prev mrows prev' g g',
  build_rows az cfg offset spr note_grid m rs prev g = Ok ((mrows, prev'), g') ->
  Forall2 (fun r row => placed az offset spr note_grid (m * subdiv cfg + r) row) rs mrows.
Proof.
  induction rs as [|r rs IH]; intros prev mrows prev' g g' H; simpl in H.
  - apply mret_Ok in H as [[= -> _] _]. constructor.
  - destruct (bool_decide (m * subdiv cfg + r ∈ note_grid) && _ && _) eqn:E.
    + apply M_bind_Ok in H as ([row arrow] & g1 & Hpick & H).
      apply M_bind_Ok in H as ([rows1 prev1] & g2 & Hrest & H).
      apply mret_Ok in H as [[= -> _] _].
      apply andb_true_iff in E as [E E3]. apply andb_true_iff in E as [E1 E2].
      apply bool_decide_eq_true in E1. qbool.
      constructor; [|eapply IH, Hrest]. intros _. split; [exact E1 | split; assumption].
    + apply M_bind_Ok in H as ([rows1 prev1] & g2 & Hrest & H).
      apply mret_Ok in H as [[= -> _] _].
      constructor; [|eapply IH, Hrest]. intros Hact. discriminate Hact.
Qed.

Lemma build_measures_placed az cfg offset spr note_grid : forall ms prev measures g g',
  build_measures az cfg offset spr note_grid ms prev g = Ok (measures, g') ->
  Forall2 (placed az offset spr note_grid) (grid_indices (subdiv cfg) ms) (concat measures).
Proof.
  induction ms as [|m ms IH]; intros prev measures g g' H; simpl in H.
  - apply mret_Ok in H as [-> _]. constructor.
  - apply M_bind_Ok in H as ([mrows prev1] & g1 & Hrows & H).
    apply M_bind_Ok in H as (rest & g2 & Hrest & H).
    apply mret_Ok in H as [-> _].
    apply build_rows_placed in Hrows. specialize (IH _ _ _ _ Hrest).
    unfold grid_indices. simpl. apply Forall2_app; [|exact IH].
    apply Forall2_fmap_l. exact Hrows.
Qed.

Lemma grid_indices_lookup (sd n_meas : Z) (i : nat) (gi : Z) :
  0 < sd -> grid_indices sd (py_range n_meas) !! i = Some gi -> gi = Z.of_nat i.
Proof.
  intros Hsd. unfold py_range. rewrite (grid_indices_seq sd _ 0 Hsd).
  rewrite list_lookup_fmap. intros H.
  destruct (seq _ _ !! i) as [k|] eqn:E; [|discriminate].
  apply lookup_seq in E as [-> _]. simpl in H. injection H as <-. lia.
Qed.

Lemma step_active (lvl : Z) (rows rows' : list Row) (i : nat) (row' : Row) :
  Forall2 (row_step lvl) rows rows' -> Forall row_wf rows ->
  rows' !! i = Some row' -> row_any_pos row' = true ->
  exists row, rows !! i = Some row /\ row_wf row /\ row_any_pos row = true.
Proof.
  intros Hstep Hwf Hi Hact.
  destruct (Forall2_lookup_r _ _ _ _ _ Hstep Hi) as (row & Hrow & Hrr).
  pose proof (proj1 (Forall_forall _ _) Hwf row (list_elem_of_lookup_2 _ _ _ Hrow)) as Hw.
  destruct (Hrr Hw) as (Hw' & Hzero & _).
  exists row. split; [exact Hrow|]. split; [exact Hw|].
  apply (row_any_pos_sum row Hw). intros E. apply Hzero in E.
  apply (row_any_pos_sum row' Hw') in Hact. contradiction.
Qed.

(** ** The stages of post-processing *)

Lemma liftR_div_inv (a b x : Q) g g' :
  liftR (py_div a b) g = Ok (x, g') -> x = (a / b)%Q /\ g' = g /\ ~ b == 0.
Proof.
  intros H. apply liftR_Ok in H as [H ->]. unfold py_div in H.
  destruct (Qeq_bool b 0) eqn:E; [discriminate|]. qbool. injection H as <-. auto.
Qed.

Lemma postprocess_stages (az : AudioAnalyzer) (measures measures' : Measures) (sd : Z)
    (cfg : Config) g g' :
  _postprocess az measures sd cfg g = Ok (measures', g') ->
  exists m1 m2 m3 m4 g1 g2 g3 g4,
    for_measures (rule1_body az sd (4 * 60.0 / bpm az / inject_Z sd) (first_downbeat az))
                 0 tt measures g = Ok ((m1, tt), g1) /\
    (if level cfg <=? 6
     then exists s, for_measures rule2_body 0 (-1) m1 g1 = Ok ((m2, s), g2)
     else m2 = m1 /\ g2 = g1) /\
    (if 5 <=? level cfg
     then rule3 az sd (4 * 60.0 / bpm az / inject_Z sd) (first_downbeat az) 0 m2 g2
          = Ok (m3, g3)
     else m3 = m2 /\ g3 = g2) /\
    (if 8 <=? level cfg then rule4 m3 g3 = Ok (m4, g4) else m4 = m3 /\ g4 = g3) /\
    (exists last, for_measures (rule5_body (level cfg) sd) 0 (-999) m4 g4
                  = Ok ((measures', last), g')).
Proof.
  unfold _postprocess. intros H.
  apply M_bind_Ok in H as (spm & ga & Hspm & H). apply liftR_div_inv in Hspm as (-> & -> & _).
  apply M_bind_Ok in H as (spr & gb & Hspr & H). apply liftR_div_inv in Hspr as (-> & -> & _).
  apply M_bind_Ok in H as ([m1 u] & g1 & H1 & H). destruct u.
  apply M_bind_Ok in H as (m2 & g2 & H2 & H).
  apply M_bind_Ok in H as (m3 & g3 & H3 & H).
  apply M_bind_Ok in H as (m4 & g4 & H4 & H).
  unfold rule5 in H. apply M_bind_Ok in H as ([m5 last] & g5 & H5 & H).
  apply mret_Ok in H as [-> ->].
  exists m1, m2, m3, m4, g1, g2, g3, g4.
  split; [exact H1|]. split.
  { destruct (level cfg <=? 6).
    - apply M_bind_Ok in H2 as ([m2' s] & g6 & H2 & Hret).
      apply mret_Ok in Hret as [-> ->]. exists s. exact H2.
    - apply mret_Ok in H2 as [-> ->]. split; reflexivity. }
  split.
  { destruct (5 <=? level cfg); [exact H3|]. apply mret_Ok in H3 as [-> ->]. split; reflexivity. }
  split.
  { destruct (8 <=? level cfg); [exact H4|]. apply mret_Ok in H4 as [-> ->]. split; reflexivity. }
  exists last. exact H5.
Qed.

Lemma postprocess_split (az : AudioAnalyzer) (measures measures' : Measures) (sd : Z)
    (cfg : Config) g g' :
  _postprocess az measures sd cfg g = Ok (measures', g') ->
  exists m1 g1,
    for_measures (rule1_body az sd (4 * 60.0 / bpm az / inject_Z sd) (first_downbeat az))
                 0 tt measures g = Ok ((m1, tt), g1) /\
    measures_step (level cfg) m1 measures'.
Proof.
  intros H. apply postprocess_stages in H
    as (m1 & m2 & m3 & m4 & g1 & g2 & g3 & g4 & H1 & H2 & H3 & H4 & last & H5).
  exists m1, g1. split; [exact H1|].
  eapply measures_step_trans.
  { destruct (level cfg <=? 6).
    - destruct H2 as [s H2]. eapply for_measures_Forall2; [|exact H2].
      intros; eapply rule2_body_step; eauto.
    - destruct H2 as [-> _]. apply measures_step_refl. }
  eapply measures_step_trans.
  { destruct (5 <=? level cfg) eqn:E5.
    - apply Z.leb_le in E5. eapply rule3_step; eauto.
    - destruct H3 as [-> _]. apply measures_step_refl. }
  eapply measures_step_trans.
  { destruct (8 <=? level cfg).
    - eapply rule4_step; eauto.
    - destruct H4 as [-> _]. apply measures_step_refl. }
  eapply for_measures_Forall2; [|exact H5]. intros; eapply rule5_body_step; eauto.
Qed.

(** ** The stages of one chart *)

Lemma chart_stages (az : AudioAnalyzer) (name : string) (cfg : Config) (chart : Chart) g g' :
  0 < subdiv cfg ->
  generate_chart_with az name cfg g = Ok (chart, g') ->
  exists beats note_grid built processed tail gb gc,
    py_stride (beat_times az) (beat_skip cfg) = Ok beats /\
    density_cap (max_notes_of az cfg)
      (eligible_rows az cfg (first_downbeat az)
                     (4 * 60.0 / bpm az / inject_Z (subdiv cfg)) beats) = Ok note_grid /\
    Forall (fun meas => Z.of_nat (length meas) = subdiv cfg) built /\
    Forall (built_ok cfg) (concat built) /\
    (forall (i : nat) row, concat built !! i = Some row ->
       placed az (first_downbeat az) (4 * 60.0 / bpm az / inject_Z (subdiv cfg))
              note_grid (Z.of_nat i) row) /\
    _postprocess az built (subdiv cfg) cfg gb = Ok (processed, gc) /\
    processed = chart_measures chart ++ tail /\
    chart_measures chart = trim_trailing processed /\
    chart_difficulty chart = name /\ chart_level chart = level cfg /\
    chart_subdiv chart = subdiv cfg /\
    length built =
      Z.to_nat (Qceiling ((duration az - first_downbeat az) / (4 * 60.0 / bpm az)) + 1).
Proof.
  intros Hsd. unfold generate_chart_with. intros H.
  apply M_bind_Ok in H as (spm & g1 & Hspm & H). apply liftR_div_inv in Hspm as (-> & -> & _).
  apply M_bind_Ok in H as (spr & g2 & Hspr & H). apply liftR_div_inv in Hspr as (-> & -> & _).
  apply M_bind_Ok in H as (x & g3 & Hx & H). apply liftR_div_inv in Hx as (-> & -> & _).
  apply M_bind_Ok in H as (beats & g4 & Hbeats & H). apply liftR_Ok in Hbeats as [Hbeats _].
  apply M_bind_Ok in H as (note_grid & g5 & Hcap & H). apply liftR_Ok in Hcap as [Hcap _].
  apply M_bind_Ok in H as (built & g6 & Hbuilt & H).
  apply M_bind_Ok in H as (processed & g7 & Hpost & H).
  apply mret_Ok in H as [-> _]. cbn [chart_measures chart_difficulty chart_level chart_subdiv].
  destruct (trim_trailing_prefix processed) as [tail Htail].
  exists beats, note_grid, built, processed, tail, g6, g7.
  split; [exact Hbeats|]. split; [exact Hcap|].
  destruct (build_measures_spec _ _ _ _ _ _ _ _ _ _ Hbuilt) as [Hspec Hshape].
  split.
  { eapply Forall_impl; [exact Hshape|]. intros meas Hlen. simpl in Hlen.
    rewrite Hlen. pose proof (py_range_length (subdiv cfg)). lia. }
  split; [eapply built_rows_wf, Hspec|].
  split.
  { intros i row Hrow. pose proof (build_measures_placed _ _ _ _ _ _ _ _ _ _ Hbuilt) as Hpl.
    destruct (Forall2_lookup_r _ _ _ _ _ Hpl Hrow) as (gi & Hgi & Hplaced).
    apply (grid_indices_lookup _ _ _ _ Hsd) in Hgi. subst gi. exact Hplaced. }
  split; [exact Hpost|]. split; [exact Htail|]. do 4 (split; [reflexivity|]).
  rewrite (build_measures_length _ _ _ _ _ _ _ _ _ _ Hbuilt).
  unfold py_range. rewrite length_map, length_seq. reflexivity.
Qed.

Lemma config_of_subdiv (name : string) (cfg : Config) :
  config_of name = Ok cfg -> 0 < subdiv cfg.
Proof. intros H. apply config_of_grid in H as [H _]. exact H. Qed.

Lemma generate_chart_stages (az : AudioAnalyzer) (name : string) (cfg : Config)
    (chart : Chart) g g' :
  config_of name = Ok cfg -> generate_chart az name g = Ok (chart, g') ->
  0 < subdiv cfg /\ generate_chart_with az name cfg g = Ok (chart, g').
Proof.
  intros Hcfg H. apply generate_chart_inv in H as (cfg' & Hcfg' & H).
  rewrite Hcfg in Hcfg'. injection Hcfg' as <-.
  split; [eapply config_of_subdiv, Hcfg | exact H].
Qed.

Lemma measures_step_shape (lvl : Z) (n : Z) (measures measures' : Measures) :
  measures_step lvl measures measures' ->
  Forall (fun meas => Z.of_nat (length meas) = n) measures ->
  Forall (fun meas => Z.of_nat (length meas) = n) measures'.
Proof.
  unfold measures_step. induction 1 as [|meas meas' ms ms' Hrows _ IH]; intros Hall;
    [constructor|].
  apply Forall_cons in Hall as [Hlen Hall]. constructor; [|auto].
  rewrite <- (Forall2_length _ _ _ Hrows). exact Hlen.
Qed.

(** A generated chart carries the name, the level and the subdivision of
    its difficulty; each of its measures has exactly [subdiv] rows, and it
    has at most [ceil((duration - first_downbeat) / spm) + 1] measures, the
    number that is built before trailing empty measures are trimmed. *)
Theorem chart_measures_shape (az : AudioAnalyzer) (name : string) (cfg : Config)
    (chart : Chart) g g' :
  config_of name = Ok cfg -> generate_chart az name g = Ok (chart, g') ->
  chart_difficulty chart = name /\ chart_level chart = level cfg /\
  chart_subdiv chart = subdiv cfg /\
  Forall (fun meas => Z.of_nat (length meas) = subdiv cfg) (chart_measures chart) /\
  (length (chart_measures chart)
   <= Z.to_nat (Qceiling ((duration az - first_downbeat az) / (4 * 60.0 / bpm az)) + 1))%nat.
Proof.
  intros Hcfg H. destruct (generate_chart_stages _ _ _ _ _ _ Hcfg H) as [Hsd Hwith].
  apply (chart_stages _ _ _ _ _ _ Hsd) in Hwith
    as (beats & note_grid & built & processed & tail & gb & gc &
        _ & _ & Hshape & _ & _ & Hpost & Htail & _ & Hname & Hlevel & Hsub & Hcount).
  split; [exact Hname|]. split; [exact Hlevel|]. split; [exact Hsub|].
  apply postprocess_step in Hpost.
  pose proof (measures_step_shape _ _ _ _ Hpost Hshape) as Hall.
  pose proof (Forall2_length _ _ _ Hpost) as Hlen.
  rewrite Htail in Hall, Hlen. apply Forall_app in Hall as [Hall _].
  split; [exact Hall|]. rewrite length_app in Hlen. lia.
Qed.

(** ** The last measure *)

Lemma pop_empty_head (rev_measures : Measures) :
  match pop_empty rev_measures with
  | meas :: _ :: _ => measure_empty meas = false
  | _ => True
  end.
Proof.
  induction rev_measures as [|meas rest IH]; [exact I|].
  simpl. destruct rest as [|meas2 rest2]; [exact I|].
  destruct (measure_empty meas) eqn:E; [exact IH | exact E].
Qed.

Lemma measure_not_empty (meas : list Row) :
  measure_empty meas = false -> exists row, row ∈ meas /\ row_all_zero row = false.
Proof.
  unfold measure_empty. induction meas as [|row meas IH]; simpl; [discriminate|].
  destruct (row_all_zero row) eqn:E.
  - intros H. destruct (IH H) as (r & Hr & Hz). exists r. split; [right; exact Hr | exact Hz].
  - intros _. exists row. split; [left | exact E].
Qed.

Lemma row_not_all_zero (row : Row) :
  row_wf row -> row_all_zero row = false -> row_any_pos row = true.
Proof. intros Hwf. lane_cases; unfold row_all_zero, row_any_pos; simpl; congruence. Qed.

(** Trailing empty measures are trimmed: in a generated chart of more than
    one measure the last measure holds a note. *)
Theorem chart_last_measure_has_note (az : AudioAnalyzer) (name : string)
    (chart : Chart) g g' :
  generate_chart az name g = Ok (chart, g') ->
  (1 < length (chart_measures chart))%nat ->
  exists meas row,
    last (chart_measures chart) = Some meas /\ row ∈ meas /\ row_any_pos row = true.
Proof.
  intros H Hlen. apply generate_chart_inv in H as (cfg & Hcfg & H).
  pose proof (chart_rows _ _ _ _ _ _ H) as [Hwf _].
  apply generate_chart_with_inv in H
    as (spr & beats & note_grid & n_meas & built & processed & _ & _ & _ & ->).
  cbn [chart_measures] in *. unfold trim_trailing in *.
  pose proof (pop_empty_head (rev processed)) as Hhead.
  destruct (pop_empty (rev processed)) as [|meas [|meas2 rest]] eqn:E;
    [simpl in Hlen; lia | simpl in Hlen; lia|].
  destruct (measure_not_empty meas Hhead) as (row & Hrow & Hz).
  exists meas, row. split; [|split; [exact Hrow|]].
  - change (rev (meas :: meas2 :: rest)) with (rev (meas2 :: rest) ++ [meas]).
    apply last_snoc.
  - apply row_not_all_zero; [|exact Hz].
    assert (Hin : row ∈ concat (rev (meas :: meas2 :: rest))).
    { apply list_elem_of_In, in_concat. exists meas. split; [|apply list_elem_of_In, Hrow].
      apply in_rev. rewrite rev_involutive. left. reflexivity. }
    apply (proj1 (Forall_forall _ _) Hwf row Hin).
Qed.

(** ** Where the notes are *)

(** Row index [ri] comes from a kept beat or from an onset that reaches the
    difficulty's strength threshold: a time within the track, not before the
    music start, that rounds to [ri] and lies within 0.45 rows of it. *)
Definition row_source (az : AudioAnalyzer) (cfg : Config) (offset spr : Q)
    (beats : list Q) (ri : Z) : Prop :=
  exists t,
    (t ∈ beats \/
     exists os_, (t, os_) ∈ zip (onset_times az) (onset_strengths az) /\
                 (onset_thresh cfg <= os_)%Q) /\
    (music_start az <= t <= duration az)%Q /\
    ri = py_round ((t - offset) / spr) /\
    (Qabs ((t - offset) / spr - inject_Z ri) < 0.45)%Q.

Lemma mark_row_elem (offset spr t : Q) (X : gset Z) (ri : Z) :
  ri ∈ mark_row offset spr t X ->
  ri ∈ X \/ (ri = py_round ((t - offset) / spr) /\
             (Qabs ((t - offset) / spr - inject_Z ri) < 0.45)%Q).
Proof.
  unfold mark_row. destruct (_ && _) eqn:E; [|auto].
  apply andb_true_iff in E as [_ E]. qbool.
  intros H. apply elem_of_union in H as [H | H]; [|auto].
  apply elem_of_singleton in H. subst ri. right. split; [reflexivity | exact E].
Qed.

Lemma mark_beats_elem (az : AudioAnalyzer) (offset spr : Q) (ri : Z) :
  forall (beats : list Q) (X : gset Z),
    ri ∈ mark_beats az offset spr beats X ->
    ri ∈ X \/ exists t, t ∈ beats /\ (music_start az <= t <= duration az)%Q /\
                        ri = py_round ((t - offset) / spr) /\
                        (Qabs ((t - offset) / spr - inject_Z ri) < 0.45)%Q.
Proof.
  unfold mark_beats. induction beats as [|bt beats IH]; intros X H; simpl in H; [auto|].
  apply IH in H as [H | (t & Ht & Hrest)].
  2:{ right. exists t. split; [right; exact Ht | exact Hrest]. }
  destruct (Qle_bool (music_start az) bt && Qle_bool bt (duration az)) eqn:E; [|auto].
  apply andb_true_iff in E as [E1 E2]. qbool.
  apply mark_row_elem in H as [H | [H1 H2]]; [auto|].
  right. exists bt. split; [left|]. split; [split; assumption|]. split; assumption.
Qed.

Lemma mark_onsets_fold_elem (az : AudioAnalyzer) (cfg : Config) (offset spr : Q) (ri : Z) :
  forall (l : list (Q * Q)) (X : gset Z),
    ri ∈ fold_left (fun note_grid '(ot, os_) =>
           if Qle_bool (onset_thresh cfg) os_ && Qle_bool (music_start az) ot
              && Qle_bool ot (duration az)
           then mark_row offset spr ot note_grid else note_grid) l X ->
    ri ∈ X \/ exists t os_, (t, os_) ∈ l /\ (onset_thresh cfg <= os_)%Q /\
                            (music_start az <= t <= duration az)%Q /\
                            ri = py_round ((t - offset) / spr) /\
                            (Qabs ((t - offset) / spr - inject_Z ri) < 0.45)%Q.
Proof.
  induction l as [|[ot os_] l IH]; intros X H; simpl in H; [auto|].
  apply IH in H as [H | (t & o & Ht & Hrest)].
  2:{ right. exists t, o. split; [right; exact Ht | exact Hrest]. }
  destruct (Qle_bool (onset_thresh cfg) os_ && Qle_bool (music_start az) ot
            && Qle_bool ot (duration az)) eqn:E; [|auto].
  apply andb_true_iff in E as [E E3]. apply andb_true_iff in E as [E1 E2]. qbool.
  apply mark_row_elem in H as [H | [H1 H2]]; [auto|].
  right. exists ot, os_. split; [left|]. split; [exact E1|].
  split; [split; assumption|]. split; assumption.
Qed.

Lemma eligible_rows_source (az : AudioAnalyzer) (cfg : Config) (offset spr : Q)
    (beats : list Q) (ri : Z) :
  ri ∈ eligible_rows az cfg offset spr beats -> row_source az cfg offset spr beats ri.
Proof.
  unfold eligible_rows, mark_onsets. intros H.
  apply mark_onsets_fold_elem in H as [H | (t & o & Ht & Hth & Hrest)].
  - apply mark_beats_elem in H as [H | (t & Ht & Hrest)]; [set_solver|].
    exists t. split; [left; exact Ht | exact Hrest].
  - exists t. split; [right; exists o; split; assumption | exact Hrest].
Qed.

Lemma map_result_elem {A B} (f : A -> result B) (l : list A) : forall ys y,
  map_result f l = Ok ys -> y ∈ ys -> exists x, x ∈ l /\ f x = Ok y.
Proof.
  induction l as [|x l IH]; intros ys y H Hy; simpl in H.
  - injection H as <-. inversion Hy.
  - apply result_bind_Ok in H as (y0 & Hy0 & H). apply result_bind_Ok in H as (ys' & Hys & H).
    injection H as <-. apply elem_of_cons in Hy as [-> | Hy].
    + exists x. split; [left | exact Hy0].
    + destruct (IH _ _ Hys Hy) as (x' & Hx' & Hf). exists x'. split; [right; exact Hx' | exact Hf].
Qed.

Lemma density_cap_subset (max_notes : Z) (X X' : gset Z) :
  density_cap max_notes X = Ok X' -> X' ⊆ X.
Proof.
  unfold density_cap. destruct (max_notes <? Z.of_nat (size X)).
  2:{ intros [= <-]. reflexivity. }
  intros H. apply result_bind_Ok in H as (step & _ & H).
  apply result_bind_Ok in H as (picked & Hpicked & H). injection H as <-.
  intros y Hy. apply elem_of_list_to_set in Hy.
  destruct (map_result_elem _ _ _ _ Hpicked Hy) as (i & _ & Hi).
  apply py_index_elem in Hi. rewrite merge_sort_Permutation in Hi.
  apply elem_of_elements in Hi. exact Hi.
Qed.

Lemma chart_row_built (az : AudioAnalyzer) (cfg : Config) (built processed : Measures)
    (shown tail : Measures) (i : nat) (row : Row) :
  Forall (built_ok cfg) (concat built) ->
  measures_step (level cfg) built processed ->
  processed = shown ++ tail ->
  concat shown !! i = Some row -> row_any_pos row = true ->
  exists row0, concat built !! i = Some row0 /\ row_any_pos row0 = true.
Proof.
  intros Hok Hstep -> Hrow Hact.
  assert (Hrow' : concat (shown ++ tail) !! i = Some row).
  { rewrite concat_app. apply lookup_app_l_Some, Hrow. }
  destruct (step_active (level cfg) (concat built) (concat (shown ++ tail)) i row)
    as (row0 & Hrow0 & _ & Hact0); [apply concat_step, Hstep | | exact Hrow' | exact Hact |].
  - eapply Forall_impl; [exact Hok|]. intros r [Hwf _]. exact Hwf.
  - exists row0. split; assumption.
Qed.

(** Every note of a generated chart sits on a row (counted from the first
    row of the chart) whose time lies within the track, and onto which a
    kept beat or a sufficiently strong onset was rounded from at most 0.45
    rows away. *)
Theorem chart_notes_on_sources (az : AudioAnalyzer) (name : string) (cfg : Config)
    (chart : Chart) g g' :
  config_of name = Ok cfg -> generate_chart az name g = Ok (chart, g') ->
  exists beats,
    py_stride (beat_times az) (beat_skip cfg) = Ok beats /\
    forall (i : nat) row,
      concat (chart_measures chart) !! i = Some row -> row_any_pos row = true ->
      (0 <= first_downbeat az
            + inject_Z (Z.of_nat i) * (4 * 60.0 / bpm az / inject_Z (subdiv cfg))
         <= duration az)%Q /\
      row_source az cfg (first_downbeat az) (4 * 60.0 / bpm az / inject_Z (subdiv cfg))
                 beats (Z.of_nat i).
Proof.
  intros Hcfg H. destruct (generate_chart_stages _ _ _ _ _ _ Hcfg H) as [Hsd Hwith].
  apply (chart_stages _ _ _ _ _ _ Hsd) in Hwith
    as (beats & note_grid & built & processed & tail & gb & gc &
        Hbeats & Hcap & _ & Hok & Hplaced & Hpost & Htail & _).
  exists beats. split; [exact Hbeats|]. intros i row Hrow Hact.
  apply postprocess_step in Hpost.
  destruct (chart_row_built az cfg built processed _ tail i row Hok Hpost Htail Hrow Hact)
    as (row0 & Hrow0 & Hact0).
  destruct (Hplaced i row0 Hrow0 Hact0) as [Hin Htime].
  split; [exact Htime|].
  apply eligible_rows_source. eapply density_cap_subset; eauto.
Qed.

(** ** No note in a quiet passage *)

Lemma rule1_body_at (az : AudioAnalyzer) (sd : Z) (spr offset : Q) m r s row g row' s' g' :
  rule1_body az sd spr offset m r s row g = Ok ((row', s'), g') ->
  (row' = row \/ row' = zero_row) /\
  (row_any_pos row' = true ->
   exists energy, get_rms_at az (offset + inject_Z (m * sd + r) * spr) = Ok energy /\
                  (0.08 <= energy)%Q).
Proof.
  unfold rule1_body. destruct (negb (row_any_pos row)) eqn:Eact.
  - intros H. apply mret_Ok in H as [[= -> _] _]. split; [left; reflexivity|].
    intros Hact. rewrite Hact in Eact. discriminate.
  - intros H. apply M_bind_Ok in H as (energy & g1 & Hen & H).
    apply liftR_Ok in Hen as [Hen _]. apply mret_Ok in H as [[= -> _] _].
    destruct (Qltb energy 0.08) eqn:E; qbool.
    + split; [right; reflexivity|]. intros Hact. discriminate.
    + split; [left; reflexivity|]. intros _. exists energy. split; assumption.
Qed.

(** Every note of a generated chart sits on a row at whose time the
    normalised RMS energy is at least 0.08: rule 1 mutes the quieter rows
    and no later rule puts a note on an empty row. *)
Theorem chart_notes_not_quiet (az : AudioAnalyzer) (name : string) (cfg : Config)
    (chart : Chart) g g' :
  config_of name = Ok cfg -> generate_chart az name g = Ok (chart, g') ->
  forall (i : nat) row,
    concat (chart_measures chart) !! i = Some row -> row_any_pos row = true ->
    exists energy,
      get_rms_at az (first_downbeat az
                     + inject_Z (Z.of_nat i) * (4 * 60.0 / bpm az / inject_Z (subdiv cfg)))
        = Ok energy /\
      (0.08 <= energy)%Q.
Proof.
  intros Hcfg H. destruct (generate_chart_stages _ _ _ _ _ _ Hcfg H) as [Hsd Hwith].
  apply (chart_stages _ _ _ _ _ _ Hsd) in Hwith
    as (beats & note_grid & built & processed & tail & gb & gc &
        _ & _ & Hshape & Hok & _ & Hpost & Htail & _).
  intros i row Hrow Hact.
  apply postprocess_split in Hpost as (muted & g1 & Hrule1 & Hrest).
  set (spr := (4 * 60.0 / bpm az / inject_Z (subdiv cfg))%Q) in *.
  pose proof (for_measures_at (subdiv cfg)
                (fun gi r r' =>
                   (r' = r \/ r' = zero_row) /\
                   (row_any_pos r' = true ->
                    exists energy,
                      get_rms_at az (first_downbeat az + inject_Z gi * spr) = Ok energy /\
                      (0.08 <= energy)%Q))
                (rule1_body az (subdiv cfg) spr (first_downbeat az))
                (rule1_body_at az (subdiv cfg) spr (first_downbeat az))
                built 0 tt gb muted tt g1 Hshape Hrule1) as Hat.
  simpl in Hat.
  assert (Hmuted : Forall2 (fun r r' => r' = r \/ r' = zero_row) (concat built) (concat muted)).
  { assert (HF : Forall2 (Forall2 (fun r r' => r' = r \/ r' = zero_row)) built muted).
    { eapply for_measures_Forall2; [|exact Hrule1].
      intros m r s row0 g0 row0' s0' g0' Hb. apply rule1_body_at in Hb as [Hb _]. exact Hb. }
    clear -HF. induction HF; simpl; [constructor | apply Forall2_app; assumption]. }
  assert (Hwf : Forall row_wf (concat muted)).
  { assert (Hwf0 : Forall row_wf (concat built)).
    { eapply Forall_impl; [exact Hok|]. intros r [Hr _]. exact Hr. }
    clear -Hmuted Hwf0. induction Hmuted as [|r r' l l' Hr _ IH]; [constructor|].
    apply Forall_cons in Hwf0 as [Hr0 Hwf0]. constructor; [|auto].
    destruct Hr as [-> | ->]; [exact Hr0 | apply zero_row_wf]. }
  assert (Hrow' : concat processed !! i = Some row).
  { rewrite Htail, concat_app. apply lookup_app_l_Some, Hrow. }
  destruct (step_active (level cfg) (concat muted) (concat processed) i row
              (concat_step _ _ _ Hrest) Hwf Hrow' Hact) as (row1 & Hrow1 & _ & Hact1).
  destruct (Forall2_lookup_r _ _ _ _ _ Hmuted Hrow1) as (row0 & Hrow0 & _).
  destruct (Hat i row0 row1 Hrow0 Hrow1) as [_ Hen].
  replace (0 * subdiv cfg + Z.of_nat i) with (Z.of_nat i) in Hen by lia.
  exact (Hen Hact1).
Qed.

(** ** No crossover on Beginner *)

(** The arrows of the rows that hold exactly one arrow, in order. *)
Definition single_arrows (rows : list Row) : list Z :=
  flat_map (fun row => match arrows_of row with
                       | [a] => [a]
                       | _ => []
                       end) rows.

(** Left directly followed by Right, or Right by Left. *)
Definition crossover (a b : Z) : Prop := (a = 0 /\ b = 3) \/ (a = 3 /\ b = 0).

Definition no_crossover (arrows : list Z) : Prop :=
  forall (i : nat) a b, arrows !! i = Some a -> arrows !! S i = Some b -> ~ crossover a b.

Lemma no_crossover_snoc (l : list Z) (b : Z) :
  no_crossover l -> (forall a, last l = Some a -> ~ crossover a b) ->
  no_crossover (l ++ [b]).
Proof.
  intros Hl Hlast i a0 b0 Ha Hb.
  destruct (Nat.lt_ge_cases (S i) (length l)) as [Hlt | Hge].
  - rewrite lookup_app_l in Ha by lia. rewrite lookup_app_l in Hb by lia.
    exact (Hl i a0 b0 Ha Hb).
  - assert (Hi : S i = length l).
    { apply lookup_lt_Some in Hb. rewrite length_app in Hb. simpl in Hb. lia. }
    rewrite lookup_app_l in Ha by lia.
    rewrite lookup_app_r in Hb by lia. rewrite Hi, Nat.sub_diag in Hb. injection Hb as <-.
    apply Hlast. rewrite last_lookup. rewrite <- Hi. exact Ha.
Qed.

Lemma no_crossover_prefix (l1 l2 : list Z) : no_crossover (l1 ++ l2) -> no_crossover l1.
Proof.
  intros H i a b Ha Hb. apply (H i a b); apply lookup_app_l_Some; assumption.
Qed.

Lemma single_arrows_app (l1 l2 : list Row) :
  single_arrows (l1 ++ l2) = single_arrows l1 ++ single_arrows l2.
Proof. apply flat_map_app. Qed.

(** The loop-carried [prev_arrow] is the latest single arrow written so
    far, and these arrows hold no crossover. *)
Definition rule2_inv (out : list Row) (prev_arrow : Z) : Prop :=
  no_crossover (single_arrows out) /\ prev_arrow = default (-1) (last (single_arrows out)).

Lemma rule2_inv_single (out : list Row) (s : Z) (row' : Row) (a' : Z) :
  rule2_inv out s -> arrows_of row' = [a'] -> ~ crossover s a' ->
  rule2_inv (out ++ [row']) a'.
Proof.
  intros [Hno Hs] Harrows Hcross. unfold rule2_inv.
  rewrite single_arrows_app. simpl. rewrite Harrows. simpl. split.
  - apply no_crossover_snoc; [exact Hno|]. intros a Ha. rewrite Ha in Hs. simpl in Hs.
    subst s. exact Hcross.
  - rewrite last_snoc. reflexivity.
Qed.

Lemma rule2_body_inv m r s row g row' s' g' (out : list Row) :
  rule2_body m r s row g = Ok ((row', s'), g') ->
  rule2_inv out s -> rule2_inv (out ++ [row']) s'.
Proof.
  unfold rule2_body. intros H Hinv.
  destruct (arrows_of row) as [|a [|b l]] eqn:E.
  - apply mret_Ok in H as [[= -> ->] _]. destruct Hinv as [Hno Hs]. unfold rule2_inv.
    rewrite single_arrows_app. simpl. rewrite E, app_nil_r. split; assumption.
  - destruct ((s =? 0) && (a =? 3)) eqn:E1.
    { apply mret_Ok in H as [[= -> ->] _]. apply andb_true_iff in E1 as [E1 _].
      apply Z.eqb_eq in E1. subst s.
      change (rule2_inv (out ++ [mkRow 0 0 1 0]) 2).
      apply (rule2_inv_single out 0 (mkRow 0 0 1 0) 2 Hinv); [reflexivity|].
      intros [[_ Hc] | [Hc _]]; discriminate. }
    destruct ((s =? 3) && (a =? 0)) eqn:E2.
    { apply mret_Ok in H as [[= -> ->] _]. apply andb_true_iff in E2 as [E2 _].
      apply Z.eqb_eq in E2. subst s.
      change (rule2_inv (out ++ [mkRow 0 1 0 0]) 1).
      apply (rule2_inv_single out 3 (mkRow 0 1 0 0) 1 Hinv); [reflexivity|].
      intros [[Hc _] | [_ Hc]]; discriminate. }
    rewrite E in H. apply mret_Ok in H as [[= -> ->] _].
    apply (rule2_inv_single out s row a Hinv E).
    intros [[-> ->] | [-> ->]]; simpl in E1, E2; discriminate.
  - apply mret_Ok in H as [[= -> ->] _]. destruct Hinv as [Hno Hs]. unfold rule2_inv.
    rewrite single_arrows_app. simpl. rewrite E, app_nil_r. split; assumption.
Qed.

Lemma for_rows_rule2_inv : forall meas m r s g meas' s' g' (out : list Row),
  for_rows rule2_body m r s meas g = Ok ((meas', s'), g') ->
  rule2_inv out s -> rule2_inv (out ++ meas') s'.
Proof.
  induction meas as [|row rest IH]; intros m r s g meas' s' g' out H Hinv; simpl in H.
  - apply mret_Ok in H as [[= -> ->] _]. rewrite app_nil_r. exact Hinv.
  - apply M_bind_Ok in H as ([row1 s1] & g1 & Hrow & H).
    apply M_bind_Ok in H as ([rest1 s2] & g2 & Hrest & H).
    apply mret_Ok in H as [[= -> ->] _].
    replace (out ++ row1 :: rest1) with ((out ++ [row1]) ++ rest1)
      by (rewrite <- app_assoc; reflexivity).
    eapply IH; [exact Hrest|]. eapply rule2_body_inv; eauto.
Qed.

Lemma for_measures_rule2_inv : forall measures m s g measures' s' g' (out : list Row),
  for_measures rule2_body m s measures g = Ok ((measures', s'), g') ->
  rule2_inv out s -> rule2_inv (out ++ concat measures') s'.
Proof.
  induction measures as [|meas rest IH]; intros m s g measures' s' g' out H Hinv; simpl in H.
  - apply mret_Ok in H as [[= -> ->] _]. rewrite app_nil_r. exact Hinv.
  - apply M_bind_Ok in H as ([meas1 s1] & g1 & Hmeas & H).
    apply M_bind_Ok in H as ([rest1 s2] & g2 & Hrest & H).
    apply mret_Ok in H as [[= -> ->] _].
    simpl. rewrite app_assoc.
    eapply IH; [exact Hrest|]. eapply for_rows_rule2_inv; eauto.
Qed.

Lemma rule5_body_no_jump (lvl sd : Z) m r s row g row' s' g' :
  rule5_body lvl sd m r s row g = Ok ((row', s'), g') -> row_sum row < 2 -> row' = row.
Proof.
  unfold rule5_body. intros H Hsum.
  rewrite (proj2 (Z.leb_gt 2 (row_sum row))) in H by lia.
  apply mret_Ok in H as [[= -> _] _]. reflexivity.
Qed.

Lemma Forall2_rows_eq (P : Row -> Prop) (R : Row -> Row -> Prop) (rows rows' : list Row) :
  (forall r r', R r r' -> P r -> r' = r) ->
  Forall2 R rows rows' -> Forall P rows -> rows' = rows.
Proof.
  intros HR. induction 1 as [|r r' l l' Hr _ IH]; intros HP; [reflexivity|].
  apply Forall_cons in HP as [Hp HP]. f_equal; [eapply HR; eauto | auto].
Qed.

Lemma rule5_no_jumps (lvl sd : Z) (measures measures' : Measures) (last : Z) g g' :
  for_measures (rule5_body lvl sd) 0 (-999) measures g = Ok ((measures', last), g') ->
  Forall (fun r => row_sum r < 2) (concat measures) -> measures' = measures.
Proof.
  intros H Hall.
  assert (HF : Forall2 (Forall2 (fun r r' => row_sum r < 2 -> r' = r)) measures measures').
  { eapply for_measures_Forall2; [|exact H].
    intros m r s row g0 row' s' g0' Hb. eapply rule5_body_no_jump, Hb. }
  apply Forall_concat_inv in Hall. clear H.
  induction HF as [|meas meas' ms ms' Hrows _ IH]; [reflexivity|].
  apply Forall_cons in Hall as [Hm Hall]. f_equal; [|auto].
  eapply (Forall2_rows_eq (fun r => row_sum r < 2)); [|exact Hrows | exact Hm]. auto.
Qed.

(** In a Beginner chart, where every note is a single arrow, the arrows
    never go from Left directly to Right or from Right directly to Left:
    rule 2 replaces such an arrow by Up or Down, and on this difficulty no
    later rule changes a row. *)
Theorem beginner_chart_no_crossover (az : AudioAnalyzer) (chart : Chart) g g' :
  generate_chart az "Beginner" g = Ok (chart, g') ->
  no_crossover (single_arrows (concat (chart_measures chart))).
Proof.
  intros H.
  destruct (generate_chart_stages az "Beginner" Beginner chart g g' eq_refl H) as [Hsd Hwith].
  apply (chart_stages _ _ _ _ _ _ Hsd) in Hwith
    as (beats & note_grid & built & processed & tail & gb & gc &
        _ & _ & _ & Hok & _ & Hpost & Htail & _).
  apply postprocess_stages in Hpost
    as (m1 & m2 & m3 & m4 & g1 & g2 & g3 & g4 & H1 & H2 & H3 & H4 & last & H5).
  change (level Beginner <=? 6) with true in H2.
  change (5 <=? level Beginner) with false in H3.
  change (8 <=? level Beginner) with false in H4.
  destruct H2 as [s H2]. destruct H3 as [-> _]. destruct H4 as [-> _].
  assert (Hstep : measures_step (level Beginner) built m2).
  { eapply measures_step_trans.
    - eapply for_measures_Forall2; [|exact H1]. intros; eapply rule1_body_step; eauto.
    - eapply for_measures_Forall2; [|exact H2]. intros; eapply rule2_body_step; eauto. }
  assert (Hsingle : Forall (fun r => row_wf r /\ row_sum r <= 1) (concat m2)).
  { eapply (rows_step_Forall (level Beginner) (fun r => row_sum r <= 1));
      [|apply concat_step, Hstep|].
    - intros r r' Hrr' [Hwf Hsum]. destruct (Hrr' Hwf) as (Hwf' & _ & _ & Hone).
      split; [exact Hwf'|]. apply Hone; [simpl; lia | exact Hsum].
    - eapply Forall_impl; [exact Hok|]. intros r (Hwf & _ & Hsum).
      split; [exact Hwf | apply Hsum; reflexivity]. }
  assert (Hsame : processed = m2).
  { eapply rule5_no_jumps; [exact H5|].
    eapply Forall_impl; [exact Hsingle|]. intros r [_ Hsum]. simpl in Hsum. lia. }
  assert (Hinv : rule2_inv ([] ++ concat m2) s).
  { eapply for_measures_rule2_inv; [exact H2|]. split; [|reflexivity].
    intros i a b Ha. discriminate. }
  destruct Hinv as [Hno _]. simpl in Hno.
  rewrite <- Hsame, Htail, concat_app, single_arrows_app in Hno.
  eapply no_crossover_prefix, Hno.
Qed.

(** ** Errors of one chart *)

(** For a known difficulty [generate_chart] raises [ZeroDivisionError]
    when the BPM is 0, and also when the density cap
    [int(duration * max_nps)] is 0 while some row is eligible. *)
Theorem generate_chart_raises (az : AudioAnalyzer) (name : string) (cfg : Config) g :
  config_of name = Ok cfg ->
  bpm az == 0 \/
  (max_notes_of az cfg = 0 /\
   exists beats,
     py_stride (beat_times az) (beat_skip cfg) = Ok beats /\
     eligible_rows az cfg (first_downbeat az)
                   (4 * 60.0 / bpm az / inject_Z (subdiv cfg)) beats <> ∅) ->
  generate_chart az name g = Raise ZeroDivisionError.
Proof.
  intros Hcfg Hcase. unfold generate_chart, mbind, M_bind. unfold liftR at 1. rewrite Hcfg.
  unfold generate_chart_with, mbind, M_bind. unfold liftR at 1. unfold py_div at 1.
  destruct (Qeq_bool (bpm az) 0) eqn:E0; [reflexivity|]. qbool.
  destruct Hcase as [Hz | (Hcap & beats & Hbeats & Hne)]; [contradiction|].
  destruct (config_of_grid name cfg Hcfg) as [Hsd _].
  unfold liftR at 1. rewrite py_div_ok by (unfold Qeq; simpl; lia). unfold liftR at 1.
  assert (Hspm : ~ 4 * 60.0 / bpm az == 0).
  { intros E. assert (E2 : 4 * 60.0 == 4 * 60.0 / bpm az * bpm az) by (field; exact E0).
    rewrite E in E2. vm_compute in E2. discriminate E2. }
  rewrite (py_div_ok _ _ Hspm). rewrite Hbeats. unfold liftR at 1.
  rewrite Hcap. unfold density_cap.
  assert (Hsize : (size (eligible_rows az cfg (first_downbeat az)
                           (4 * 60.0 / bpm az / inject_Z (subdiv cfg)) beats) <> 0)%nat).
  { intros E. apply size_empty_inv in E. apply Hne. apply leibniz_equiv, E. }
  rewrite (proj2 (Z.ltb_lt 0 _)) by lia. reflexivity.
Qed.

(** ** All selected difficulties *)

(** [selected or list(self.CONFIGS)]. *)
Definition selected_names (selected : option (list string)) : list string :=
  match selected with
  | Some ((_ :: _) as l) => l
  | _ => map fst CONFIGS
  end.

Lemma flat_map_seq_shift {A} (f : nat -> list A) (n : nat) : forall a : nat,
  flat_map f (seq (S a) n) = flat_map (fun j => f (S j)) (seq a n).
Proof.
  induction n as [|n IH]; intros a; [reflexivity|]. simpl. f_equal. apply IH.
Qed.

(** The percentages that the loop of [generate_all] reports from index
    [i] on for [n] names. *)
Definition loop_percentages (base i : Z) (n : nat) : list Z :=
  flat_map (fun j => [base + (i + Z.of_nat j) * 5; base + (i + Z.of_nat j + 1) * 5])
           (seq 0 n).

Lemma loop_percentages_S (base i : Z) (n : nat) :
  loop_percentages base i (S n) =
  [base + i * 5; base + (i + 1) * 5] ++ loop_percentages base (i + 1) n.
Proof.
  unfold loop_percentages. cbn [seq flat_map]. rewrite Z.add_0_r. f_equal.
  rewrite flat_map_seq_shift. apply flat_map_ext. intros j.
  replace (i + 1 + Z.of_nat j) with (i + Z.of_nat (S j)) by lia. reflexivity.
Qed.

Lemma generate_loop_spec (base : Z) : forall (sel : list string) (i : Z) self self',
  generate_loop base i sel self = Ok self' ->
  self_az self' = self_az self /\
  (forall name, is_Some (self_charts self' !! name) <->
                is_Some (self_charts self !! name) \/ name ∈ sel) /\
  (forall name chart, self_charts self' !! name = Some chart ->
     self_charts self !! name = Some chart \/
     exists g g', generate_chart (self_az self) name g = Ok (chart, g')) /\
  exists entries,
    self_log self' = self_log self ++ entries /\
    map snd entries = loop_percentages base i (length sel).
Proof.
  induction sel as [|name rest IH]; intros i self self' H; simpl in H.
  - injection H as <-. split; [reflexivity|]. split.
    { intros n. split; [auto|]. intros [Hn | Hn]; [exact Hn | inversion Hn]. }
    split; [auto|]. exists []. split; [rewrite app_nil_r; reflexivity | reflexivity].
  - apply result_bind_Ok in H as ([chart g] & Hchart & H).
    cbn [_log self_az self_rng self_charts self_log] in Hchart, H.
    apply IH in H as (Haz & Hkeys & Hcharts & entries & Hlog & Hpct).
    cbn [_log self_az self_rng self_charts self_log] in Haz, Hkeys, Hcharts, Hlog.
    split; [exact Haz|]. split; [|split].
    + intros n. rewrite Hkeys, lookup_insert_is_Some. split.
      * intros [[-> | [_ Hn]] | Hn]; [right; left | left; exact Hn | right; right; exact Hn].
      * intros [Hn | Hn].
        -- destruct (decide (name = n)) as [-> | Hne]; [left; left; reflexivity|].
           left. right. split; assumption.
        -- apply elem_of_cons in Hn as [-> | Hn]; [left; left; reflexivity | right; exact Hn].
    + intros n c Hc. apply Hcharts in Hc as [Hc | Hc]; [|right; exact Hc].
      apply lookup_insert_Some in Hc as [[<- <-] | [_ Hc]]; [|left; exact Hc].
      right. eauto.
    + exists ((LogGenerating name, base + i * 5)
              :: (LogNoteCount name (chart_note_count chart), base + (i + 1) * 5)
              :: entries).
      split.
      * rewrite Hlog, <- !app_assoc. reflexivity.
      * cbn [length]. rewrite loop_percentages_S. cbn [map snd app]. rewrite Hpct. reflexivity.
Qed.

Lemma generate_all_inv (self : StepChartGenerator) (selected : option (list string))
    (charts : gmap string Chart) (self' : StepChartGenerator) :
  generate_all self selected = Ok (charts, self') ->
  exists self1,
    generate_loop 72 0 (selected_names selected) self = Ok self1 /\
    charts = self_charts self1 /\
    self_log self' = self_log self1 ++ [(LogAllGenerated, 95)].
Proof.
  unfold generate_all. intros H. apply result_bind_Ok in H as (self1 & Hloop & H).
  injection H as <- <-. exists self1. split; [exact Hloop|]. split; reflexivity.
Qed.

(** On a fresh generator, when [generate_all] returns, the dict it returns
    has exactly the selected names as keys (all five difficulties for an
    empty selection); every selected name is a key of [CONFIGS], and the
    chart stored under a name carries that name and the level and
    subdivision of its difficulty. *)
Theorem generate_all_charts (az : AudioAnalyzer) (seed : Z) (cb : list (LogMsg * Z))
    (selected : option (list string)) (charts : gmap string Chart)
    (self' : StepChartGenerator) :
  generate_all (new_generator az seed cb) selected = Ok (charts, self') ->
  (forall name, is_Some (charts !! name) <-> name ∈ selected_names selected) /\
  (forall name chart, charts !! name = Some chart ->
     exists cfg, config_of name = Ok cfg /\ chart_difficulty chart = name /\
                 chart_level chart = level cfg /\ chart_subdiv chart = subdiv cfg).
Proof.
  intros H. apply generate_all_inv in H as (self1 & Hloop & -> & _).
  apply generate_loop_spec in Hloop as (_ & Hkeys & Hcharts & _).
  cbn [new_generator self_charts self_az] in Hkeys, Hcharts. split.
  - intros name. rewrite Hkeys, lookup_empty. split.
    + intros [[x Hx] | Hn]; [discriminate | exact Hn].
    + auto.
  - intros name chart Hc. apply Hcharts in Hc as [Hc | (g & g' & Hc)].
    { rewrite lookup_empty in Hc. discriminate. }
    apply generate_chart_inv in Hc as (cfg & Hcfg & Hc).
    apply generate_chart_with_inv in Hc
      as (spr & beats & note_grid & n_meas & built & processed & _ & _ & _ & ->).
    exists cfg. repeat split. exact Hcfg.
Qed.

Lemma loop_percentages_last (base : Z) (n : nat) :
  last (loop_percentages base 0 (S n)) = Some (base + (Z.of_nat n + 1) * 5).
Proof.
  unfold loop_percentages. rewrite seq_S, flat_map_app. cbn [flat_map Nat.add].
  rewrite app_nil_r, Z.add_0_l.
  change [base + Z.of_nat n * 5; base + (Z.of_nat n + 1) * 5]
    with ([base + Z.of_nat n * 5] ++ [base + (Z.of_nat n + 1) * 5]).
  rewrite app_assoc. apply last_snoc.
Qed.

(** What [generate_all] tells the progress callback when it returns: for
    the [k]-th selected name 72 + 5k and then 72 + 5(k + 1), and 95 at the
    end.  The last percentage before the closing 95 is 72 + 5n for [n]
    selected names, which is 97 when all five difficulties are selected. *)
Theorem generate_all_progress (az : AudioAnalyzer) (seed : Z) (cb : list (LogMsg * Z))
    (selected : option (list string)) (charts : gmap string Chart)
    (self' : StepChartGenerator) :
  generate_all (new_generator az seed cb) selected = Ok (charts, self') ->
  exists entries,
    self_log self' = cb ++ entries ++ [(LogAllGenerated, 95)] /\
    map snd entries = loop_percentages 72 0 (length (selected_names selected)) /\
    last (map snd entries) = Some (72 + Z.of_nat (length (selected_names selected)) * 5).
Proof.
  intros H. apply generate_all_inv in H as (self1 & Hloop & _ & Hlog).
  apply generate_loop_spec in Hloop as (_ & _ & _ & entries & Hentries & Hpct).
  cbn [new_generator self_log] in Hentries.
  exists entries. split; [rewrite Hlog, Hentries, <- app_assoc; reflexivity|].
  split; [exact Hpct|]. rewrite Hpct.
  assert (Hne : selected_names selected <> []).
  { unfold selected_names. destruct selected as [[|x l]|]; discriminate. }
  destruct (selected_names selected) as [|x l]; [congruence|].
  cbn [length]. rewrite loop_percentages_last. f_equal. lia.
Qed.

(** ** The written notes *)

(** The character that [str] gives for a lane value of 0 or 1. *)
Definition lane_char (v : Z) : ascii := if v =? 0 then "0"%char else "1"%char.

Lemma row_str_wf (r : Row) :
  row_wf r ->
  row_str r = String (lane_char (lane0 r)) (String (lane_char (lane1 r))
                (String (lane_char (lane2 r)) (String (lane_char (lane3 r)) ""))).
Proof. intros Hwf. lane_cases; reflexivity. Qed.

Lemma lane_char_inj (v w : Z) : lane_ok v -> lane_ok w -> lane_char v = lane_char w -> v = w.
Proof.
  intros [-> | ->] [-> | ->]; unfold lane_char; simpl; intros H;
    first [reflexivity | discriminate H].
Qed.

Lemma lane_char_digit (v : Z) : lane_char v = "0"%char \/ lane_char v = "1"%char.
Proof. unfold lane_char. destruct (v =? 0); auto. Qed.

(** The rows of a measure, each followed by a newline, before [k]. *)
Fixpoint rows_text (rows : list Row) (k : string) : string :=
  match rows with
  | [] => k
  | r :: rows' => row_str r +:+ nl +:+ rows_text rows' k
  end.

(** The text after the rows of a measure: the end of the notes, or a comma
    line and the remaining measures. *)
Fixpoint measures_text (measures : Measures) : string :=
  match measures with
  | [] => ";" +:+ nl
  | meas :: rest =>
      rows_text meas (match rest with
                      | [] => ";" +:+ nl
                      | _ => "," +:+ nl +:+ measures_text rest
                      end)
  end.

Lemma append_cons (x : ascii) (a b : string) : String x a +:+ b = String x (a +:+ b).
Proof. reflexivity. Qed.

Lemma append_nil (b : string) : "" +:+ b = b.
Proof. reflexivity. Qed.

Lemma append_assoc (a b c : string) : (a +:+ b) +:+ c = a +:+ (b +:+ c).
Proof.
  induction a as [|x a IH]; [reflexivity|].
  rewrite !append_cons. f_equal. exact IH.
Qed.

Ltac string_cons H := unfold nl in H; rewrite ?append_cons, ?append_nil in H.

Lemma measure_str_rows (meas : list Row) (k : string) :
  meas <> [] -> measure_str meas +:+ nl +:+ k = rows_text meas k.
Proof.
  unfold measure_str. induction meas as [|r rows IH]; [congruence|]. intros _.
  destruct rows as [|r2 rows]; [reflexivity|].
  change (py_join nl (map row_str (r :: r2 :: rows)))
    with (row_str r +:+ nl +:+ py_join nl (map row_str (r2 :: rows))).
  change (rows_text (r :: r2 :: rows) k)
    with (row_str r +:+ nl +:+ rows_text (r2 :: rows) k).
  rewrite <- (IH ltac:(discriminate)).
  rewrite !append_assoc. reflexivity.
Qed.

Lemma notes_body_text (measures : Measures) :
  measures <> [] -> Forall (fun meas => meas <> []) measures ->
  notes_body measures = measures_text measures.
Proof.
  unfold notes_body. induction measures as [|meas rest IH]; [congruence|].
  intros _ Hall. apply Forall_cons in Hall as [Hne Hall].
  destruct rest as [|meas2 rest].
  - cbn [map py_join measures_text]. apply measure_str_rows, Hne.
  - change (py_join (nl +:+ "," +:+ nl) (map measure_str (meas :: meas2 :: rest)))
      with (measure_str meas +:+ (nl +:+ "," +:+ nl)
            +:+ py_join (nl +:+ "," +:+ nl) (map measure_str (meas2 :: rest))).
    change (measures_text (meas :: meas2 :: rest))
      with (rows_text meas ("," +:+ nl +:+ measures_text (meas2 :: rest))).
    rewrite <- (IH ltac:(discriminate) Hall).
    rewrite <- (measure_str_rows meas _ Hne). rewrite !append_assoc. reflexivity.
Qed.

(** What follows the rows of a measure starts with a comma or a
    semicolon. *)
Definition closes (k : string) : Prop :=
  exists k', k = String ","%char k' \/ k = String ";"%char k'.

Lemma rows_text_inj (rows1 : list Row) : forall (rows2 : list Row) (k1 k2 : string),
  Forall row_wf rows1 -> Forall row_wf rows2 -> closes k1 -> closes k2 ->
  rows_text rows1 k1 = rows_text rows2 k2 -> rows1 = rows2 /\ k1 = k2.
Proof.
  induction rows1 as [|r1 rows1 IH]; intros rows2 k1 k2 Hwf1 Hwf2 Hk1 Hk2 H.
  - destruct rows2 as [|r2 rows2]; [split; [reflexivity | exact H]|].
    exfalso. apply Forall_cons in Hwf2 as [Hr2 _].
    cbn [rows_text] in H. rewrite (row_str_wf r2 Hr2) in H. string_cons H.
    destruct Hk1 as [k' [-> | ->]]; injection H as Hc _;
      destruct (lane_char_digit (lane0 r2)) as [E | E]; rewrite E in Hc; discriminate.
  - destruct rows2 as [|r2 rows2].
    + exfalso. apply Forall_cons in Hwf1 as [Hr1 _].
      cbn [rows_text] in H. rewrite (row_str_wf r1 Hr1) in H. string_cons H.
      destruct Hk2 as [k' [-> | ->]]; injection H as Hc _;
        destruct (lane_char_digit (lane0 r1)) as [E | E]; rewrite E in Hc; discriminate.
    + apply Forall_cons in Hwf1 as [Hr1 Hwf1]. apply Forall_cons in Hwf2 as [Hr2 Hwf2].
      cbn [rows_text] in H. rewrite (row_str_wf r1 Hr1), (row_str_wf r2 Hr2) in H.
      string_cons H. injection H as H0 H1 H2 H3 H.
      destruct (IH rows2 k1 k2 Hwf1 Hwf2 Hk1 Hk2 H) as [-> ->].
      split; [|reflexivity]. f_equal.
      destruct Hr1 as (A0 & A1 & A2 & A3). destruct Hr2 as (B0 & B1 & B2 & B3).
      apply lane_char_inj in H0, H1, H2, H3; try assumption.
      destruct r1, r2. simpl in *. congruence.
Qed.

Lemma measures_text_inj (m1 : Measures) : forall m2 : Measures,
  measures_ok m1 -> measures_ok m2 -> m1 <> [] -> m2 <> [] ->
  measures_text m1 = measures_text m2 -> m1 = m2.
Proof.
  unfold measures_ok. induction m1 as [|meas1 rest1 IH]; intros m2 Hok1 Hok2 Hne1 Hne2 H;
    [congruence|].
  destruct m2 as [|meas2 rest2]; [congruence|].
  apply Forall_cons in Hok1 as [[_ Hwf1] Hok1]. apply Forall_cons in Hok2 as [[_ Hwf2] Hok2].
  cbn [measures_text] in H.
  apply rows_text_inj in H as [-> Hk]; try assumption.
  - f_equal. destruct rest1 as [|a1 r1]; destruct rest2 as [|a2 r2];
      [reflexivity | discriminate Hk | discriminate Hk |].
    string_cons Hk. injection Hk as Hk.
    apply IH; [assumption | assumption | discriminate | discriminate | exact Hk].
  - destruct rest1; eexists; [right | left]; reflexivity.
  - destruct rest2; eexists; [right | left]; reflexivity.
Qed.

(** The notes text determines the measures: two non-empty lists of
    non-empty measures whose lanes hold 0 or 1, as generated charts have
    them, are written to the same text only when they are equal. *)
Theorem notes_body_injective (m1 m2 : Measures) :
  m1 <> [] -> m2 <> [] -> measures_ok m1 -> measures_ok m2 ->
  notes_body m1 = notes_body m2 -> m1 = m2.
Proof.
  intros Hne1 Hne2 Hok1 Hok2 H.
  rewrite (notes_body_text m1 Hne1), (notes_body_text m2 Hne2) in H.
  - apply measures_text_inj; assumption.
  - eapply Forall_impl; [exact Hok2|]. intros meas [Hm _]. exact Hm.
  - eapply Forall_impl; [exact Hok1|]. intros meas [Hm _]. exact Hm.
Qed.

(** ** Every generated chart is written *)

Lemma config_of_name (name : string) (cfg : Config) :
  config_of name = Ok cfg -> name ∈ DIFFICULTY_NAMES.
Proof.
  unfold config_of, CONFIGS, DIFFICULTY_NAMES. simpl.
  repeat match goal with
  | |- context [String.eqb name ?k] =>
      destruct (String.eqb_spec name k) as [-> | _];
        [intros _; repeat first [left; reflexivity | right] |]
  end.
  discriminate.
Qed.

Lemma notes_sections_elem (charts : gmap string Chart) (name : string) (chart : Chart) :
  name ∈ DIFFICULTY_NAMES -> charts !! name = Some chart ->
  notes_hdr name chart +:+ notes_body (chart_measures chart) ∈ notes_sections charts.
Proof.
  intros Hin Hc. unfold notes_sections. apply list_elem_of_omap.
  exists name. split; [exact Hin|]. rewrite Hc. reflexivity.
Qed.

(** [SMFileWriter.write] writes the header and then a notes section for
    every chart that [generate_all] returned on a fresh generator: the five
    names that the writer looks up are the keys of [CONFIGS]. *)
Theorem write_every_chart (format_6f : Q -> string) (az : AudioAnalyzer) (seed : Z)
    (cb : list (LogMsg * Z)) (selected : option (list string))
    (charts : gmap string Chart) (self' : StepChartGenerator)
    (title music : string) (video : option string) :
  generate_all (new_generator az seed cb) selected = Ok (charts, self') ->
  head (write format_6f az charts title music video)
    = Some (sm_header format_6f az title music video) /\
  forall name chart, charts !! name = Some chart ->
    notes_hdr name chart +:+ notes_body (chart_measures chart)
      ∈ tail (write format_6f az charts title music video).
Proof.
  intros H. split; [reflexivity|]. intros name chart Hc. cbn [write tail].
  apply notes_sections_elem; [|exact Hc].
  apply generate_all_inv in H as (self1 & Hloop & -> & _).
  apply generate_loop_spec in Hloop as (_ & _ & Hcharts & _).
  cbn [new_generator self_charts self_az] in Hcharts.
  apply Hcharts in Hc as [Hc | (g & g' & Hc)].
  { rewrite lookup_empty in Hc. discriminate. }
  apply generate_chart_inv in Hc as (cfg & Hcfg & _).
  eapply config_of_name, Hcfg.
Qed.

End GeneratorProperties.

(** A generator that replays a tape of raw draws, for running the model. *)
Definition tape_random (g : list Z) : Q * list Z :=
  match g with
  | [] => (0%Q, [])
  | x :: g' => ((inject_Z (x mod 100) / 100)%Q, g')
  end.

Definition tape_randbelow (n : Z) (g : list Z) : Z * list Z :=
  match g with
  | [] => (0, [])
  | x :: g' => (x mod n, g')
  end.

Lemma tape_random_range g :
  (0 <= (tape_random g).1 /\ (tape_random g).1 < 1)%Q.
Proof.
  destruct g as [|x g]; simpl; [split; [apply Qle_refl | reflexivity]|].
  pose proof (Z.mod_pos_bound x 100 eq_refl) as [Hlo Hhi].
  split.
  - apply Qle_shift_div_l; [reflexivity|].
    rewrite Qmult_0_l. change 0%Q with (inject_Z 0). rewrite <- Zle_Qle. exact Hlo.
  - apply Qlt_shift_div_r; [reflexivity|].
    rewrite Qmult_1_l. change 100%Q with (inject_Z 100). rewrite <- Zlt_Qlt. exact Hhi.
Qed.

Lemma tape_randbelow_range n g : 0 < n -> 0 <= (tape_randbelow n g).1 < n.
Proof.
  intros Hn. destruct g as [|x g]; simpl; [lia|].
  apply Z.mod_pos_bound. exact Hn.
Qed.

(** Seeding gives the first 1024 values of a linear congruential
    sequence. *)
Fixpoint lcg_tape (n : nat) (x : Z) : list Z :=
  match n with
  | O => []
  | S n' => let y := (x * 1103515245 + 12345) mod 2147483648 in
            y `div` 65536 :: lcg_tape n' y
  end.

Definition TapePRNG : PRNG := {|
  rng_state := list Z;
  Random := fun seed => lcg_tape 1024 seed;
  rng_random := tape_random;
  rng_randbelow := tape_randbelow;
  rng_random_range := tape_random_range;
  rng_randbelow_range := tape_randbelow_range;
|}.


(** ** Concrete runs *)

(** A ten-second track at 240 BPM with a beat every quarter second, three
    onsets, a three-frame spectrogram of four bands and a flat RMS
    envelope. *)
Definition sprint_track : AudioAnalyzer := {|
  sr := 22050; duration := 10; bpm := 240;
  beat_times := map (fun i => (inject_Z i * 0.25)%Q) (py_range 40);
  onset_times := [0.125; 1.1; 2.3]%Q; onset_strengths := [1; 0.5; 0.2]%Q;
  mel_spec := [[1; 2; 3; 4]; [4; 3; 2; 1]; [0; 5; 0; 0]]%Q; n_mels := 4;
  music_start := 0; first_downbeat := 0; rms := Some [1; 1; 0.5; 1]%Q |}.

Definition empty_chart : Chart := {|
  chart_difficulty := ""; chart_level := 0; chart_subdiv := 0;
  chart_measures := []; chart_note_count := 0 |}.

(** The chart and the generator state that a run returns. *)
Definition run_chart (az : AudioAnalyzer) (name : string) (tape : list Z) : Chart * list Z :=
  match generate_chart (G := TapePRNG) az name tape with
  | Ok r => r
  | Raise _ => (empty_chart, [])
  end.

Definition sprint_beginner : Chart * list Z :=
  Eval vm_compute in run_chart sprint_track "Beginner" (repeat 7 200).

Definition sprint_hard : Chart * list Z :=
  Eval vm_compute in run_chart sprint_track "Hard" (lcg_tape 400 2024).

Lemma note_count_within_cap_witness :
  (0 <= duration sprint_track)%Q /\
  config_of "Beginner" = Ok Beginner /\
  generate_chart (G := TapePRNG) sprint_track "Beginner" (repeat 7 200)
    = Ok (sprint_beginner.1, sprint_beginner.2) /\
  chart_note_count sprint_beginner.1 =
    Z.of_nat (length (active_rows (concat (chart_measures sprint_beginner.1)))) /\
  chart_note_count sprint_beginner.1 <= py_int (duration sprint_track * max_nps Beginner) /\
  (forall eligible : gset Z,
      0 < py_int (duration sprint_track * max_nps Beginner) < Z.of_nat (size eligible) ->
      exists note_grid,
        density_cap (py_int (duration sprint_track * max_nps Beginner)) eligible
          = Ok note_grid /\
        Z.of_nat (size note_grid) = py_int (duration sprint_track * max_nps Beginner) /\
        note_grid ⊆ eligible).
Proof.
  assert (H1 : (0 <= duration sprint_track)%Q) by discriminate.
  assert (H2 : config_of "Beginner" = Ok Beginner) by reflexivity.
  assert (H3 : generate_chart (G := TapePRNG) sprint_track "Beginner" (repeat 7 200)
               = Ok (sprint_beginner.1, sprint_beginner.2)) by (vm_compute; reflexivity).
  split; [exact H1|]. split; [exact H2|]. split; [exact H3|].
  exact (note_count_within_cap (G := TapePRNG) sprint_track "Beginner" Beginner
           sprint_beginner.1 (repeat 7 200) sprint_beginner.2 H1 H2 H3).
Defined.

Lemma chart_rows_at_most_two_witness :
  generate_chart (G := TapePRNG) sprint_track "Hard" (lcg_tape 400 2024)
    = Ok (sprint_hard.1, sprint_hard.2) /\
  forall meas row, meas ∈ chart_measures sprint_hard.1 -> row ∈ meas ->
    row_wf row /\ (length (arrows_of row) <= 2)%nat.
Proof.
  assert (H : generate_chart (G := TapePRNG) sprint_track "Hard" (lcg_tape 400 2024)
              = Ok (sprint_hard.1, sprint_hard.2)) by (vm_compute; reflexivity).
  split; [exact H|].
  exact (chart_rows_at_most_two (G := TapePRNG) sprint_track "Hard"
           sprint_hard.1 (lcg_tape 400 2024) sprint_hard.2 H).
Defined.

Lemma beginner_chart_no_jumps_witness :
  generate_chart (G := TapePRNG) sprint_track "Beginner" (repeat 7 200)
    = Ok (sprint_beginner.1, sprint_beginner.2) /\
  chart_level sprint_beginner.1 = 1 /\
  forall meas row, meas ∈ chart_measures sprint_beginner.1 -> row ∈ meas ->
    (length (arrows_of row) <= 1)%nat.
Proof.
  assert (H : generate_chart (G := TapePRNG) sprint_track "Beginner" (repeat 7 200)
              = Ok (sprint_beginner.1, sprint_beginner.2)) by (vm_compute; reflexivity).
  split; [exact H|].
  exact (beginner_chart_no_jumps (G := TapePRNG) sprint_track
           sprint_beginner.1 (repeat 7 200) sprint_beginner.2 H).
Defined.

Definition crowded_measures : Measures :=
  [[mkRow 1 1 0 0; mkRow 0 0 1 1; mkRow 1 0 0 0; mkRow 0 1 1 0];
   [mkRow 1 0 0 1; zero_row; zero_row; mkRow 1 1 1 0]].

Lemma jump_spacing_rule_witness :
  Forall (fun meas => Z.of_nat (length meas) = 4) crowded_measures /\
  exists out g',
    rule5 (G := TapePRNG) 8 4 crowded_measures (lcg_tape 16 5) = Ok (out, g') /\
    map length out = map length crowded_measures /\
    (9 <= 8 -> out = crowded_measures) /\
    (8 < 9 ->
     forall (i : nat) r r',
       concat crowded_measures !! i = Some r -> concat out !! i = Some r' ->
       (2 <= row_sum r /\ jump_within_two (concat out) i ->
        exists k, k ∈ arrows_of r /\ row_set zero_row k 1 = Ok r') /\
       (~ (2 <= row_sum r /\ jump_within_two (concat out) i) -> r' = r)).
Proof.
  assert (H : Forall (fun meas => Z.of_nat (length meas) = 4) crowded_measures).
  { repeat constructor. }
  split; [exact H|].
  exact (jump_spacing_rule (G := TapePRNG) 8 4 crowded_measures (lcg_tape 16 5) H).
Defined.

Definition Beginner_with_onsets : Config := {|
  level := 1; subdiv := 4; use_beats_only := false; beat_skip := 2;
  onset_thresh := 0.95; jump_prob := 0.00; max_nps := 1.5;
  jack_ok := false; alt_pref := true |}.

Lemma use_beats_only_unused_witness :
  generate_chart_with (G := TapePRNG) sprint_track "Beginner" Beginner (lcg_tape 200 1) =
  generate_chart_with (G := TapePRNG) sprint_track "Beginner" Beginner_with_onsets
                      (lcg_tape 200 1) /\
  (forall offset spr beats ot os_,
      use_beats_only Beginner = true ->
      (ot, os_) ∈ zip (onset_times sprint_track) (onset_strengths sprint_track) ->
      (onset_thresh Beginner <= os_)%Q ->
      (music_start sprint_track <= ot)%Q -> (ot <= duration sprint_track)%Q ->
      0 <= py_round ((ot - offset) / spr) ->
      (Qabs ((ot - offset) / spr - inject_Z (py_round ((ot - offset) / spr))) < 0.45)%Q ->
      py_round ((ot - offset) / spr) ∈ eligible_rows sprint_track Beginner offset spr beats).
Proof.
  exact (use_beats_only_unused (G := TapePRNG) sprint_track "Beginner"
           Beginner Beginner_with_onsets (lcg_tape 200 1)
           eq_refl eq_refl eq_refl eq_refl eq_refl eq_refl eq_refl eq_refl).
Defined.

Lemma generate_all_deterministic_witness :
  same_outcome (fun r1 r2 => r1.1 = r2.1)
    (generate_all (G := TapePRNG) (new_generator sprint_track 42 [])
                  (Some ["Beginner"; "Hard"]%string))
    (generate_all (G := TapePRNG) (new_generator sprint_track 42 [(LogAllGenerated, 0)])
                  (Some ["Beginner"; "Hard"]%string)).
Proof.
  exact (generate_all_deterministic (G := TapePRNG) sprint_track sprint_track 42 42
           (Some ["Beginner"; "Hard"]%string) (Some ["Beginner"; "Hard"]%string)
           [] [(LogAllGenerated, 0)] eq_refl eq_refl eq_refl).
Defined.


(** A half-second track with a single beat: the Beginner cap
    [int(0.5 * 1.5)] is 0 while row 0 is eligible. *)
Definition blip_track : AudioAnalyzer := {|
  sr := 22050; duration := 0.5; bpm := 120;
  beat_times := [0%Q]; onset_times := []; onset_strengths := [];
  mel_spec := [[1; 2; 3; 4]]%Q; n_mels := 4;
  music_start := 0; first_downbeat := 0; rms := Some [1%Q] |}.

(** On such a track [generate_chart] raises instead of returning a chart,
    whatever the generator. *)
Lemma short_track_raises (G : PRNG) (g : rng_state) :
  generate_chart blip_track "Beginner" g = Raise ZeroDivisionError.
Proof. vm_compute. reflexivity. Qed.

Lemma density_cap_zero_raises_witness :
  ({[ 3 ]} : gset Z) <> ∅ /\ density_cap 0 {[ 3 ]} = Raise ZeroDivisionError.
Proof.
  assert (H : ({[ 3 ]} : gset Z) <> ∅).
  { intros E. assert (Hin : 3 ∈ ({[ 3 ]} : gset Z)) by set_solver.
    rewrite E in Hin. set_solver. }
  split; [exact H | exact (density_cap_zero_raises {[ 3 ]} H)].
Defined.

Lemma generate_chart_returns_witness :
  analysis_ok sprint_track /\
  config_of "Medium" = Ok Medium /\
  py_int (duration sprint_track * max_nps Medium) <> 0 /\
  exists chart g',
    generate_chart (G := TapePRNG) sprint_track "Medium" (lcg_tape 300 11) = Ok (chart, g').
Proof.
  assert (H1 : analysis_ok sprint_track).
  { split; [|split]; [intros E; discriminate E | discriminate | discriminate]. }
  assert (H2 : config_of "Medium" = Ok Medium) by reflexivity.
  assert (H3 : py_int (duration sprint_track * max_nps Medium) <> 0) by (vm_compute; discriminate).
  split; [exact H1|]. split; [exact H2|]. split; [exact H3|].
  exact (generate_chart_returns (G := TapePRNG) sprint_track "Medium" Medium
           (lcg_tape 300 11) H1 H2 H3).
Defined.

Lemma chart_keeps_a_measure_witness :
  (0 < bpm sprint_track)%Q /\
  (first_downbeat sprint_track <= duration sprint_track)%Q /\
  generate_chart (G := TapePRNG) sprint_track "Hard" (lcg_tape 400 2024)
    = Ok (sprint_hard.1, sprint_hard.2) /\
  chart_measures sprint_hard.1 <> [].
Proof.
  assert (H1 : (0 < bpm sprint_track)%Q) by reflexivity.
  assert (H2 : (first_downbeat sprint_track <= duration sprint_track)%Q) by discriminate.
  assert (H3 : generate_chart (G := TapePRNG) sprint_track "Hard" (lcg_tape 400 2024)
               = Ok (sprint_hard.1, sprint_hard.2)) by (vm_compute; reflexivity).
  split; [exact H1|]. split; [exact H2|]. split; [exact H3|].
  exact (chart_keeps_a_measure (G := TapePRNG) sprint_track "Hard" sprint_hard.1
           (lcg_tape 400 2024) sprint_hard.2 H1 H2 H3).
Defined.

Lemma weak_onsets_mark_nothing_witness :
  Forall (fun os_ => (os_ < onset_thresh Beginner)%Q) [0.5; 0.2]%Q /\
  mark_onsets {| sr := 22050; duration := 10; bpm := 120; beat_times := [];
                 onset_times := [1.0; 2.5]%Q; onset_strengths := [0.5; 0.2]%Q;
                 mel_spec := []; n_mels := 128; music_start := 0;
                 first_downbeat := 0; rms := None |}
              Beginner 0 0.5 {[ 4 ]} = {[ 4 ]}.
Proof.
  assert (H : Forall (fun os_ => (os_ < onset_thresh Beginner)%Q) [0.5; 0.2]%Q).
  { repeat constructor. }
  split; [exact H|].
  exact (weak_onsets_mark_nothing
           {| sr := 22050; duration := 10; bpm := 120; beat_times := [];
              onset_times := [1.0; 2.5]%Q; onset_strengths := [0.5; 0.2]%Q;
              mel_spec := []; n_mels := 128; music_start := 0;
              first_downbeat := 0; rms := None |}
           Beginner 0 0.5 {[ 4 ]} H).
Defined.

(** ** Further concrete runs *)

Definition demo_env : list Q := [0.5; 2; 1; 4; 0]%Q.

Definition demo_onsets : list Q * list Q :=
  Eval vm_compute in
    match detect_onsets 22050 demo_env [1; 3; 2] with
    | Ok r => r
    | Raise _ => ([], [])
    end.

Lemma detect_onsets_normalised_witness :
  length demo_onsets.1 = length [1; 3; 2] /\ length demo_onsets.2 = length [1; 3; 2] /\
  (Exists (fun s => (0 < s)%Q) demo_onsets.2 ->
   Forall (fun s => (s <= 1)%Q) demo_onsets.2 /\
   Exists (fun s => s == 1) demo_onsets.2 /\
   forall name cfg, config_of name = Ok cfg ->
     Exists (fun s => (onset_thresh cfg <= s)%Q) demo_onsets.2).
Proof.
  apply (detect_onsets_normalised 22050 demo_env [1; 3; 2] demo_onsets.1 demo_onsets.2).
  vm_compute. reflexivity.
Defined.

Lemma get_rms_at_unit_witness :
  exists energy, get_rms_at sprint_track 3.3 = Ok energy /\ (0 <= energy <= 1)%Q.
Proof.
  apply (get_rms_at_unit sprint_track 3.3 [1; 1; 0.5; 1]%Q).
  - reflexivity.
  - discriminate.
  - repeat constructor; discriminate.
Defined.

Lemma accepted_override_bpm_witness :
  detect_bpm true (Some 0.2%Q) (Ok []) (Raise ValueError) = Ok (snap_bpm 0.2) /\
  (0 <= snap_bpm 0.2 <= 300)%Q /\
  (snap_bpm 0.2 == 0 <-> (0.2 <= 1 # 4)%Q).
Proof.
  apply (accepted_override_bpm true 0.2%Q (Ok []) (Raise ValueError)).
  vm_compute. reflexivity.
Defined.

Lemma estimate_bpm_fallback_witness :
  _estimate_bpm_multimethod (fun l => l) 20 20 20 [300%Q] [0; 3; 6]%Q =
    if Qeq_bool (py_round2 20) 0 then Raise ZeroDivisionError else Ok (py_round2 20).
Proof.
  apply (estimate_bpm_fallback (fun l => l) 20 20 20 [300%Q] [0; 3; 6]%Q).
  - intros l. reflexivity.
  - repeat constructor; left; reflexivity.
  - repeat constructor. intros [_ H]. vm_compute in H. discriminate H.
Defined.

(** The beats that a tracker reports for the eight-beat excerpt, two of
    them before the music start at 1 s. *)
Definition late_start : AudioAnalyzer := {|
  sr := 22050; duration := 10; bpm := 0;
  beat_times := []; onset_times := []; onset_strengths := []; mel_spec := []; n_mels := 128;
  music_start := 1; first_downbeat := 0; rms := Some (repeat 1%Q 152) |}.

Definition late_start_analysed : AudioAnalyzer :=
  Eval vm_compute in
    match _detect_with_librosa late_start (Some 119.9%Q) (Raise ValueError)
            (fun _ => map (fun i => (inject_Z i * 0.5)%Q) (py_range 12))
            accent_env (repeat 1%Q 152) with
    | Returns az => az
    | _ => late_start
    end.

Lemma detect_with_librosa_invariants_witness :
  (exists k : Z, bpm late_start_analysed == inject_Z k / 2) /\
  music_start late_start_analysed = music_start late_start /\
  Forall (fun t => (music_start late_start <= t)%Q) (beat_times late_start_analysed) /\
  (beat_times late_start_analysed = [] -> first_downbeat late_start_analysed = 0%Q) /\
  (beat_times late_start_analysed <> [] -> (0 < bpm late_start_analysed)%Q ->
   (music_start late_start - 60 / bpm late_start_analysed * 0.25
      <= first_downbeat late_start_analysed)%Q /\
   exists (i : nat) t,
     (i < 4)%nat /\ beat_times late_start_analysed !! i = Some t /\
     (first_downbeat late_start_analysed <= t)%Q).
Proof.
  apply (detect_with_librosa_invariants late_start (Some 119.9%Q) (Raise ValueError)
           (fun _ => map (fun i => (inject_Z i * 0.5)%Q) (py_range 12))
           accent_env (repeat 1%Q 152) late_start_analysed).
  vm_compute. reflexivity.
Defined.

(** A two-frame spectrogram of eight mel bands. *)
Definition eight_bands : AudioAnalyzer := {|
  sr := 22050; duration := 10; bpm := 120;
  beat_times := []; onset_times := []; onset_strengths := [];
  mel_spec := [[1; 1; 5; 5; 5; 5; 0; 0]; [3; 3; 0; 0; 1; 1; 3; 3]]%Q; n_mels := 8;
  music_start := 0; first_downbeat := 0; rms := None |}.

Lemma get_dominant_band_loudest_witness :
  exists spec band,
    mel_spec eight_bands
      !! Z.to_nat (np_clip (time_to_frames 0.03 (sr eight_bands) 512) 0
                           (Z.of_nat (length (mel_spec eight_bands)) - 1)) = Some spec /\
    get_dominant_band eight_bands 0.03 = Ok band /\ 0 <= band < 4 /\
    (forall i, 0 <= i < 4 ->
       (band_energy eight_bands spec i <= band_energy eight_bands spec band)%Q) /\
    (forall i, 0 <= i < band ->
       (band_energy eight_bands spec i < band_energy eight_bands spec band)%Q).
Proof.
  apply (get_dominant_band_loudest eight_bands 0.03).
  - discriminate.
  - simpl. lia.
  - repeat constructor.
Defined.

Lemma density_cap_keeps_earliest_witness :
  exists X' first,
    density_cap 3 (list_to_set [4; 9; 2; 17; 11; 30; 25]) = Ok X' /\
    X' ⊆ list_to_set [4; 9; 2; 17; 11; 30; 25] /\
    first ∈ X' /\ forall y, y ∈ (list_to_set [4; 9; 2; 17; 11; 30; 25] : gset Z) -> first <= y.
Proof.
  apply (density_cap_keeps_earliest 3 (list_to_set [4; 9; 2; 17; 11; 30; 25])).
  vm_compute. split; reflexivity.
Defined.

Definition pick_demo : (Row * Z) * list Z :=
  Eval vm_compute in
    match _pick_arrow (G := TapePRNG) sprint_track 1 [2; 0] Beginner (lcg_tape 20 3) with
    | Ok r => r
    | Raise _ => ((zero_row, 0), [])
    end.

Lemma pick_arrow_alternates_feet_witness :
  (0 ∈ LEFT_FOOT -> pick_demo.1.2 ∈ RIGHT_FOOT) /\
  (0 ∉ LEFT_FOOT -> pick_demo.1.2 ∈ LEFT_FOOT) /\
  pick_demo.1.2 <> 0 /\ row_get pick_demo.1.1 pick_demo.1.2 = 1.
Proof.
  apply (pick_arrow_alternates_feet (G := TapePRNG) sprint_track 1 [2; 0] Beginner 0
           pick_demo.1.1 pick_demo.1.2 (lcg_tape 20 3) pick_demo.2).
  - reflexivity.
  - reflexivity.
  - vm_compute. reflexivity.
Defined.

Definition six_singles : list Row :=
  [mkRow 0 0 0 1; mkRow 1 0 0 0; mkRow 1 0 0 0; mkRow 0 1 0 0; mkRow 0 0 1 0; zero_row].

Definition smooth_demo : list Row * list Z :=
  Eval vm_compute in
    match _smooth_run (G := TapePRNG) six_singles 1 4 [6; 7] with
    | Ok r => r
    | Raise _ => ([], [])
    end.

Lemma smooth_run_pattern_witness :
  exists pat,
    pat ∈ patterns /\ length smooth_demo.1 = length six_singles /\
    (forall k : nat, (k < 4)%nat ->
       exists arrow r, py_index pat (Z.of_nat k mod 4) = Ok arrow /\
                       row_set zero_row arrow 1 = Ok r /\
                       smooth_demo.1 !! (1 + k)%nat = Some r) /\
    (forall j : nat, ~ (1 <= j < 1 + 4)%nat -> smooth_demo.1 !! j = six_singles !! j).
Proof.
  apply (smooth_run_pattern (G := TapePRNG) six_singles smooth_demo.1 1 4 [6; 7] smooth_demo.2).
  vm_compute. reflexivity.
Defined.

Definition two_downbeats : Measures :=
  [[mkRow 1 0 0 0; zero_row]; [mkRow 0 0 0 1; mkRow 0 1 0 0]].

Definition emphasis_demo : Measures * list Z :=
  Eval vm_compute in
    match rule3 (G := TapePRNG) sprint_track 2 1 0 0 two_downbeats [5; 1; 90; 3] with
    | Ok r => r
    | Raise _ => ([], [])
    end.

Lemma rule3_emphasis_jumps_witness : Forall2 emphasis_step two_downbeats emphasis_demo.1.
Proof.
  apply (rule3_emphasis_jumps (G := TapePRNG) sprint_track 2 1 0 two_downbeats
           emphasis_demo.1 0 [5; 1; 90; 3] emphasis_demo.2).
  vm_compute. reflexivity.
Defined.

Lemma chart_measures_shape_witness :
  chart_difficulty sprint_hard.1 = "Hard"%string /\ chart_level sprint_hard.1 = level Hard /\
  chart_subdiv sprint_hard.1 = subdiv Hard /\
  Forall (fun meas => Z.of_nat (length meas) = subdiv Hard) (chart_measures sprint_hard.1) /\
  (length (chart_measures sprint_hard.1)
   <= Z.to_nat (Qceiling ((duration sprint_track - first_downbeat sprint_track)
                          / (4 * 60.0 / bpm sprint_track)) + 1))%nat.
Proof.
  apply (chart_measures_shape (G := TapePRNG) sprint_track "Hard" Hard sprint_hard.1
           (lcg_tape 400 2024) sprint_hard.2).
  - reflexivity.
  - vm_compute. reflexivity.
Defined.

Lemma chart_last_measure_has_note_witness :
  exists meas row,
    last (chart_measures sprint_beginner.1) = Some meas /\ row ∈ meas /\
    row_any_pos row = true.
Proof.
  apply (chart_last_measure_has_note (G := TapePRNG) sprint_track "Beginner"
           sprint_beginner.1 (repeat 7 200) sprint_beginner.2).
  - vm_compute. reflexivity.
  - vm_compute. lia.
Defined.

Lemma chart_notes_on_sources_witness :
  exists beats,
    py_stride (beat_times sprint_track) (beat_skip Hard) = Ok beats /\
    forall (i : nat) row,
      concat (chart_measures sprint_hard.1) !! i = Some row -> row_any_pos row = true ->
      (0 <= first_downbeat sprint_track
            + inject_Z (Z.of_nat i) * (4 * 60.0 / bpm sprint_track / inject_Z (subdiv Hard))
         <= duration sprint_track)%Q /\
      row_source sprint_track Hard (first_downbeat sprint_track)
                 (4 * 60.0 / bpm sprint_track / inject_Z (subdiv Hard)) beats (Z.of_nat i).
Proof.
  apply (chart_notes_on_sources (G := TapePRNG) sprint_track "Hard" Hard sprint_hard.1
           (lcg_tape 400 2024) sprint_hard.2).
  - reflexivity.
  - vm_compute. reflexivity.
Defined.

Lemma chart_notes_not_quiet_witness :
  config_of "Hard" = Ok Hard /\
  forall (i : nat) row,
    concat (chart_measures sprint_hard.1) !! i = Some row -> row_any_pos row = true ->
    exists energy,
      get_rms_at sprint_track
        (first_downbeat sprint_track
         + inject_Z (Z.of_nat i) * (4 * 60.0 / bpm sprint_track / inject_Z (subdiv Hard)))
        = Ok energy /\
      (0.08 <= energy)%Q.
Proof.
  split; [reflexivity|].
  apply (chart_notes_not_quiet (G := TapePRNG) sprint_track "Hard" Hard sprint_hard.1
           (lcg_tape 400 2024) sprint_hard.2).
  - reflexivity.
  - vm_compute. reflexivity.
Defined.

Lemma beginner_chart_no_crossover_witness :
  generate_chart (G := TapePRNG) sprint_track "Beginner" (repeat 7 200)
    = Ok (sprint_beginner.1, sprint_beginner.2) /\
  no_crossover (single_arrows (concat (chart_measures sprint_beginner.1))).
Proof.
  assert (H : generate_chart (G := TapePRNG) sprint_track "Beginner" (repeat 7 200)
              = Ok (sprint_beginner.1, sprint_beginner.2)) by (vm_compute; reflexivity).
  split; [exact H|].
  exact (beginner_chart_no_crossover (G := TapePRNG) sprint_track sprint_beginner.1
           (repeat 7 200) sprint_beginner.2 H).
Defined.

Lemma generate_chart_raises_witness :
  generate_chart (G := TapePRNG) blip_track "Beginner" (lcg_tape 8 1)
    = Raise ZeroDivisionError.
Proof.
  apply (generate_chart_raises (G := TapePRNG) blip_track "Beginner" Beginner (lcg_tape 8 1)).
  - reflexivity.
  - right. split; [vm_compute; reflexivity|].
    exists [0%Q]. split; [reflexivity|].
    intros E. assert (Hin : 0 ∈ eligible_rows blip_track Beginner (first_downbeat blip_track)
                               (4 * 60.0 / bpm blip_track / inject_Z (subdiv Beginner)) [0%Q]).
    { vm_compute. reflexivity. }
    rewrite E in Hin. set_solver.
Defined.

(** Whether a call returned. *)
Definition result_ok {A} (r : result A) : bool :=
  match r with Ok _ => true | Raise _ => false end.

(** What [generate_all] returns for the difficulties Hard and Beginner on
    the sprint track: the dict of charts and the generator afterwards. *)
Definition sprint_all : gmap string Chart * StepChartGenerator (G := TapePRNG) :=
  match generate_all (G := TapePRNG) (new_generator sprint_track 42 [])
                     (Some ["Hard"; "Beginner"]%string) with
  | Ok r => r
  | Raise _ => (∅, new_generator sprint_track 42 [])
  end.

Lemma sprint_all_run :
  generate_all (G := TapePRNG) (new_generator sprint_track 42 [])
               (Some ["Hard"; "Beginner"]%string) = Ok (sprint_all.1, sprint_all.2).
Proof.
  assert (H : result_ok (generate_all (G := TapePRNG) (new_generator sprint_track 42 [])
                           (Some ["Hard"; "Beginner"]%string)) = true)
    by (vm_compute; reflexivity).
  unfold sprint_all.
  destruct (generate_all (G := TapePRNG) (new_generator sprint_track 42 [])
              (Some ["Hard"; "Beginner"]%string)) as [[charts self']|e];
    [reflexivity | discriminate H].
Qed.

Lemma generate_all_charts_witness :
  (forall name, is_Some (sprint_all.1 !! name) <->
                name ∈ selected_names (Some ["Hard"; "Beginner"]%string)) /\
  (forall name chart, sprint_all.1 !! name = Some chart ->
     exists cfg, config_of name = Ok cfg /\ chart_difficulty chart = name /\
                 chart_level chart = level cfg /\ chart_subdiv chart = subdiv cfg).
Proof.
  exact (generate_all_charts (G := TapePRNG) sprint_track 42 []
           (Some ["Hard"; "Beginner"]%string) sprint_all.1 sprint_all.2 sprint_all_run).
Defined.

Lemma generate_all_progress_witness :
  exists entries,
    self_log sprint_all.2 = [] ++ entries ++ [(LogAllGenerated, 95)] /\
    map snd entries
      = loop_percentages 72 0 (length (selected_names (Some ["Hard"; "Beginner"]%string))) /\
    last (map snd entries)
      = Some (72 + Z.of_nat (length (selected_names (Some ["Hard"; "Beginner"]%string))) * 5).
Proof.
  exact (generate_all_progress (G := TapePRNG) sprint_track 42 []
           (Some ["Hard"; "Beginner"]%string) sprint_all.1 sprint_all.2 sprint_all_run).
Defined.

(** Two measures of two rows, and the same measures put together row by
    row. *)
Definition two_measures : Measures :=
  [[mkRow 1 0 0 0; zero_row]; [mkRow 0 1 1 0; zero_row]].

Definition two_measures_again : Measures :=
  map (map (fun r => mkRow (lane0 r) (lane1 r) (lane2 r) (lane3 r))) two_measures.

Lemma notes_body_injective_witness : two_measures = two_measures_again.
Proof.
  apply (notes_body_injective two_measures two_measures_again).
  - discriminate.
  - discriminate.
  - repeat constructor; discriminate.
  - repeat constructor; discriminate.
  - vm_compute. reflexivity.
Defined.

Lemma write_every_chart_witness :
  head (write (fun _ => "0.000000"%string) sprint_track sprint_all.1 "song" "song.mp3" None)
    = Some (sm_header (fun _ => "0.000000"%string) sprint_track "song" "song.mp3" None) /\
  forall name chart, sprint_all.1 !! name = Some chart ->
    notes_hdr name chart +:+ notes_body (chart_measures chart)
      ∈ tail (write (fun _ => "0.000000"%string) sprint_track sprint_all.1
                    "song" "song.mp3" None).
Proof.
  exact (write_every_chart (G := TapePRNG) (fun _ => "0.000000"%string) sprint_track 42 []
           (Some ["Hard"; "Beginner"]%string) sprint_all.1 sprint_all.2
           "song" "song.mp3" None sprint_all_run).
Defined.
